(** * ArrayForge (Yogpod/solar): the evaluation engine of [App.tsx]

    A shallow embedding of the two memoised computations of the React
    component [App]: the statistics aggregator [stats] and the compatibility
    diagnostics [messages], together with the ECMAScript built-ins they call
    ([parseFloat], [Number], [String], [Number.prototype.toFixed], [Set]).

    ECMAScript numbers are IEEE 754 binary64 values; they are modelled by
    Rocq's primitive [float], whose operations are the same binary64
    operations with round-to-nearest-even.  ECMAScript strings are modelled
    by [string] (a sequence of bytes, UTF-8 for the few characters outside
    ASCII that the source contains). *)

From Stdlib Require Import ZArith List String Ascii Bool Lia Floats DecimalString.
Import ListNotations.

Set Warnings "-inexact-float".
#[local] Open Scope string_scope.
#[local] Open Scope Z_scope.

(** ** ECMAScript built-ins used by the engine *)
Module JS.

(** *** Numbers *)

(** [x > y] of ECMAScript is [y < x]; both are [false] when an operand is NaN. *)
Definition gtb (x y : float) : bool := PrimFloat.ltb y x.

(** [x === y] on numbers: IEEE equality (NaN differs from itself, +0 = -0). *)
Definition strictEq (x y : float) : bool := PrimFloat.eqb x y.

(** The global [isNaN] on a number. *)
Definition isNaN (x : float) : bool := PrimFloat.is_nan x.

(** The global [isFinite] and [Number.isFinite] on a number. *)
Definition isFinite (x : float) : bool := PrimFloat.is_finite x.

(** The exact value of a finite non-zero number as a fraction [n / d]
    of positive integers, with its sign. *)
Definition fraction_of (x : float) : option (bool * Z * Z) :=
  match Prim2SF x with
  | S754_finite s m e =>
      if 0 <=? e then Some (s, Zpos m * 2 ^ e, 1)
      else Some (s, Zpos m, 2 ^ (- e))
  | _ => None
  end.

(** The number nearest to [± n / d] (ties to even, overflow to infinity),
    for [0 < n] and [0 < d]: the quotient is taken with at least 56
    significant bits and a sticky bit, and rounded by [binary_normalize]. *)
Definition round_fraction (neg : bool) (n d : Z) : float :=
  let k := 56 + Z.log2 d - Z.log2 n in
  let num := if 0 <=? k then n * 2 ^ k else n in
  let den := if 0 <=? k then d else d * 2 ^ (- k) in
  let q := num / den in
  let sticky := if num mod den =? 0 then 0 else 1 in
  let m := 2 * q + sticky in
  SF2Prim (binary_normalize prec emax (if neg then - m else m) (- k - 1) false).

(** The number nearest to [± m × 10^e] for a natural [m]. *)
Definition round_decimal (neg : bool) (m e : Z) : float :=
  if m =? 0 then (if neg then neg_zero else zero)
  else if 0 <=? e then round_fraction neg (m * 10 ^ e) 1
  else round_fraction neg m (10 ^ (- e)).

(** The number of an array length or another small natural number. *)
Definition ofNat (n : nat) : float := round_decimal false (Z.of_nat n) 0.

(** *** Scanning numeric literals *)

Definition digit_of (c : ascii) : option Z :=
  let n := Z.of_N (N_of_ascii c) in
  if (48 <=? n) && (n <=? 57) then Some (n - 48) else None.

(** Reads the longest run of decimal digits at the head of [s]: the value
    read after [acc], the number of digits read after [cnt], and the rest. *)
Fixpoint scanDigits (s : string) (acc cnt : Z) : Z * Z * string :=
  match s with
  | String c r =>
      match digit_of c with
      | Some v => scanDigits r (10 * acc + v) (cnt + 1)
      | None => (acc, cnt, s)
      end
  | EmptyString => (acc, cnt, s)
  end.

(** [dropPrefix p s] is the rest of [s] after [p] when [s] starts with [p]. *)
Fixpoint dropPrefix (p s : string) : option string :=
  match p, s with
  | EmptyString, _ => Some s
  | String a p', String b s' => if Ascii.eqb a b then dropPrefix p' s' else None
  | String _ _, EmptyString => None
  end.

(** Skips one white space or line terminator character at the head of [s]
    (TAB, LF, VT, FF, CR, SP, and the UTF-8 forms of U+00A0, U+1680,
    U+2000..U+200A, U+2028, U+2029, U+202F, U+205F, U+3000 and U+FEFF). *)
Definition skipOneWhite (s : string) : option string :=
  match s with
  | String c r =>
      let n := Z.of_N (N_of_ascii c) in
      if ((9 <=? n) && (n <=? 13)) || (n =? 32) then Some r
      else
        match r with
        | String c1 r1 =>
            let n1 := Z.of_N (N_of_ascii c1) in
            if (n =? 194) && (n1 =? 160) then Some r1
            else
              match r1 with
              | String c2 r2 =>
                  let n2 := Z.of_N (N_of_ascii c2) in
                  if ((n =? 225) && (n1 =? 154) && (n2 =? 128))
                     || ((n =? 226) && (n1 =? 128)
                         && (((128 <=? n2) && (n2 <=? 138)) || (n2 =? 168)
                             || (n2 =? 169) || (n2 =? 175)))
                     || ((n =? 226) && (n1 =? 129) && (n2 =? 159))
                     || ((n =? 227) && (n1 =? 128) && (n2 =? 128))
                     || ((n =? 239) && (n1 =? 187) && (n2 =? 191))
                  then Some r2 else None
              | EmptyString => None
              end
        | EmptyString => None
        end
  | EmptyString => None
  end.

Fixpoint skipWhiteFuel (fuel : nat) (s : string) : string :=
  match fuel with
  | O => s
  | S f => match skipOneWhite s with
           | Some r => skipWhiteFuel f r
           | None => s
           end
  end.

(** Strips leading white space. *)
Definition skipWhite (s : string) : string := skipWhiteFuel (String.length s) s.

(** An optional exponent part [e±ddd] at the head of [s]: its value and the
    rest; without digits after the [e] there is no exponent part. *)
Definition scanExponent (s : string) : Z * string :=
  match s with
  | String c r =>
      if Ascii.eqb c "e" || Ascii.eqb c "E" then
        let '(neg, r') :=
          match r with
          | String sg r1 =>
              if Ascii.eqb sg "-" then (true, r1)
              else if Ascii.eqb sg "+" then (false, r1)
              else (false, r)
          | EmptyString => (false, r)
          end in
        let '(v, cnt, rest) := scanDigits r' 0 0 in
        if cnt =? 0 then (0, s) else ((if neg then - v else v), rest)
      else (0, s)
  | EmptyString => (0, s)
  end.

(** The longest prefix of [s] that is a [StrUnsignedDecimalLiteral]:
    [Infinity], [ddd.ddd], [ddd.], [.ddd] or [ddd], with an optional exponent;
    the result is its rounded value under the sign [neg], and the rest. *)
Definition scanUnsignedDecimal (neg : bool) (s : string) : option (float * string) :=
  match dropPrefix "Infinity" s with
  | Some rest => Some ((if neg then neg_infinity else infinity), rest)
  | None =>
      let '(ip, ni, r1) := scanDigits s 0 0 in
      let '(m, nf, r2) :=
        match r1 with
        | String c r =>
            if Ascii.eqb c "." then
              let '(m, nf, r') := scanDigits r ip 0 in
              if (ni =? 0) && (nf =? 0) then (ip, 0, r1) else (m, nf, r')
            else (ip, 0, r1)
        | EmptyString => (ip, 0, r1)
        end in
      if (ni =? 0) && (nf =? 0) then None
      else
        let '(e, rest) := scanExponent r2 in
        Some (round_decimal neg m (e - nf), rest)
  end.

(** The longest prefix of [s] that is a [StrDecimalLiteral]. *)
Definition scanDecimal (s : string) : option (float * string) :=
  match s with
  | String c r =>
      if Ascii.eqb c "-" then scanUnsignedDecimal true r
      else if Ascii.eqb c "+" then scanUnsignedDecimal false r
      else scanUnsignedDecimal false s
  | EmptyString => None
  end.

(** The global [parseFloat] on a string. *)
Definition parseFloat (s : string) : float :=
  match scanDecimal (skipWhite s) with
  | Some (v, _) => v
  | None => nan
  end.

(** Digits of a [0x], [0o] or [0b] literal. *)
Definition radixDigit_of (radix : Z) (c : ascii) : option Z :=
  let n := Z.of_N (N_of_ascii c) in
  let v := if (48 <=? n) && (n <=? 57) then n - 48
           else if (97 <=? n) && (n <=? 102) then n - 87
           else if (65 <=? n) && (n <=? 70) then n - 55
           else radix in
  if v <? radix then Some v else None.

Fixpoint scanRadix (radix : Z) (s : string) (acc cnt : Z) : Z * Z * string :=
  match s with
  | String c r =>
      match radixDigit_of radix c with
      | Some v => scanRadix radix r (radix * acc + v) (cnt + 1)
      | None => (acc, cnt, s)
      end
  | EmptyString => (acc, cnt, s)
  end.

Definition scanNonDecimal (s : string) : option (float * string) :=
  match s with
  | String z (String x r) =>
      if Ascii.eqb z "0" then
        let radix := if Ascii.eqb x "x" || Ascii.eqb x "X" then 16
                     else if Ascii.eqb x "o" || Ascii.eqb x "O" then 8
                     else if Ascii.eqb x "b" || Ascii.eqb x "B" then 2
                     else 0 in
        if radix =? 0 then None
        else
          let '(v, cnt, rest) := scanRadix radix r 0 0 in
          if cnt =? 0 then None else Some (round_decimal false v 0, rest)
      else None
  | _ => None
  end.

(** [Number(s)] on a string ([StringToNumber]): the whole string, white space
    at both ends apart, must be a numeric literal; the empty string is [+0]. *)
Definition Number (s : string) : float :=
  let t := skipWhite s in
  match t with
  | EmptyString => zero
  | _ =>
      match scanNonDecimal t with
      | Some (v, rest) =>
          match skipWhite rest with EmptyString => v | _ => nan end
      | None =>
          match scanDecimal t with
          | Some (v, rest) =>
              match skipWhite rest with EmptyString => v | _ => nan end
          | None => nan
          end
      end
  end.

(** *** Printing numbers *)

(** The decimal digits of a natural number. *)
Definition digits (z : Z) : string := NilZero.string_of_uint (N.to_uint (Z.to_N z)).

Fixpoint zeros (n : nat) : string :=
  match n with
  | O => EmptyString
  | S k => String "0" (zeros k)
  end.

(** [n / d < 10^p], for positive [n] and [d] and any integer [p]. *)
Definition below_pow10 (n d p : Z) : bool :=
  if 0 <=? p then n <? 10 ^ p * d else n * 10 ^ (- p) <? d.

Fixpoint firstAbove (fuel : nat) (n d p : Z) : Z :=
  match fuel with
  | O => p
  | S f => if below_pow10 n d p then p else firstAbove f n d (p + 1)
  end.

(** The least [p] with [n / d < 10^p]: searched upwards from an
    underestimate of the decimal logarithm. *)
Definition decimalExponent (n d : Z) : Z :=
  firstAbove 8 n d ((Z.log2 n - Z.log2 d) * 30103 / 100000 - 2).

(** The [k]-digit decimal [c × 10^(p - k)] that is read back as [x], and is
    nearest to [x = n / d] (the even one of two at the same distance), when
    there is one; [p] is [decimalExponent n d]. *)
Definition shortestAt (x : float) (n d p k : Z) : option Z :=
  let num := if 0 <=? k - p then n * 10 ^ (k - p) else n in
  let den := if 0 <=? k - p then d else d * 10 ^ (p - k) in
  let lo := num / den in
  let hi := if num mod den =? 0 then lo else lo + 1 in
  let back c := PrimFloat.eqb (round_decimal false c (p - k)) x in
  match back lo, back hi with
  | true, true =>
      match 2 * num ?= (lo + hi) * den with
      | Lt => Some lo
      | Gt => Some hi
      | Eq => Some (if Z.even lo then lo else hi)
      end
  | true, false => Some lo
  | false, true => Some hi
  | false, false => None
  end.

(** The [k]-digit decimal [c × 10^(p - k)] nearest to [x = n / d] (the even
    one of two at the same distance). *)
Definition nearestAt (n d p k : Z) : Z :=
  let num := if 0 <=? k - p then n * 10 ^ (k - p) else n in
  let den := if 0 <=? k - p then d else d * 10 ^ (p - k) in
  let lo := num / den in
  match 2 * (num mod den) ?= den with
  | Lt => lo
  | Gt => lo + 1
  | Eq => if Z.even lo then lo else lo + 1
  end.

(** The search for the least [k], upwards from [k]; [fuel] is the number of
    lengths tried before the last one, whose nearest decimal is taken. *)
Fixpoint shortestFrom (fuel : nat) (x : float) (n d p k : Z) : Z * Z :=
  match fuel with
  | O => (nearestAt n d p k, k)
  | S f =>
      match shortestAt x n d p k with
      | Some c => (c, k)
      | None => shortestFrom f x n d p (k + 1)
      end
  end.

(** The integers [s], [k] and [n] of [Number::toString]: [k] is the least
    number of digits for which a decimal [s × 10^(n - k)] is read back as [x],
    [10^(k-1) <= s < 10^k], and of the decimals of [k] digits that are read
    back as [x], [s × 10^(n - k)] is the nearest to [x].  The lengths 1 to 16
    are tried in turn; of 17 digits, which are enough for every binary64
    number, the nearest decimal is read back as [x]. *)
Definition shortestDecimal (x : float) (xn xd : Z) : Z * Z * Z :=
  let p := decimalExponent xn xd in
  let '(c, k) := shortestFrom 16 x xn xd p 1 in
  if c =? 10 ^ k then (10 ^ (k - 1), k, p + 1) else (c, k, p).

(** [Number::toString] in radix 10, which [String(x)] and template literals
    apply to a number. *)
Definition toString (x : float) : string :=
  if PrimFloat.is_nan x then "NaN"
  else if PrimFloat.is_zero x then "0"
  else if PrimFloat.is_infinity x then
    (if PrimFloat.get_sign x then "-Infinity" else "Infinity")
  else
    match fraction_of x with
    | None => "NaN"
    | Some (neg, xn, xd) =>
        let '(s, k, n) := shortestDecimal (PrimFloat.abs x) xn xd in
        let ds := digits s in
        let body :=
          if (k <=? n) && (n <=? 21) then ds ++ zeros (Z.to_nat (n - k))
          else if (0 <? n) && (n <=? 21) then
            substring 0 (Z.to_nat n) ds ++ "." ++ substring (Z.to_nat n) (Z.to_nat (k - n)) ds
          else if (-6 <? n) && (n <=? 0) then "0." ++ zeros (Z.to_nat (- n)) ++ ds
          else
            let e := (if 0 <=? n - 1 then "+" else "-") ++ digits (Z.abs (n - 1)) in
            if k =? 1 then ds ++ "e" ++ e
            else substring 0 1 ds ++ "." ++ substring 1 (Z.to_nat (k - 1)) ds ++ "e" ++ e in
        if neg then "-" ++ body else body
    end.

(** [Number.prototype.toFixed] with [f] fraction digits, [0 <= f <= 100]. *)
Definition toFixed (x : float) (f : nat) : string :=
  if negb (PrimFloat.is_finite x) then toString x
  else
    let '(neg, xn, xd) :=
      match fraction_of x with
      | Some t => t
      | None => (false, 0, 1)
      end in
    if 10 ^ 21 * xd <=? xn then (if neg then "-" else "") ++ toString (PrimFloat.abs x)
    else
      let n := (2 * xn * 10 ^ Z.of_nat f + xd) / (2 * xd) in
      let m := digits n in
      let m := if (String.length m <=? f)%nat then zeros (f + 1 - String.length m) ++ m else m in
      let k := String.length m in
      let m := if (f =? 0)%nat then m
               else substring 0 (k - f) m ++ "." ++ substring (k - f) f m in
      if neg then "-" ++ m else m.

(** The decimal form of an array length. *)
Definition lengthToString (n : nat) : string := digits (Z.of_nat n).

(** *** Strings and truthiness *)

(** [!s] on a string: only the empty string is falsy. *)
Definition isEmptyString (s : string) : bool :=
  match s with
  | EmptyString => true
  | String _ _ => false
  end.

(** [s.startsWith(p)]. *)
Definition startsWith (s p : string) : bool := String.prefix p s.

(** *** Insertion-ordered [Set<number>] *)

(** [SameValueZero]: NaN is the same as NaN, and +0 as -0. *)
Definition sameValueZero (x y : float) : bool :=
  PrimFloat.eqb x y || (PrimFloat.is_nan x && PrimFloat.is_nan y).

(** [set.add(v)]: appended when absent, -0 stored as +0. *)
Definition Set_add (s : list float) (v : float) : list float :=
  if existsb (sameValueZero v) s then s
  else s ++ [if PrimFloat.is_zero v then zero else v].

End JS.

(** ** The component model ([src/types.ts]) *)
Module Types.

Inductive ComponentType : Type :=
  | TIndividualSolarPanel
  | TSolarArrayConfiguration
  | TMpptChargeController
  | TBattery
  | TInverter.

(** The string of each member of the union type [ComponentType]. *)
Definition componentTypeName (t : ComponentType) : string :=
  match t with
  | TIndividualSolarPanel => "Individual Solar Panel"
  | TSolarArrayConfiguration => "Solar Array Configuration"
  | TMpptChargeController => "MPPT Charge Controller"
  | TBattery => "Battery"
  | TInverter => "Inverter"
  end.

(** [BaseComponent<TProps>]; the [type] tag is the constructor of
    [AnyComponent] below. *)
Record BaseComponent (TProps : Type) : Type := mkComponent {
  id : float;
  name : string;
  properties : TProps
}.
Arguments mkComponent {TProps}.
Arguments id {TProps}.
Arguments name {TProps}.
Arguments properties {TProps}.

(** Optional fields ([costUsd?] and the like) are [None] when absent; the
    four [costUsd] fields carry the name of their record. *)
Record IndividualSolarPanelProps : Type := {
  voc : string;
  isc : string;
  vmp : string;
  imp : string;
  pmax : string;
  panelCostUsd : option string;
  tempCoeffVocPctPerC : option string;
  tempCoeffPmaxPctPerC : option string
}.

Record SolarArrayConfigurationProps : Type := {
  selectedPanelId : string;
  panelsInSeries : string;
  numberOfStrings : string;
  assignedMpptId : string
}.

Record MpptChargeControllerProps : Type := {
  maxInputVoltage : string;
  maxInputCurrent : string;
  maxOutputCurrent : string;
  nominalBatteryVoltage : string;
  mpptCostUsd : option string
}.

Record BatteryProps : Type := {
  nominalVoltage : string;
  capacityAh : string;
  maxChargeCurrent : string;
  maxDischargeCurrent : string;
  batteryCostUsd : option string
}.

Record InverterProps : Type := {
  inputVoltageMin : string;
  inputVoltageMax : string;
  ratedPower : string;
  surgePower : string;
  efficiencyPct : option string;
  idleDrawW : option string;
  inverterCostUsd : option string
}.

Definition IndividualSolarPanel := BaseComponent IndividualSolarPanelProps.
Definition SolarArrayConfiguration := BaseComponent SolarArrayConfigurationProps.
Definition MpptChargeController := BaseComponent MpptChargeControllerProps.
Definition Battery := BaseComponent BatteryProps.
Definition Inverter := BaseComponent InverterProps.

Inductive AnyComponent : Type :=
  | Panel (c : IndividualSolarPanel)
  | ArrayConfig (c : SolarArrayConfiguration)
  | Mppt (c : MpptChargeController)
  | Batt (c : Battery)
  | Inv (c : Inverter).

Definition componentType (c : AnyComponent) : ComponentType :=
  match c with
  | Panel _ => TIndividualSolarPanel
  | ArrayConfig _ => TSolarArrayConfiguration
  | Mppt _ => TMpptChargeController
  | Batt _ => TBattery
  | Inv _ => TInverter
  end.

(** [c.properties?.costUsd] read through [any]. *)
Definition costUsdOf (c : AnyComponent) : option string :=
  match c with
  | Panel p => panelCostUsd (properties p)
  | ArrayConfig _ => None
  | Mppt m => mpptCostUsd (properties m)
  | Batt b => batteryCostUsd (properties b)
  | Inv i => inverterCostUsd (properties i)
  end.

End Types.
Import Types.

(** ** Completions: a computation returns normally or throws

    The only fault the engine could raise is the [TypeError] of a property
    read on [undefined] (the result of [Array.prototype.find]). *)
Inductive Completion (A : Type) : Type :=
  | Normal (a : A)
  | TypeError.
Arguments Normal {A}.
Arguments TypeError {A}.

Definition bind {A B : Type} (c : Completion A) (k : A -> Completion B) : Completion B :=
  match c with
  | Normal a => k a
  | TypeError => TypeError
  end.

Notation "x <- c ;; k" := (bind c (fun x => k))
  (at level 61, c at next level, right associativity).

(** Reading a member of the value that [find] returned. *)
Definition member {A : Type} (o : option A) : Completion A :=
  match o with
  | Some a => Normal a
  | None => TypeError
  end.

(** [!x] on the value that [find] returned: objects are truthy. *)
Definition isUndefined {A : Type} (o : option A) : bool :=
  match o with
  | Some _ => false
  | None => true
  end.

(** [l.forEach(f)], the callback updating the captured variables [s]. *)
Fixpoint forEach {S A : Type} (f : S -> A -> Completion S) (l : list A) (s : S)
  : Completion S :=
  match l with
  | [] => Normal s
  | a :: l' => s' <- f s a ;; forEach f l' s'
  end.

(** ** The engine ([App.tsx]) *)
Module App.

#[local] Open Scope float_scope.
#[local] Notation "x >? y" := (JS.gtb x y) (at level 70, no associativity) : float_scope.
#[local] Notation "x === y" := (JS.strictEq x y) (at level 70, no associativity) : float_scope.

(** The argument of [getNum]: [string | number | undefined]. *)
Inductive Val : Type :=
  | VString (s : string)
  | VNumber (x : float)
  | VUndefined.
Coercion VString : string >-> Val.

(** [getNum]: a finite number, or NaN for whatever does not parse to one. *)
Definition getNum (val : Val) : float :=
  let num := match val with
             | VNumber x => x
             | VString s => JS.parseFloat s
             | VUndefined => JS.parseFloat ""
             end in
  if JS.isFinite num then num else nan.

Record SystemInputs : Type := {
  peakSunHours : float;
  estimatedDailyUsageWh : float;
  batteryDoD : float;
  inverterEfficiency : float;
  solarPanelEfficiency : float;
  systemWideVoltage : float
}.

Definition defaultSystemInputs : SystemInputs := {|
  peakSunHours := 4;
  estimatedDailyUsageWh := 0;
  batteryDoD := 80;
  inverterEfficiency := 90;
  solarPanelEfficiency := 85;
  systemWideVoltage := 48
|}.

Definition VOC_SAFETY_MARGIN_FACTOR_MIN : float := 1.10.
Definition VOC_SAFETY_MARGIN_FACTOR_IDEAL : float := 1.20.

Inductive MessageLevel : Type :=
  | Error
  | WarnSafety
  | WarnSizing
  | WarnCRate
  | Warn
  | InfoSafety
  | Info.

(** The string of each member of the union type [MessageLevel]. *)
Definition levelName (l : MessageLevel) : string :=
  match l with
  | Error => "error"
  | WarnSafety => "warn-safety"
  | WarnSizing => "warn-sizing"
  | WarnCRate => "warn-c-rate"
  | Warn => "warn"
  | InfoSafety => "info-safety"
  | Info => "info"
  end.

Definition MessageLevel_eqb (a b : MessageLevel) : bool :=
  String.eqb (levelName a) (levelName b).

Record CategorizedMessage : Type := { level : MessageLevel; text : string }.

Definition levelPrefixMap (l : MessageLevel) : string :=
  match l with
  | Error => "Error:"
  | WarnSafety => "Warning (Safety Margin):"
  | WarnSizing => "Warning (Sizing):"
  | WarnCRate => "Warning (C-Rate):"
  | Warn => "Warning:"
  | InfoSafety => "Info (Safety Margin):"
  | Info => "Info:"
  end.

(** *** Derived lists *)

Definition panels (components : list AnyComponent) : list IndividualSolarPanel :=
  flat_map (fun c => match c with Panel p => [p] | _ => [] end) components.
Definition arrays (components : list AnyComponent) : list SolarArrayConfiguration :=
  flat_map (fun c => match c with ArrayConfig a => [a] | _ => [] end) components.
Definition mppts (components : list AnyComponent) : list MpptChargeController :=
  flat_map (fun c => match c with Mppt m => [m] | _ => [] end) components.
Definition batteries (components : list AnyComponent) : list Battery :=
  flat_map (fun c => match c with Batt b => [b] | _ => [] end) components.
Definition inverters (components : list AnyComponent) : list Inverter :=
  flat_map (fun c => match c with Inv i => [i] | _ => [] end) components.

(** [panels.find(p => p.id === Number(arr.properties.selectedPanelId))]. *)
Definition findPanel (panels : list IndividualSolarPanel) (arr : SolarArrayConfiguration)
  : option IndividualSolarPanel :=
  find (fun p => id p === JS.Number (selectedPanelId (properties arr))) panels.

(** *** The statistics aggregator *)

Inductive Ratio : Type :=
  | RatioNumber (x : float)
  | RatioNA.

Record ComputedStats : Type := {
  totalSolarPower : float;
  estimatedDailySolarProductionWh : float;
  totalBatteryCapacity : float;
  totalBatteryEnergyWh : float;
  totalInverterPower : float;
  systemNominalVoltage : string;
  voltageConsistencyIssue : bool;
  estimatedBatteryAutonomyDays : float;
  dailyEnergyBalanceWh : float;
  rechargeTimePshDays : float;
  rechargeTimeEffectiveSunHours : float;
  productionToConsumptionRatioPercentage : Ratio;
  panelInterconnectCables : float;
  arrayToChargerCables : float;
  chargerToBatteryCables : float;
  batteryInterconnectCables : float;
  batteryToInverterCables : float;
  totalEstimatedCables : float
}.

(** The callback of [arrays.forEach] in [stats]; the captured variable is
    [totalSolarPower]. *)
Definition solarPowerStep (panels : list IndividualSolarPanel)
    (totalSolarPower : float) (arr : SolarArrayConfiguration) : Completion float :=
  let panel := findPanel panels arr in
  if isUndefined panel then Normal totalSolarPower
  else
    p <- member panel ;;
    let pmax := getNum (pmax (properties p)) in
    let inSeries := getNum (panelsInSeries (properties arr)) in
    let strings := getNum (numberOfStrings (properties arr)) in
    if negb (JS.isNaN pmax) && negb (JS.isNaN inSeries) && negb (JS.isNaN strings)
    then Normal (totalSolarPower + pmax * inSeries * strings)
    else Normal totalSolarPower.

(** The callback of [batteries.forEach] in [stats]; the captured variables
    are [totalBatteryCapacity] and [batteryVoltages]. *)
Definition batteryStep (st : float * list float) (b : Battery) : float * list float :=
  let '(totalBatteryCapacity, batteryVoltages) := st in
  let cap := getNum (capacityAh (properties b)) in
  let v := getNum (nominalVoltage (properties b)) in
  (if negb (JS.isNaN cap) then totalBatteryCapacity + cap else totalBatteryCapacity,
   if negb (JS.isNaN v) then JS.Set_add batteryVoltages v else batteryVoltages).

Definition inverterStep (totalInverterPower : float) (inv : Inverter) : float :=
  let rated := getNum (ratedPower (properties inv)) in
  if negb (JS.isNaN rated) then totalInverterPower + rated else totalInverterPower.

(** The reducer of [totalCost], a value [stats] computes and does not return. *)
Definition totalCostStep (sum : float) (c : AnyComponent) : float :=
  let costStr := costUsdOf c in
  let val := JS.parseFloat (match costStr with
                            | Some s => if JS.isEmptyString s then "" else s
                            | None => ""
                            end) in
  sum + (if JS.isFinite val then val else 0).

Definition totalCost (components : list AnyComponent) : float :=
  fold_left totalCostStep components 0.

Definition panelInterconnectStep (sum : float) (arr : SolarArrayConfiguration) : float :=
  let inSeries := getNum (panelsInSeries (properties arr)) in
  let strings := getNum (numberOfStrings (properties arr)) in
  if JS.isNaN inSeries || JS.isNaN strings || (inSeries <? 2) || (strings <? 1) then sum
  else sum + (inSeries - 1) * strings.

Definition arrayToChargerStep (sum : float) (arr : SolarArrayConfiguration) : float :=
  let strings := getNum (numberOfStrings (properties arr)) in
  if JS.isNaN strings || (strings <? 1) then sum
  else sum + 2 * strings.

(** The body of the [useMemo] that defines [stats]. *)
Definition stats (components : list AnyComponent) (systemInputs : SystemInputs)
  : Completion ComputedStats :=
  let panels := panels components in
  let arrays := arrays components in
  let mppts := mppts components in
  let batteries := batteries components in
  let inverters := inverters components in
  totalSolarPower <- forEach (solarPowerStep panels) arrays 0 ;;
  let '(totalBatteryCapacity, batteryVoltages) := fold_left batteryStep batteries (0, []) in
  let totalInverterPower := fold_left inverterStep inverters 0 in
  let '(systemNominalVoltage, voltageConsistencyIssue) :=
    if (0 <? List.length batteryVoltages)%nat then
      (match nth_error batteryVoltages 0 with
       | Some v => JS.toString v
       | None => "undefined"
       end,
       (1 <? List.length batteryVoltages)%nat)
    else ("N/A", false) in
  let totalBatteryEnergyWhRaw := totalBatteryCapacity * systemWideVoltage systemInputs in
  let totalBatteryEnergyWh :=
    if JS.isFinite totalBatteryEnergyWhRaw then totalBatteryEnergyWhRaw else 0 in
  let estimatedDailySolarProductionWh :=
    totalSolarPower * peakSunHours systemInputs * (solarPanelEfficiency systemInputs / 100) in
  let usableBatteryEnergyWh := totalBatteryEnergyWh * (batteryDoD systemInputs / 100) in
  let energyNeededAdjustedWh :=
    if estimatedDailyUsageWh systemInputs >? 0
    then estimatedDailyUsageWh systemInputs / (inverterEfficiency systemInputs / 100)
    else 0 in
  let estimatedBatteryAutonomyDays :=
    if (usableBatteryEnergyWh >? 0) && (energyNeededAdjustedWh >? 0)
    then usableBatteryEnergyWh / energyNeededAdjustedWh
    else 0 in
  let dailyEnergyBalanceWh := estimatedDailySolarProductionWh - energyNeededAdjustedWh in
  let rechargeTimeEffectiveSunHours :=
    if (totalSolarPower >? 0) && (usableBatteryEnergyWh >? 0)
    then (totalBatteryEnergyWh * (batteryDoD systemInputs / 100))
         / (totalSolarPower * (solarPanelEfficiency systemInputs / 100))
    else 0 in
  let rechargeTimePshDays :=
    if (totalSolarPower >? 0) && (usableBatteryEnergyWh >? 0)
       && (peakSunHours systemInputs >? 0)
    then rechargeTimeEffectiveSunHours / peakSunHours systemInputs
    else 0 in
  let productionToConsumptionRatioPercentage :=
    if energyNeededAdjustedWh >? 0
    then RatioNumber ((estimatedDailySolarProductionWh / energyNeededAdjustedWh) * 100)
    else if estimatedDailySolarProductionWh >? 0 then RatioNA
    else RatioNumber 0 in
  Normal {|
    totalSolarPower := totalSolarPower;
    estimatedDailySolarProductionWh := estimatedDailySolarProductionWh;
    totalBatteryCapacity := totalBatteryCapacity;
    totalBatteryEnergyWh := totalBatteryEnergyWh;
    totalInverterPower := totalInverterPower;
    systemNominalVoltage := systemNominalVoltage;
    voltageConsistencyIssue := voltageConsistencyIssue;
    estimatedBatteryAutonomyDays := estimatedBatteryAutonomyDays;
    dailyEnergyBalanceWh := dailyEnergyBalanceWh;
    rechargeTimePshDays := rechargeTimePshDays;
    rechargeTimeEffectiveSunHours := rechargeTimeEffectiveSunHours;
    productionToConsumptionRatioPercentage := productionToConsumptionRatioPercentage;
    panelInterconnectCables := fold_left panelInterconnectStep arrays 0;
    arrayToChargerCables := fold_left arrayToChargerStep arrays 0;
    chargerToBatteryCables := JS.ofNat (List.length mppts) * 2;
    batteryInterconnectCables :=
      if (1 <? List.length batteries)%nat then (JS.ofNat (List.length batteries) - 1) * 2 else 0;
    batteryToInverterCables := JS.ofNat (List.length inverters) * 2;
    totalEstimatedCables := 0
  |}.

(** The body of the [useMemo] that defines [statsWithCableTotal]. *)
Definition statsWithCableTotal (stats : ComputedStats) : ComputedStats := {|
  totalSolarPower := totalSolarPower stats;
  estimatedDailySolarProductionWh := estimatedDailySolarProductionWh stats;
  totalBatteryCapacity := totalBatteryCapacity stats;
  totalBatteryEnergyWh := totalBatteryEnergyWh stats;
  totalInverterPower := totalInverterPower stats;
  systemNominalVoltage := systemNominalVoltage stats;
  voltageConsistencyIssue := voltageConsistencyIssue stats;
  estimatedBatteryAutonomyDays := estimatedBatteryAutonomyDays stats;
  dailyEnergyBalanceWh := dailyEnergyBalanceWh stats;
  rechargeTimePshDays := rechargeTimePshDays stats;
  rechargeTimeEffectiveSunHours := rechargeTimeEffectiveSunHours stats;
  productionToConsumptionRatioPercentage := productionToConsumptionRatioPercentage stats;
  panelInterconnectCables := panelInterconnectCables stats;
  arrayToChargerCables := arrayToChargerCables stats;
  chargerToBatteryCables := chargerToBatteryCables stats;
  batteryInterconnectCables := batteryInterconnectCables stats;
  batteryToInverterCables := batteryToInverterCables stats;
  totalEstimatedCables :=
    panelInterconnectCables stats + arrayToChargerCables stats
    + chargerToBatteryCables stats + batteryInterconnectCables stats
    + batteryToInverterCables stats
|}.

(** *** The diagnostics *)

(** The message that [add] builds: the text under the prefix of its level. *)
Definition message (level : MessageLevel) (text : string) : CategorizedMessage :=
  {| level := level; text := levelPrefixMap level ++ " " ++ text |}.

(** [add]: pushes the message onto [msgs]. *)
Definition add (level : MessageLevel) (text : string) (msgs : list CategorizedMessage)
  : list CategorizedMessage :=
  msgs ++ [message level text].

(** The texts of the messages, in the order of the source. *)
Definition nudgeText : string := "Add components to start tracking your solar setup!".

Definition mixedVoltagesText : string :=
  "Mixed battery voltages detected – unify bank voltage.".

Definition unassignedWarnText (n : nat) : string :=
  JS.lengthToString n ++ " solar array(s) not assigned to any MPPT.".

Definition unassignedInfoText (n : nat) : string :=
  JS.lengthToString n
  ++ " solar array(s) present but no MPPT controllers added; their power path is undefined.".

Definition noAssignedText (mppt : MpptChargeController) : string :=
  name mppt ++ " has no assigned solar arrays.".

Definition vocExceedsText (a : SolarArrayConfiguration) (mppt : MpptChargeController)
    (arrayVoc maxInputV : float) : string :=
  name a ++ " Voc (" ++ JS.toFixed arrayVoc 1 ++ "V) exceeds " ++ name mppt
  ++ " max input voltage (" ++ JS.toString maxInputV ++ "V).".

Definition vocHeadroomText (a : SolarArrayConfiguration) (mppt : MpptChargeController)
    (arrayVoc maxInputV : float) : string :=
  name a ++ " Voc headroom below minimum recommended 10% margin relative to "
  ++ name mppt ++ " (" ++ JS.toFixed arrayVoc 1 ++ "V vs " ++ JS.toString maxInputV ++ "V).".

Definition vocMarginText (a : SolarArrayConfiguration)
    (arrayVoc maxInputV : float) : string :=
  name a ++ " Voc margin < ideal 20% but >= minimum 10% (Voc " ++ JS.toFixed arrayVoc 1
  ++ "V, MPPT max " ++ JS.toString maxInputV ++ "V).".

Definition iscExceedsText (mppt : MpptChargeController) (aggregateIsc maxInputI : float)
  : string :=
  name mppt ++ " total array Isc (" ++ JS.toFixed aggregateIsc 2
  ++ "A) exceeds max input current (" ++ JS.toString maxInputI ++ "A).".

Definition iscNearText (mppt : MpptChargeController) (aggregateIsc maxInputI : float)
  : string :=
  name mppt ++ " total array Isc (" ++ JS.toFixed aggregateIsc 2
  ++ "A) >90% of max (" ++ JS.toString maxInputI ++ "A).".

Definition clippingText (mppt : MpptChargeController) (aggregatePmax mpptPowerCap : float)
  : string :=
  name mppt ++ " array power (" ++ JS.toFixed aggregatePmax 0
  ++ "W) >125% of est output capacity (~" ++ JS.toFixed mpptPowerCap 0
  ++ "W). Significant clipping likely.".

Definition overProvisionedText (mppt : MpptChargeController)
    (aggregatePmax mpptPowerCap : float) : string :=
  name mppt ++ " slightly over-provisioned (array " ++ JS.toFixed aggregatePmax 0
  ++ "W vs ~" ++ JS.toFixed mpptPowerCap 0 ++ "W). Minor clipping expected.".

Definition chargeExceedsText (b : Battery) (totalMpptOutputCurrent maxCharge : float)
  : string :=
  name b ++ " potential charge current (" ++ JS.toFixed totalMpptOutputCurrent 1
  ++ "A) exceeds max charge current (" ++ JS.toString maxCharge ++ "A).".

Definition chargeNearText (b : Battery) (totalMpptOutputCurrent maxCharge : float)
  : string :=
  name b ++ " charge current near limit (" ++ JS.toFixed totalMpptOutputCurrent 1
  ++ "A / " ++ JS.toString maxCharge ++ "A).".

Definition dischargeExceedsText (b : Battery) (estDischargeCurrent maxDischarge : float)
  : string :=
  name b ++ " estimated discharge current (" ++ JS.toFixed estDischargeCurrent 1
  ++ "A) exceeds max discharge current (" ++ JS.toString maxDischarge ++ "A).".

Definition dischargeNearText (b : Battery) (estDischargeCurrent maxDischarge : float)
  : string :=
  name b ++ " discharge current near limit (" ++ JS.toFixed estDischargeCurrent 1
  ++ "A / " ++ JS.toString maxDischarge ++ "A).".

Definition belowMinimumText (inv : Inverter) (sysV vMin : float) : string :=
  name inv ++ " system voltage (" ++ JS.toString sysV ++ "V) below inverter minimum ("
  ++ JS.toString vMin ++ "V).".

Definition nearMinimumText (inv : Inverter) (sysV vMin : float) : string :=
  name inv ++ " system voltage (" ++ JS.toString sysV ++ "V) within 5% of minimum ("
  ++ JS.toString vMin ++ "V).".

Definition aboveMaximumText (inv : Inverter) (sysV vMax : float) : string :=
  name inv ++ " system voltage (" ++ JS.toString sysV ++ "V) exceeds inverter maximum ("
  ++ JS.toString vMax ++ "V).".

Definition nearMaximumText (inv : Inverter) (sysV vMax : float) : string :=
  name inv ++ " system voltage (" ++ JS.toString sysV ++ "V) within 5% of maximum ("
  ++ JS.toString vMax ++ "V).".

Definition noPmaxText : string := "Arrays configured but no valid panel pmax values.".
Definition zeroUsageText : string := "Daily usage is 0; production metrics may be misleading.".
Definition autonomyText : string :=
  "Battery autonomy < 0.5 days; consider more storage or reducing load.".
Definition deficitText : string :=
  "Solar production <80% of adjusted consumption; expect deficit.".
Definition surplusText : string :=
  "Solar production >150% of adjusted consumption; consider more storage or curtailment strategy.".
Definition idealWiringText : string :=
  "Calculations assume ideal wiring; account for voltage drop, temperature, and conversion losses.".
Definition codesText : string :=
  "Always size conductors and protection (fuses/breakers) to NEC/IEC standards and manufacturer specs.".
Definition criticalText : string :=
  "Critical errors found! Resolve red items first; then address warnings.".
Definition warningsText : string :=
  "Warnings present. System may operate but with risk/inefficiency. Review above notes.".
Definition compatibleText : string :=
  "System configuration appears compatible based on current checks.".

(** [arrays.filter(a => !a.properties.assignedMpptId)]. *)
Definition unassignedArrays (arrays : list SolarArrayConfiguration)
  : list SolarArrayConfiguration :=
  filter (fun a => JS.isEmptyString (assignedMpptId (properties a))) arrays.

(** The unassigned-array note. *)
Definition unassignedNote (components : list AnyComponent) (msgs : list CategorizedMessage)
  : list CategorizedMessage :=
  let unassignedArrays := unassignedArrays (arrays components) in
  if (0 <? List.length unassignedArrays)%nat then
    if (0 <? List.length (mppts components))%nat
    then add Warn (unassignedWarnText (List.length unassignedArrays)) msgs
    else add Info (unassignedInfoText (List.length unassignedArrays)) msgs
  else msgs.

(** The reducer of [totalMpptOutputCurrent]. *)
Definition outputCurrentStep (sum : float) (m : MpptChargeController) : float :=
  let out := getNum (maxOutputCurrent (properties m)) in
  sum + (if JS.isNaN out then 0 else out).

Definition totalMpptOutputCurrent (mppts : list MpptChargeController) : float :=
  fold_left outputCurrentStep mppts 0.

(** The Voc checks of one assigned array against [maxInputV]. *)
Definition vocCheck (a : SolarArrayConfiguration) (mppt : MpptChargeController)
    (voc inSeries maxInputV : float) (msgs : list CategorizedMessage)
  : list CategorizedMessage :=
  if negb (JS.isNaN voc) && negb (JS.isNaN inSeries) && negb (JS.isNaN maxInputV) then
    let arrayVoc := voc * inSeries in
    if arrayVoc >? maxInputV then add Error (vocExceedsText a mppt arrayVoc maxInputV) msgs
    else if arrayVoc * VOC_SAFETY_MARGIN_FACTOR_MIN >? maxInputV
    then add WarnSafety (vocHeadroomText a mppt arrayVoc maxInputV) msgs
    else if arrayVoc * VOC_SAFETY_MARGIN_FACTOR_IDEAL >? maxInputV
    then add InfoSafety (vocMarginText a arrayVoc maxInputV) msgs
    else msgs
  else msgs.

(** The callback of [assigned.forEach]; the captured variables are [msgs],
    [aggregateIsc] and [aggregatePmax]. *)
Definition assignedStep (panels : list IndividualSolarPanel) (mppt : MpptChargeController)
    (maxInputV : float) (st : list CategorizedMessage * float * float)
    (a : SolarArrayConfiguration) : Completion (list CategorizedMessage * float * float) :=
  let '(msgs, aggregateIsc, aggregatePmax) := st in
  let panel := findPanel panels a in
  if isUndefined panel then Normal st
  else
    p <- member panel ;;
    let voc := getNum (voc (properties p)) in
    let isc := getNum (isc (properties p)) in
    let pmax := getNum (pmax (properties p)) in
    let inSeries := getNum (panelsInSeries (properties a)) in
    let strings := getNum (numberOfStrings (properties a)) in
    let aggregateIsc :=
      if negb (JS.isNaN isc) && negb (JS.isNaN strings)
      then aggregateIsc + isc * strings else aggregateIsc in
    let aggregatePmax :=
      if negb (JS.isNaN pmax) && negb (JS.isNaN inSeries) && negb (JS.isNaN strings)
      then aggregatePmax + pmax * inSeries * strings else aggregatePmax in
    Normal (vocCheck a mppt voc inSeries maxInputV msgs, aggregateIsc, aggregatePmax).

(** [arrays.filter(a => a.properties.assignedMpptId === String(mppt.id))]. *)
Definition assignedTo (arrays : list SolarArrayConfiguration) (mppt : MpptChargeController)
  : list SolarArrayConfiguration :=
  filter (fun a => String.eqb (assignedMpptId (properties a)) (JS.toString (id mppt))) arrays.

(** The aggregate checks of one MPPT, after its arrays. *)
Definition aggregateChecks (mppt : MpptChargeController)
    (aggregateIsc aggregatePmax : float) (msgs : list CategorizedMessage)
  : list CategorizedMessage :=
  let maxInputI := getNum (maxInputCurrent (properties mppt)) in
  let maxOutI := getNum (maxOutputCurrent (properties mppt)) in
  let battV := getNum (nominalBatteryVoltage (properties mppt)) in
  let msgs :=
    if negb (JS.isNaN maxInputI) && (maxInputI >? 0) then
      if aggregateIsc >? maxInputI
      then add Error (iscExceedsText mppt aggregateIsc maxInputI) msgs
      else if aggregateIsc >? maxInputI * 0.9
      then add WarnSizing (iscNearText mppt aggregateIsc maxInputI) msgs
      else msgs
    else msgs in
  if negb (JS.isNaN maxOutI) && negb (JS.isNaN battV) && (maxOutI >? 0) && (battV >? 0) then
    let mpptPowerCap := maxOutI * battV in
    if aggregatePmax >? mpptPowerCap * 1.25
    then add WarnSizing (clippingText mppt aggregatePmax mpptPowerCap) msgs
    else if aggregatePmax >? mpptPowerCap
    then add Info (overProvisionedText mppt aggregatePmax mpptPowerCap) msgs
    else msgs
  else msgs.

(** The callback of [mppts.forEach]. *)
Definition mpptStep (arrays : list SolarArrayConfiguration)
    (panels : list IndividualSolarPanel) (msgs : list CategorizedMessage)
    (mppt : MpptChargeController) : Completion (list CategorizedMessage) :=
  let maxInputV := getNum (maxInputVoltage (properties mppt)) in
  let assigned := assignedTo arrays mppt in
  let msgs :=
    if (List.length assigned =? 0)%nat then add Warn (noAssignedText mppt) msgs else msgs in
  st <- forEach (assignedStep panels mppt maxInputV) assigned (msgs, 0, 0) ;;
  let '(msgs, aggregateIsc, aggregatePmax) := st in
  Normal (aggregateChecks mppt aggregateIsc aggregatePmax msgs).

(** The charge-current check of one battery. *)
Definition chargeCheck (b : Battery) (totalMpptOutputCurrent maxCharge : float)
    (msgs : list CategorizedMessage) : list CategorizedMessage :=
  if negb (JS.isNaN maxCharge) && (maxCharge >? 0) then
    if totalMpptOutputCurrent >? maxCharge
    then add Error (chargeExceedsText b totalMpptOutputCurrent maxCharge) msgs
    else if totalMpptOutputCurrent >? maxCharge * 0.9
    then add WarnCRate (chargeNearText b totalMpptOutputCurrent maxCharge) msgs
    else msgs
  else msgs.

(** The discharge-current check of one battery. *)
Definition dischargeCheck (b : Battery) (totalInverterPower maxDischarge nominalV : float)
    (msgs : list CategorizedMessage) : list CategorizedMessage :=
  if negb (JS.isNaN maxDischarge) && (maxDischarge >? 0)
     && negb (JS.isNaN nominalV) && (nominalV >? 0) then
    let estDischargeCurrent := totalInverterPower / nominalV in
    if estDischargeCurrent >? maxDischarge
    then add Error (dischargeExceedsText b estDischargeCurrent maxDischarge) msgs
    else if estDischargeCurrent >? maxDischarge * 0.9
    then add WarnCRate (dischargeNearText b estDischargeCurrent maxDischarge) msgs
    else msgs
  else msgs.

(** The callback of [batteries.forEach] in [messages]. *)
Definition batteryCheck (stats : ComputedStats) (totalMpptOutputCurrent : float)
    (msgs : list CategorizedMessage) (b : Battery) : list CategorizedMessage :=
  let capacityAh := getNum (capacityAh (properties b)) in
  let maxCharge := getNum (maxChargeCurrent (properties b)) in
  let maxDischarge := getNum (maxDischargeCurrent (properties b)) in
  let nominalV := getNum (nominalVoltage (properties b)) in
  if negb (JS.isNaN capacityAh) && (capacityAh >? 0) then
    dischargeCheck b (totalInverterPower stats) maxDischarge nominalV
      (chargeCheck b totalMpptOutputCurrent maxCharge msgs)
  else msgs.

(** The callback of [inverters.forEach] in [messages]. *)
Definition inverterCheck (systemInputs : SystemInputs)
    (msgs : list CategorizedMessage) (inv : Inverter) : list CategorizedMessage :=
  let vMin := getNum (inputVoltageMin (properties inv)) in
  let vMax := getNum (inputVoltageMax (properties inv)) in
  let sysV := systemWideVoltage systemInputs in
  let msgs :=
    if negb (JS.isNaN vMin) && (sysV <? vMin)
    then add Error (belowMinimumText inv sysV vMin) msgs
    else if negb (JS.isNaN vMin) && (sysV <? vMin * 1.05)
    then add WarnSizing (nearMinimumText inv sysV vMin) msgs
    else msgs in
  if negb (JS.isNaN vMax) && (sysV >? vMax)
  then add Error (aboveMaximumText inv sysV vMax) msgs
  else if negb (JS.isNaN vMax) && (sysV >? vMax * 0.95)
  then add WarnSizing (nearMaximumText inv sysV vMax) msgs
  else msgs.

(** The production, usage and autonomy notes. *)
Definition productionNotes (components : list AnyComponent) (stats : ComputedStats)
    (systemInputs : SystemInputs) (msgs : list CategorizedMessage)
  : list CategorizedMessage :=
  let msgs :=
    if (totalSolarPower stats === 0) && (0 <? List.length (arrays components))%nat
    then add Warn noPmaxText msgs else msgs in
  let msgs :=
    if (estimatedDailyUsageWh systemInputs === 0) && (0 <? List.length components)%nat
    then add Warn zeroUsageText msgs else msgs in
  let msgs :=
    if (estimatedBatteryAutonomyDays stats <? 0.5) && (estimatedBatteryAutonomyDays stats >? 0)
    then add WarnSizing autonomyText msgs else msgs in
  match productionToConsumptionRatioPercentage stats with
  | RatioNumber r =>
      if r <? 80 then add WarnSizing deficitText msgs
      else if r >? 150 then add Info surplusText msgs
      else msgs
  | RatioNA => msgs
  end.

(** The general notes and the final summary. *)
Definition closingNotes (components : list AnyComponent) (msgs : list CategorizedMessage)
  : list CategorizedMessage :=
  let msgs := add Info idealWiringText msgs in
  let msgs := add InfoSafety codesText msgs in
  let hasErrors := existsb (fun m => MessageLevel_eqb (level m) Error) msgs in
  let hasWarnings := existsb (fun m => JS.startsWith (levelName (level m)) "warn") msgs in
  if (0 <? List.length components)%nat then
    if hasErrors then add Error criticalText msgs
    else if hasWarnings then add Warn warningsText msgs
    else add Info compatibleText msgs
  else msgs.

(** The body of the [useMemo] that defines [messages]. *)
Definition messages (components : list AnyComponent) (stats : ComputedStats)
    (systemInputs : SystemInputs) : Completion (list CategorizedMessage) :=
  let msgs := [] in
  let msgs := if (List.length components =? 0)%nat then add Info nudgeText msgs else msgs in
  let msgs :=
    if voltageConsistencyIssue stats then add Error mixedVoltagesText msgs else msgs in
  let msgs := unassignedNote components msgs in
  let totalMpptOutputCurrent := totalMpptOutputCurrent (mppts components) in
  msgs <- forEach (mpptStep (arrays components) (panels components)) (mppts components) msgs ;;
  let msgs := fold_left (batteryCheck stats totalMpptOutputCurrent) (batteries components) msgs in
  let msgs := fold_left (inverterCheck systemInputs) (inverters components) msgs in
  let msgs := productionNotes components stats systemInputs msgs in
  Normal (closingNotes components msgs).

(** One evaluation of the engine: [stats], then [messages] on its result. *)
Definition evaluate (components : list AnyComponent) (systemInputs : SystemInputs)
  : Completion (ComputedStats * list CategorizedMessage) :=
  st <- stats components systemInputs ;;
  msgs <- messages components st systemInputs ;;
  Normal (st, msgs).

End App.

(** ** Rendering: the three [useMemo] cells of [App]

    Each render of [App] filters [components] into five new arrays, and
    reads [stats], [statsWithCableTotal] and [messages] through [useMemo]:
    a cell keeps the last value with the dependencies it was computed from
    and recomputes when a dependency is not [Object.is] the one kept.
    Objects are compared by identity, so an object carries the address it
    was allocated at; [next] is the next free address. *)
Module Render.
Import App.

Record Obj (A : Type) : Type := { addr : nat; value : A }.
Arguments addr {A}.
Arguments value {A}.

(** An entry of a dependency array. *)
Inductive Dep : Type :=
  | DObj (a : nat)
  | DNum (x : float)
  | DStr (s : string).

(** [Object.is]: identity of objects, [SameValue] of numbers and strings. *)
Definition objectIs (a b : Dep) : bool :=
  match a, b with
  | DObj x, DObj y => Nat.eqb x y
  | DNum x, DNum y => PrimFloat.Leibniz.eqb x y
  | DStr x, DStr y => String.eqb x y
  | _, _ => false
  end.

Fixpoint areHookInputsEqual (next prev : list Dep) : bool :=
  match next, prev with
  | [], [] => true
  | a :: next', b :: prev' => objectIs a b && areHookInputsEqual next' prev'
  | _, _ => false
  end.

Definition Cell (V : Type) : Type := option (list Dep * Obj V).

(** [useMemo(compute, deps)] on a cell: the value, the cell and the next
    free address afterwards. *)
Definition useMemo {V : Type} (cell : Cell V) (compute : Completion V)
    (deps : list Dep) (next : nat) : Completion (Obj V * Cell V * nat) :=
  let recompute :=
    v <- compute ;;
    let o := {| addr := next; value := v |} in
    Normal (o, Some (deps, o), S next) in
  match cell with
  | Some (prev, o) =>
      if areHookInputsEqual deps prev then Normal (o, cell, next) else recompute
  | None => recompute
  end.

Record Hooks : Type := {
  next : nat;
  statsCell : Cell ComputedStats;
  totalCell : Cell ComputedStats;
  messagesCell : Cell (list CategorizedMessage)
}.

(** The hooks of a component that has not rendered yet. *)
Definition mount : Hooks :=
  {| next := 0; statsCell := None; totalCell := None; messagesCell := None |}.

Definition ratioDep (r : Ratio) : Dep :=
  match r with
  | RatioNumber x => DNum x
  | RatioNA => DStr "N/A"
  end.

(** What a render shows: [statsWithCableTotal] and [messages]. *)
Definition Output : Type := ComputedStats * list CategorizedMessage.

(** One render of [App] on the state [components], [systemInputs]. *)
Definition render (h : Hooks) (components : Obj (list AnyComponent))
    (systemInputs : Obj SystemInputs) : Completion (Hooks * Output) :=
  let panels := next h in
  let arrays := S panels in
  let mppts := S arrays in
  let batteries := S mppts in
  let inverters := S batteries in
  let free := S inverters in
  r1 <- useMemo (statsCell h) (stats (value components) (value systemInputs))
          [DObj arrays; DObj panels; DObj batteries; DObj inverters;
           DObj (addr systemInputs)] free ;;
  let '(stats, statsCell, free) := r1 in
  r2 <- useMemo (totalCell h) (Normal (statsWithCableTotal (value stats)))
          [DObj (addr stats)] free ;;
  let '(statsWithCableTotal, totalCell, free) := r2 in
  r3 <- useMemo (messagesCell h)
          (messages (value components) (value stats) (value systemInputs))
          [DObj (addr components); DObj (addr stats); DObj arrays; DObj mppts;
           DObj panels; DNum (estimatedDailyUsageWh (value systemInputs));
           ratioDep (productionToConsumptionRatioPercentage (value stats));
           DNum (systemWideVoltage (value systemInputs))] free ;;
  let '(messages, messagesCell, free) := r3 in
  Normal ({| next := free; statsCell := statsCell; totalCell := totalCell;
             messagesCell := messagesCell |},
          (value statsWithCableTotal, value messages)).

(** Addresses kept in the cells were allocated before [next]. *)
Definition keptBelow {V : Type} (pos : nat) (n : nat) (cell : Cell V) : Prop :=
  match cell with
  | Some (deps, _) =>
      match nth_error deps pos with
      | Some (DObj a) => a < n
      | _ => True
      end
  | None => True
  end%nat.

Definition wellFormed (h : Hooks) : Prop :=
  keptBelow 0 (next h) (statsCell h)
  /\ keptBelow 0 (next h) (totalCell h)
  /\ keptBelow 1 (next h) (messagesCell h).

End Render.

(** ** The add sites of [messages]

    [Emitted components stats systemInputs r m]: some call of [add] in
    rule [r] of [messages] pushes [m], under the conditions that guard the
    call. *)
Module Sites.
Import App.
#[local] Open Scope float_scope.

(** The string Voc of array [a] built from panel [p]. *)
Definition arrayVocOf (p : IndividualSolarPanel) (a : SolarArrayConfiguration) : float :=
  getNum (voc (properties p)) * getNum (panelsInSeries (properties a)).

(** Array [a] is assigned to [mppt] and resolved to panel [p], and the three
    numbers of the Voc check parse. *)
Definition VocChecked (cs : list AnyComponent) (mppt : MpptChargeController)
    (a : SolarArrayConfiguration) (p : IndividualSolarPanel) : Prop :=
  In mppt (mppts cs) /\ In a (assignedTo (arrays cs) mppt)
  /\ findPanel (panels cs) a = Some p
  /\ JS.isNaN (getNum (voc (properties p))) = false
  /\ JS.isNaN (getNum (panelsInSeries (properties a))) = false
  /\ JS.isNaN (getNum (maxInputVoltage (properties mppt))) = false.

(** Battery [b] passes the gates of its charge-current check. *)
Definition ChargeChecked (cs : list AnyComponent) (b : Battery) : Prop :=
  In b (batteries cs)
  /\ JS.gtb (getNum (capacityAh (properties b))) 0 = true
  /\ JS.gtb (getNum (maxChargeCurrent (properties b))) 0 = true.

(** The rules of the diagnostics, in the order they run. *)
Inductive Rule : Type :=
  | REmpty
  | RMixed
  | RUnassigned
  | RMppt
  | RBattery
  | RInverter
  | RProduction
  | RNotes
  | RSummary.

Inductive Emitted (cs : list AnyComponent) (st : ComputedStats) (si : SystemInputs)
  : Rule -> CategorizedMessage -> Prop :=
  | Em_nudge :
      cs = [] -> Emitted cs st si REmpty (message Info nudgeText)
  | Em_mixed :
      voltageConsistencyIssue st = true ->
      Emitted cs st si RMixed (message Error mixedVoltagesText)
  | Em_unassignedWarn :
      unassignedArrays (arrays cs) <> [] -> mppts cs <> [] ->
      Emitted cs st si RUnassigned
        (message Warn (unassignedWarnText (List.length (unassignedArrays (arrays cs)))))
  | Em_unassignedInfo :
      unassignedArrays (arrays cs) <> [] -> mppts cs = [] ->
      Emitted cs st si RUnassigned
        (message Info (unassignedInfoText (List.length (unassignedArrays (arrays cs)))))
  | Em_noAssigned mppt :
      In mppt (mppts cs) -> assignedTo (arrays cs) mppt = [] ->
      Emitted cs st si RMppt (message Warn (noAssignedText mppt))
  | Em_vocExceeds mppt a p :
      VocChecked cs mppt a p ->
      JS.gtb (arrayVocOf p a) (getNum (maxInputVoltage (properties mppt))) = true ->
      Emitted cs st si RMppt
        (message Error (vocExceedsText a mppt (arrayVocOf p a)
                          (getNum (maxInputVoltage (properties mppt)))))
  | Em_vocHeadroom mppt a p :
      VocChecked cs mppt a p ->
      JS.gtb (arrayVocOf p a) (getNum (maxInputVoltage (properties mppt))) = false ->
      JS.gtb (arrayVocOf p a * VOC_SAFETY_MARGIN_FACTOR_MIN)
             (getNum (maxInputVoltage (properties mppt))) = true ->
      Emitted cs st si RMppt
        (message WarnSafety (vocHeadroomText a mppt (arrayVocOf p a)
                               (getNum (maxInputVoltage (properties mppt)))))
  | Em_vocMargin mppt a p :
      VocChecked cs mppt a p ->
      JS.gtb (arrayVocOf p a) (getNum (maxInputVoltage (properties mppt))) = false ->
      JS.gtb (arrayVocOf p a * VOC_SAFETY_MARGIN_FACTOR_MIN)
             (getNum (maxInputVoltage (properties mppt))) = false ->
      JS.gtb (arrayVocOf p a * VOC_SAFETY_MARGIN_FACTOR_IDEAL)
             (getNum (maxInputVoltage (properties mppt))) = true ->
      Emitted cs st si RMppt
        (message InfoSafety (vocMarginText a (arrayVocOf p a)
                               (getNum (maxInputVoltage (properties mppt)))))
  | Em_iscExceeds mppt aggregateIsc :
      In mppt (mppts cs) ->
      JS.gtb aggregateIsc (getNum (maxInputCurrent (properties mppt))) = true ->
      Emitted cs st si RMppt
        (message Error (iscExceedsText mppt aggregateIsc
                          (getNum (maxInputCurrent (properties mppt)))))
  | Em_iscNear mppt aggregateIsc :
      In mppt (mppts cs) ->
      JS.gtb aggregateIsc (getNum (maxInputCurrent (properties mppt))) = false ->
      JS.gtb aggregateIsc (getNum (maxInputCurrent (properties mppt)) * 0.9) = true ->
      Emitted cs st si RMppt
        (message WarnSizing (iscNearText mppt aggregateIsc
                               (getNum (maxInputCurrent (properties mppt)))))
  | Em_clipping mppt aggregatePmax :
      In mppt (mppts cs) ->
      Emitted cs st si RMppt
        (message WarnSizing
           (clippingText mppt aggregatePmax
              (getNum (maxOutputCurrent (properties mppt))
               * getNum (nominalBatteryVoltage (properties mppt)))))
  | Em_overProvisioned mppt aggregatePmax :
      In mppt (mppts cs) ->
      Emitted cs st si RMppt
        (message Info
           (overProvisionedText mppt aggregatePmax
              (getNum (maxOutputCurrent (properties mppt))
               * getNum (nominalBatteryVoltage (properties mppt)))))
  | Em_chargeExceeds b :
      ChargeChecked cs b ->
      JS.gtb (totalMpptOutputCurrent (mppts cs))
             (getNum (maxChargeCurrent (properties b))) = true ->
      Emitted cs st si RBattery
        (message Error (chargeExceedsText b (totalMpptOutputCurrent (mppts cs))
                          (getNum (maxChargeCurrent (properties b)))))
  | Em_chargeNear b :
      ChargeChecked cs b ->
      JS.gtb (totalMpptOutputCurrent (mppts cs))
             (getNum (maxChargeCurrent (properties b))) = false ->
      JS.gtb (totalMpptOutputCurrent (mppts cs))
             (getNum (maxChargeCurrent (properties b)) * 0.9) = true ->
      Emitted cs st si RBattery
        (message WarnCRate (chargeNearText b (totalMpptOutputCurrent (mppts cs))
                              (getNum (maxChargeCurrent (properties b)))))
  | Em_dischargeExceeds b :
      In b (batteries cs) ->
      Emitted cs st si RBattery
        (message Error
           (dischargeExceedsText b
              (totalInverterPower st / getNum (nominalVoltage (properties b)))
              (getNum (maxDischargeCurrent (properties b)))))
  | Em_dischargeNear b :
      In b (batteries cs) ->
      Emitted cs st si RBattery
        (message WarnCRate
           (dischargeNearText b
              (totalInverterPower st / getNum (nominalVoltage (properties b)))
              (getNum (maxDischargeCurrent (properties b)))))
  | Em_belowMinimum inv :
      In inv (inverters cs) ->
      Emitted cs st si RInverter
        (message Error (belowMinimumText inv (systemWideVoltage si)
                          (getNum (inputVoltageMin (properties inv)))))
  | Em_nearMinimum inv :
      In inv (inverters cs) ->
      Emitted cs st si RInverter
        (message WarnSizing (nearMinimumText inv (systemWideVoltage si)
                               (getNum (inputVoltageMin (properties inv)))))
  | Em_aboveMaximum inv :
      In inv (inverters cs) ->
      Emitted cs st si RInverter
        (message Error (aboveMaximumText inv (systemWideVoltage si)
                          (getNum (inputVoltageMax (properties inv)))))
  | Em_nearMaximum inv :
      In inv (inverters cs) ->
      Emitted cs st si RInverter
        (message WarnSizing (nearMaximumText inv (systemWideVoltage si)
                               (getNum (inputVoltageMax (properties inv)))))
  | Em_noPmax :
      arrays cs <> [] -> Emitted cs st si RProduction (message Warn noPmaxText)
  | Em_zeroUsage :
      cs <> [] -> Emitted cs st si RProduction (message Warn zeroUsageText)
  | Em_autonomy :
      Emitted cs st si RProduction (message WarnSizing autonomyText)
  | Em_deficit r :
      productionToConsumptionRatioPercentage st = RatioNumber r ->
      PrimFloat.ltb r 80 = true ->
      Emitted cs st si RProduction (message WarnSizing deficitText)
  | Em_surplus r :
      productionToConsumptionRatioPercentage st = RatioNumber r ->
      JS.gtb r 150 = true ->
      Emitted cs st si RProduction (message Info surplusText)
  | Em_idealWiring :
      Emitted cs st si RNotes (message Info idealWiringText)
  | Em_codes :
      Emitted cs st si RNotes (message InfoSafety codesText)
  | Em_critical :
      cs <> [] -> Emitted cs st si RSummary (message Error criticalText)
  | Em_warnings :
      cs <> [] -> Emitted cs st si RSummary (message Warn warningsText)
  | Em_compatible :
      cs <> [] -> Emitted cs st si RSummary (message Info compatibleText).

(** Some rule pushes [m]. *)
Definition EmittedBy (cs : list AnyComponent) (st : ComputedStats) (si : SystemInputs)
    (m : CategorizedMessage) : Prop :=
  exists r, Emitted cs st si r m.

(** [msgs'] is [msgs] followed by messages that all satisfy [P]. *)
Definition appends (P : CategorizedMessage -> Prop) (msgs msgs' : list CategorizedMessage)
  : Prop :=
  exists tail, msgs' = (msgs ++ tail)%list /\ Forall P tail.

(** The messages after the first two rules come from the later rules. *)
Definition Later (cs : list AnyComponent) (st : ComputedStats) (si : SystemInputs)
    (m : CategorizedMessage) : Prop :=
  exists r, r <> REmpty /\ r <> RMixed /\ Emitted cs st si r m.

(** The arrays built from panel [p] of [P1 ++ p :: P2] have counts that are
    not negative. *)
Definition counts_not_negative (P1 P2 : list IndividualSolarPanel)
    (p : IndividualSolarPanel) (a : SolarArrayConfiguration) : Prop :=
  findPanel (P1 ++ p :: P2)%list a = Some p ->
  PrimFloat.ltb (getNum (panelsInSeries (properties a))) 0 = false
  /\ PrimFloat.ltb (getNum (numberOfStrings (properties a))) 0 = false.

(** The last two characters of a string. *)
Fixpoint lastTwo (s : string) : string :=
  match s with
  | EmptyString => EmptyString
  | String c r =>
      match r with
      | EmptyString => s
      | String _ EmptyString => s
      | String _ (String _ _) => lastTwo r
      end
  end.

End Sites.

(** ** Binary64 values as scaled integers

    The definitions behind the order properties of the binary64 operations:
    the value of a number in units of a power of two, and rounding to
    nearest, ties to even, on such values. *)
Module FloatSpec.

(** Round to nearest, ties to even, of [M / 2^k] for a natural [M]. *)
Definition rne_div (M k : Z) : Z :=
  let q := M / 2 ^ k in
  let r := M mod 2 ^ k in
  if r =? 0 then q
  else match 2 * r ?= 2 ^ k with
       | Lt => q
       | Eq => if Z.even q then q else q + 1
       | Gt => q + 1
       end.

(** The multiple of [2^k] nearest to [X > 0], where [k] leaves [prec] bits
    to [X] and is at least [j] (the scaled least exponent). *)
Definition rnd (j X : Z) : Z :=
  let k := Z.max (Z.log2 X + 1 - prec) j in
  rne_div X k * 2 ^ k.

(** Rounding of a signed exact value [T], saturated at [B]. *)
Definition round_signed (j B T : Z) : Z :=
  match T with
  | Z0 => 0
  | Zpos _ => Z.min (rnd j T) B
  | Zneg _ => - Z.min (rnd j (- T)) B
  end.

(** The value of a number in units of [2^L]; infinities count as
    [2^(emax - L)] with their sign, which is above every finite value. *)
Definition SFvalue (L : Z) (x : spec_float) : Z :=
  match x with
  | S754_zero _ => 0
  | S754_nan => 0
  | S754_infinity s => if s then - 2 ^ (emax - L) else 2 ^ (emax - L)
  | S754_finite s m e => if s then - (Zpos m * 2 ^ (e - L)) else Zpos m * 2 ^ (e - L)
  end.

(** The location of [M / 2^k] between [M / 2^k] and its successor. *)
Definition location_of (M k : Z) : location :=
  if M mod 2 ^ k =? 0 then loc_Exact else loc_Inexact (2 * (M mod 2 ^ k) ?= 2 ^ k).

(** The value given to [+infinity] in units of [2^-1074]. *)
Definition B1 : Z := 2 ^ (emax - -1074).

(** The same in units of [2^-2148], the unit of exact products. *)
Definition B2 : Z := 2 ^ (emax - -2148).

(** [x] is a zero or a finite number. *)
Definition finite_or_zero (x : spec_float) : Prop :=
  match x with
  | S754_zero _ | S754_finite _ _ _ => True
  | _ => False
  end.

(** The value of a primitive float in units of [2^-1074]. *)
Definition Fval (x : float) : Z := SFvalue (-1074) (Prim2SF x).

(** [x] is below [y], or one of them is NaN. *)
Definition le_or_nan (x y : float) : Prop :=
  PrimFloat.is_nan x = true \/ PrimFloat.is_nan y = true \/ PrimFloat.leb x y = true.

(** The sign bit of [x] is [s], when [x] has one. *)
Definition sign_is (s : bool) (x : spec_float) : Prop :=
  match x with
  | S754_zero s' | S754_infinity s' | S754_finite s' _ _ => s' = s
  | S754_nan => True
  end.

End FloatSpec.

(** ** Concrete component sets *)
Module Examples.
Import App Render.

(** Components as [addComponents] creates them, with the fields that the
    engine reads filled in. *)
Definition mkPanel (id : float) (name voc isc pmax : string) : AnyComponent :=
  Panel (mkComponent id name
           {| voc := voc; isc := isc; vmp := ""; imp := ""; pmax := pmax;
              panelCostUsd := Some ""; tempCoeffVocPctPerC := Some "";
              tempCoeffPmaxPctPerC := Some "" |}).

Definition mkArray (id : float) (name selectedPanelId panelsInSeries numberOfStrings
                      assignedMpptId : string) : AnyComponent :=
  ArrayConfig (mkComponent id name
                 {| selectedPanelId := selectedPanelId; panelsInSeries := panelsInSeries;
                    numberOfStrings := numberOfStrings; assignedMpptId := assignedMpptId |}).

Definition mkMppt (id : float) (name maxInputVoltage maxInputCurrent maxOutputCurrent
                     nominalBatteryVoltage : string) : AnyComponent :=
  Mppt (mkComponent id name
          {| maxInputVoltage := maxInputVoltage; maxInputCurrent := maxInputCurrent;
             maxOutputCurrent := maxOutputCurrent;
             nominalBatteryVoltage := nominalBatteryVoltage; mpptCostUsd := Some "" |}).

Definition mkBattery (id : float) (name nominalVoltage capacityAh maxChargeCurrent
                        maxDischargeCurrent : string) : AnyComponent :=
  Batt (mkComponent id name
          {| nominalVoltage := nominalVoltage; capacityAh := capacityAh;
             maxChargeCurrent := maxChargeCurrent;
             maxDischargeCurrent := maxDischargeCurrent; batteryCostUsd := Some "" |}).

(** A battery without a capacity, and a controller whose output current
    is twice the battery's charge limit. *)
Definition c3_components : list AnyComponent :=
  [mkMppt 1 "MPPT 1" "" "" "20" ""; mkBattery 2 "Battery 1" "12" "" "10" ""].

Definition c3_battery : Battery :=
  mkComponent 2 "Battery 1"
    {| nominalVoltage := "12"; capacityAh := ""; maxChargeCurrent := "10";
       maxDischargeCurrent := ""; batteryCostUsd := Some "" |}.

(** The same with a capacity of 100 Ah. *)
Definition c3_components_ok : list AnyComponent :=
  [mkMppt 1 "MPPT 1" "" "" "20" ""; mkBattery 2 "Battery 1" "12" "100" "10" ""].

Definition c3_battery_ok : Battery :=
  mkComponent 2 "Battery 1"
    {| nominalVoltage := "12"; capacityAh := "100"; maxChargeCurrent := "10";
       maxDischargeCurrent := ""; batteryCostUsd := Some "" |}.

(** A panel of 100 W in an array of 3 panels in series and -2 strings. *)
Definition c10_negative : list AnyComponent :=
  [mkPanel 1 "Panel 1" "" "" "100"; mkArray 2 "Array 1" "1" "3" "-2" ""].

(** A panel of 100.5 W in an array of 2.5 panels in series and 1.25 strings. *)
Definition c10_fractional : list AnyComponent :=
  [mkPanel 1 "Panel 1" "" "" "100.5"; mkArray 2 "Array 1" "1" "2.5" "1.25" ""].















(** A panel of 100 W, then of 200 W, in an array of -1 panels in series. *)
Definition c4_panel (pmax : string) : IndividualSolarPanel :=
  mkComponent 1 "Panel 1"
    {| voc := ""; isc := ""; vmp := ""; imp := ""; pmax := pmax;
       panelCostUsd := Some ""; tempCoeffVocPctPerC := Some "";
       tempCoeffPmaxPctPerC := Some "" |}.

Definition c4_components (pmax series : string) : list AnyComponent :=
  [Panel (c4_panel pmax); mkArray 2 "Array 1" "1" series "1" ""].

(** Two batteries of 12 V and 24 V. *)
Definition c5_battery (id : float) (name voltage : string) : Battery :=
  mkComponent id name
    {| nominalVoltage := voltage; capacityAh := "100"; maxChargeCurrent := "";
       maxDischargeCurrent := ""; batteryCostUsd := Some "" |}.

Definition c5_components : list AnyComponent :=
  [Batt (c5_battery 1 "Battery 1" "12"); Batt (c5_battery 2 "Battery 2" "24")].

(** An array whose [selectedPanelId] is the id of no panel. *)
Definition c7_array : SolarArrayConfiguration :=
  mkComponent 2 "Array 1"
    {| selectedPanelId := "999"; panelsInSeries := "2"; numberOfStrings := "2";
       assignedMpptId := "" |}.

(** The hooks after a first render, of other components. *)
Definition c8_hooks : Hooks :=
  match render mount {| addr := 100; value := c5_components |}
          {| addr := 101; value := defaultSystemInputs |} with
  | Normal (h, _) => h
  | TypeError => mount
  end.

End Examples.

(** ** The calculation helpers ([src/calculations.ts]) *)
Module Calculations.

#[local] Open Scope float_scope.

(** An optional field is [None] when it is absent or [undefined]. *)
Record TemperatureInputs : Type := {
  coefficientVocPctPerC : option float;
  coefficientPmaxPctPerC : option float;
  stcCellTempC : option float;
  actualCellTempC : option float
}.

(** A destructuring default [{ field = d }]. *)
Definition orDefault (field : option float) (d : float) : float :=
  match field with
  | Some x => x
  | None => d
  end.

Definition adjustForTemperature (value coeffPctPerC deltaC : float) : float :=
  if negb (JS.isFinite value) || negb (JS.isFinite coeffPctPerC) || negb (JS.isFinite deltaC)
  then value
  else value * (1 + (coeffPctPerC / 100) * deltaC).

Definition effectiveVoc (vocStc : float) (inputs : TemperatureInputs) : float :=
  let coefficientVocPctPerC := orDefault (coefficientVocPctPerC inputs) (-0.28) in
  let stcCellTempC := orDefault (stcCellTempC inputs) 25 in
  let actualCellTempC := orDefault (actualCellTempC inputs) 45 in
  adjustForTemperature vocStc coefficientVocPctPerC (actualCellTempC - stcCellTempC).

Definition effectivePmax (pmaxStc : float) (inputs : TemperatureInputs) : float :=
  let coefficientPmaxPctPerC := orDefault (coefficientPmaxPctPerC inputs) (-0.35) in
  let stcCellTempC := orDefault (stcCellTempC inputs) 25 in
  let actualCellTempC := orDefault (actualCellTempC inputs) 45 in
  adjustForTemperature pmaxStc coefficientPmaxPctPerC (actualCellTempC - stcCellTempC).

(** The inputs [{}]: every field absent. *)
Definition noInputs : TemperatureInputs :=
  {| coefficientVocPctPerC := None; coefficientPmaxPctPerC := None;
     stcCellTempC := None; actualCellTempC := None |}.

Record VoltageDropParams : Type := {
  currentA : float;
  oneWayLengthM : float;
  conductorResistivityOhmMm2PerM : float;
  crossSectionMm2 : float;
  systemVoltage : float
}.

Record VoltageDrop : Type := { dropV : float; pct : float }.

Definition voltageDrop (params : VoltageDropParams) : VoltageDrop :=
  if existsb (fun v => negb (JS.isFinite v) || (v <=? 0))
       [currentA params; oneWayLengthM params; conductorResistivityOhmMm2PerM params;
        crossSectionMm2 params; systemVoltage params]
  then {| dropV := nan; pct := nan |}
  else
    let loopLength := oneWayLengthM params * 2 in
    let resistance :=
      conductorResistivityOhmMm2PerM params * loopLength / crossSectionMm2 params in
    let dropV := currentA params * resistance in
    let pct := (dropV / systemVoltage params) * 100 in
    {| dropV := dropV; pct := pct |}.





(** The counter of a loop after [k] increments from 0. *)
Definition counter (k : nat) : float := Nat.iter k (fun y => y + 1) 0.

Record PaybackParams : Type := {
  systemCost : float;
  annualEnergyKWh : float;
  gridRatePerKWh : float;
  annualEscalationPct : option float
}.

(** The [while] loop of [simplePayback]: [remaining] and [year] at its
    end; [None] when [fuel] iterations do not reach it. *)
Fixpoint paybackLoop (fuel : nat) (annualEnergyKWh annualEscalationPct : float)
    (remaining year rate : float) : option (float * float) :=
  match fuel with
  | O => None
  | S fuel' =>
      if JS.gtb remaining 0 && (year <? 50) then
        let savings := annualEnergyKWh * rate in
        let remaining := remaining - savings in
        let year := year + 1 in
        let rate := rate * (1 + annualEscalationPct / 100) in
        paybackLoop fuel' annualEnergyKWh annualEscalationPct remaining year rate
      else Some (remaining, year)
  end.

Definition simplePayback (fuel : nat) (p : PaybackParams) : option float :=
  let annualEscalationPct := orDefault (annualEscalationPct p) 0 in
  match paybackLoop fuel (annualEnergyKWh p) annualEscalationPct
          (systemCost p) 0 (gridRatePerKWh p) with
  | Some (remaining, year) => Some (if remaining <=? 0 then year else nan)
  | None => None
  end.

Definition lcoe (systemCost totalLifetimeKWh : float) : float :=
  if negb (JS.isFinite systemCost) || negb (JS.isFinite totalLifetimeKWh)
     || (totalLifetimeKWh <=? 0)
  then nan
  else systemCost / totalLifetimeKWh.

End Calculations.

(** ** The state updates of [App] ([App.tsx])

    The callbacks that edit the [components] state, as functions from the
    previous state to the next one. *)
Module Handlers.
Import App.

#[local] Open Scope float_scope.

(** [c.id] and [c.name] on any component. *)
Definition idOf (c : AnyComponent) : float :=
  match c with
  | Panel p => id p
  | ArrayConfig a => id a
  | Mppt m => id m
  | Batt b => id b
  | Inv i => id i
  end.

Definition nameOf (c : AnyComponent) : string :=
  match c with
  | Panel p => name p
  | ArrayConfig a => name a
  | Mppt m => name m
  | Batt b => name b
  | Inv i => name i
  end.

(** [{ ...c, properties: { ...c.properties, assignedMpptId } }]. *)
Definition withAssignedMpptId (a : SolarArrayConfiguration) (assignedMpptId : string)
  : SolarArrayConfiguration :=
  mkComponent (id a) (name a)
    {| selectedPanelId := selectedPanelId (properties a);
       panelsInSeries := panelsInSeries (properties a);
       numberOfStrings := numberOfStrings (properties a);
       assignedMpptId := assignedMpptId |}.

(** [{ ...c, name }]. *)
Definition withName (c : AnyComponent) (name : string) : AnyComponent :=
  match c with
  | Panel p => Panel (mkComponent (id p) name (properties p))
  | ArrayConfig a => ArrayConfig (mkComponent (id a) name (properties a))
  | Mppt m => Mppt (mkComponent (id m) name (properties m))
  | Batt b => Batt (mkComponent (id b) name (properties b))
  | Inv i => Inv (mkComponent (id i) name (properties i))
  end.

(** [{ ...c, id, name }]. *)
Definition withIdName (c : AnyComponent) (id : float) (name : string) : AnyComponent :=
  match c with
  | Panel p => Panel (mkComponent id name (properties p))
  | ArrayConfig a => ArrayConfig (mkComponent id name (properties a))
  | Mppt m => Mppt (mkComponent id name (properties m))
  | Batt b => Batt (mkComponent id name (properties b))
  | Inv i => Inv (mkComponent id name (properties i))
  end.

(** The updater of [updateComponentName]. *)
Definition updateComponentName (id : float) (name : string) (prev : list AnyComponent)
  : list AnyComponent :=
  map (fun c => if JS.strictEq (idOf c) id then withName c name else c) prev.

(** The updater of [removeComponent]: the component is filtered out, and
    the arrays assigned to it lose their assignment. *)
Definition removeComponent (id : float) (prev : list AnyComponent) : list AnyComponent :=
  map (fun c =>
         match c with
         | ArrayConfig a =>
             if String.eqb (assignedMpptId (properties a)) (JS.toString id)
             then ArrayConfig (withAssignedMpptId a "")
             else c
         | _ => c
         end)
      (filter (fun c => negb (JS.strictEq (idOf c) id)) prev).

(** The updater of [cloneComponent]; [now] and [random] are the values of
    [Date.now()] and [Math.random()]. *)
Definition cloneComponent (id : float) (now random : float) (prev : list AnyComponent)
  : list AnyComponent :=
  match find (fun c => JS.strictEq (idOf c) id) prev with
  | None => prev
  | Some orig =>
      let timestamp := now + random in
      match orig with
      | ArrayConfig o =>
          let cloned :=
            mkComponent timestamp (name o ++ " (Clone)")
              (properties (withAssignedMpptId o "")) in
          (prev ++ [ArrayConfig cloned])%list
      | _ =>
          let cloned := withIdName orig timestamp (nameOf orig ++ " (Clone)") in
          (prev ++ [cloned])%list
      end
  end.

(** What [removeComponent] does to an array that stays. *)
Definition unassignFrom (id : float) (a : SolarArrayConfiguration) : SolarArrayConfiguration :=
  if String.eqb (assignedMpptId (properties a)) (JS.toString id)
  then withAssignedMpptId a ""
  else a.

(** What [updateComponentName] does to a component of each kind. *)
Definition renamed {TProps : Type} (id0 : float) (n : string) (c : BaseComponent TProps)
  : BaseComponent TProps :=
  if JS.strictEq (id c) id0 then mkComponent (id c) n (properties c) else c.

(** Every assignment of an array names an MPPT of the list: the state the
    selector of [assignedMpptId] builds, which offers the MPPTs by their
    ids. *)
Definition assignmentsResolve (components : list AnyComponent) : Prop :=
  forall a, In a (arrays components) ->
    assignedMpptId (properties a) = ""
    \/ exists m, In m (mppts components)
                 /\ assignedMpptId (properties a) = JS.toString (id m).

(** *** The sanitised inputs of the form *)

(** [Math.max] and [Math.min] of two numbers. *)
Definition Math_max (x y : float) : float :=
  if PrimFloat.is_nan x || PrimFloat.is_nan y then nan
  else if x <? y then y
  else if y <? x then x
  else if PrimFloat.get_sign x then y else x.

Definition Math_min (x y : float) : float :=
  if PrimFloat.is_nan x || PrimFloat.is_nan y then nan
  else if x <? y then x
  else if y <? x then y
  else if PrimFloat.get_sign x then x else y.

(** [x || d] on a number [x]: NaN and the zeros are falsy. *)
Definition numberOr (x d : float) : float :=
  if PrimFloat.is_nan x || PrimFloat.is_zero x then d else x.

(** The [onChange] handlers of the three percentage inputs pass
    [Math.min(100, Math.max(1, Number(e.target.value) || 1))]. *)
Definition percentInput (value : string) : float :=
  Math_min 100 (Math_max 1 (numberOr (JS.Number value) 1)).

(** The [onChange] handlers of the other numeric inputs. *)
Definition quantityInput (value : string) : float := numberOr (JS.Number value) 1.
Definition sunHoursInput (value : string) : float := numberOr (JS.Number value) 0.
Definition usageInput (value : string) : float := numberOr (JS.Number value) 0.
Definition voltageInput (value : string) : float := numberOr (JS.Number value) 12.

(** The keys of [SystemInputs]. *)
Inductive SystemInputKey : Type :=
  | KPeakSunHours
  | KEstimatedDailyUsageWh
  | KBatteryDoD
  | KInverterEfficiency
  | KSolarPanelEfficiency
  | KSystemWideVoltage.

(** The updater of [handleSystemInput]: [{ ...prev, [key]: value }]. *)
Definition handleSystemInput (key : SystemInputKey) (value : float) (prev : SystemInputs)
  : SystemInputs :=
  {| peakSunHours := match key with KPeakSunHours => value | _ => peakSunHours prev end;
     estimatedDailyUsageWh :=
       match key with KEstimatedDailyUsageWh => value | _ => estimatedDailyUsageWh prev end;
     batteryDoD := match key with KBatteryDoD => value | _ => batteryDoD prev end;
     inverterEfficiency :=
       match key with KInverterEfficiency => value | _ => inverterEfficiency prev end;
     solarPanelEfficiency :=
       match key with KSolarPanelEfficiency => value | _ => solarPanelEfficiency prev end;
     systemWideVoltage :=
       match key with KSystemWideVoltage => value | _ => systemWideVoltage prev end |}.

End Handlers.
(** ** The segments of the diagnostics

    What the rules with a fixed text contribute to the list of messages. *)
Module Segments.
Import App.

(** Rule 1: the nudge of an empty system. *)
Definition nudgePart (components : list AnyComponent) : list CategorizedMessage :=
  if (List.length components =? 0)%nat then [message Info nudgeText] else [].

(** Rule 2: the error of mixed battery voltages. *)
Definition mixedPart (stats : ComputedStats) : list CategorizedMessage :=
  if voltageConsistencyIssue stats then [message Error mixedVoltagesText] else [].

(** Rule 3: the note of the unassigned arrays. *)
Definition unassignedPart (components : list AnyComponent) : list CategorizedMessage :=
  let n := List.length (unassignedArrays (arrays components)) in
  if (0 <? n)%nat then
    [if (0 <? List.length (mppts components))%nat
     then message Warn (unassignedWarnText n)
     else message Info (unassignedInfoText n)]
  else [].

(** The two general notes. *)
Definition fixedNotes : list CategorizedMessage :=
  [message Info idealWiringText; message InfoSafety codesText].

(** [m.level === 'error'] and [m.level.startsWith('warn')]. *)
Definition isError (m : CategorizedMessage) : bool := MessageLevel_eqb (level m) Error.
Definition isWarning (m : CategorizedMessage) : bool :=
  JS.startsWith (levelName (level m)) "warn".

(** The final summary, after the messages [body]. *)
Definition summaryPart (components : list AnyComponent) (body : list CategorizedMessage)
  : list CategorizedMessage :=
  if (0 <? List.length components)%nat then
    [if existsb isError body then message Error criticalText
     else if existsb isWarning body then message Warn warningsText
     else message Info compatibleText]
  else [].

(** The adjusted daily need that [stats] computes. *)
Definition energyNeededAdjustedWh (si : SystemInputs) : float :=
  if JS.gtb (estimatedDailyUsageWh si) 0
  then (estimatedDailyUsageWh si / (inverterEfficiency si / 100))%float
  else 0%float.

(** The step of [batteries.forEach] on the set of voltages alone. *)
Definition voltageStep (s : list float) (b : Battery) : list float :=
  if negb (JS.isNaN (getNum (nominalVoltage (properties b))))
  then JS.Set_add s (getNum (nominalVoltage (properties b)))
  else s.

(** The number a set stores for [v]. *)
Definition stored (v : float) : float := if PrimFloat.is_zero v then zero else v.

(** The sums of [assigned.forEach] alone: what one assigned array adds to
    [aggregateIsc] and [aggregatePmax]. *)
Definition aggregateStep (panels : list IndividualSolarPanel) (agg : float * float)
    (a : SolarArrayConfiguration) : float * float :=
  match findPanel panels a with
  | None => agg
  | Some p =>
      let isc := getNum (isc (properties p)) in
      let pmax := getNum (pmax (properties p)) in
      let inSeries := getNum (panelsInSeries (properties a)) in
      let strings := getNum (numberOfStrings (properties a)) in
      (if negb (JS.isNaN isc) && negb (JS.isNaN strings)
       then fst agg + isc * strings else fst agg,
       if negb (JS.isNaN pmax) && negb (JS.isNaN inSeries) && negb (JS.isNaN strings)
       then snd agg + pmax * inSeries * strings else snd agg)%float
  end.

(** [aggregateIsc] and [aggregatePmax] of an MPPT after its arrays. *)
Definition aggregates (panels : list IndividualSolarPanel)
    (assigned : list SolarArrayConfiguration) : float * float :=
  fold_left (aggregateStep panels) assigned (0%float, 0%float).

End Segments.

(** ** More concrete component sets *)
Module MoreExamples.
Import App Examples Calculations.

(** An MPPT and an array assigned to it. *)
Definition x_mppt : MpptChargeController :=
  mkComponent 1 "MPPT 1"
    {| maxInputVoltage := "150"; maxInputCurrent := "40"; maxOutputCurrent := "30";
       nominalBatteryVoltage := "48"; mpptCostUsd := Some "" |}.

Definition x_array : SolarArrayConfiguration :=
  mkComponent 2 "Array 1"
    {| selectedPanelId := "3"; panelsInSeries := "2"; numberOfStrings := "2";
       assignedMpptId := "1" |}.

Definition x_panel : IndividualSolarPanel :=
  mkComponent 3 "Panel 1"
    {| voc := "40"; isc := "10"; vmp := "33"; imp := "9"; pmax := "300";
       panelCostUsd := Some ""; tempCoeffVocPctPerC := Some "";
       tempCoeffPmaxPctPerC := Some "" |}.

Definition x_components : list AnyComponent :=
  [Mppt x_mppt; ArrayConfig x_array; Panel x_panel].

(** The same system with ids as [Date.now() + Math.random()] makes them, on
    an MPPT that takes 15 A; the array is assigned through the select, whose
    value is [String(mppt.id)]. *)
Definition x_stamped_mppt : MpptChargeController :=
  mkComponent 1762076400003.7903 "MPPT 1"
    {| maxInputVoltage := "150"; maxInputCurrent := "15"; maxOutputCurrent := "30";
       nominalBatteryVoltage := "48"; mpptCostUsd := Some "" |}.

Definition x_stamped_panel : IndividualSolarPanel :=
  mkComponent 1762076412345.3333 "Panel 1"
    {| voc := "40"; isc := "10"; vmp := "33"; imp := "9"; pmax := "300";
       panelCostUsd := Some ""; tempCoeffVocPctPerC := Some "";
       tempCoeffPmaxPctPerC := Some "" |}.

Definition x_stamped_array : SolarArrayConfiguration :=
  mkComponent 1762076425678.0627 "Array 1"
    {| selectedPanelId := "1762076412345.3333"; panelsInSeries := "2";
       numberOfStrings := "2"; assignedMpptId := "1762076400003.7903" |}.

Definition x_stamped : list AnyComponent :=
  [Mppt x_stamped_mppt; ArrayConfig x_stamped_array; Panel x_stamped_panel].

(** A battery of 12 V that may discharge at 10 A, and an inverter of
    1000 W that needs at least 50 V. *)
Definition x_battery : Battery :=
  mkComponent 4 "Battery 1"
    {| nominalVoltage := "12"; capacityAh := "100"; maxChargeCurrent := "";
       maxDischargeCurrent := "10"; batteryCostUsd := Some "" |}.

Definition x_inverter : Inverter :=
  mkComponent 5 "Inverter 1"
    {| inputVoltageMin := "50"; inputVoltageMax := "60"; ratedPower := "1000";
       surgePower := ""; efficiencyPct := Some ""; idleDrawW := Some "";
       inverterCostUsd := Some "" |}.

Definition x_storage : list AnyComponent := [Batt x_battery; Inv x_inverter].

(** The statistics of an empty system. *)
Definition x_stats : ComputedStats :=
  {| totalSolarPower := 0; estimatedDailySolarProductionWh := 0;
     totalBatteryCapacity := 0; totalBatteryEnergyWh := 0; totalInverterPower := 0;
     systemNominalVoltage := "N/A"; voltageConsistencyIssue := false;
     estimatedBatteryAutonomyDays := 0; dailyEnergyBalanceWh := 0;
     rechargeTimePshDays := 0; rechargeTimeEffectiveSunHours := 0;
     productionToConsumptionRatioPercentage := RatioNumber 0;
     panelInterconnectCables := 0; arrayToChargerCables := 0;
     chargerToBatteryCables := 0; batteryInterconnectCables := 0;
     batteryToInverterCables := 0; totalEstimatedCables := 0 |}.


End MoreExamples.

(** * Order properties of binary64 arithmetic *)

Import FloatSpec.
#[local] Close Scope string_scope.

(** ** Bits *)


Lemma digits2_pos_bounds (m : positive) :
  2 ^ (Zpos (digits2_pos m) - 1) <= Zpos m < 2 ^ Zpos (digits2_pos m).
Proof.
  induction m as [m IH|m IH|]; simpl digits2_pos.
  - rewrite Pos2Z.inj_succ. replace (Z.succ (Zpos (digits2_pos m)) - 1) with (Z.succ (Zpos (digits2_pos m) - 1)) by lia.
    rewrite !Z.pow_succ_r by lia. lia.
  - rewrite Pos2Z.inj_succ. replace (Z.succ (Zpos (digits2_pos m)) - 1) with (Z.succ (Zpos (digits2_pos m) - 1)) by lia.
    rewrite !Z.pow_succ_r by lia. lia.
  - simpl; lia.
Qed.

Lemma digits2_pos_log2 (m : positive) : Zpos (digits2_pos m) = Z.log2 (Zpos m) + 1.
Proof.
  pose proof (digits2_pos_bounds m) as [H1 H2].
  symmetry. apply Z.add_move_r. apply Z.log2_unique; [lia|].
  replace (Z.succ (Zpos (digits2_pos m) - 1)) with (Zpos (digits2_pos m)) by lia. lia.
Qed.

Lemma iter_pos_nat {A : Type} (f : A -> A) (p : positive) (x : A) :
  iter_pos f p x = Nat.iter (Pos.to_nat p) f x.
Proof.
  revert x; induction p as [p IH|p IH|]; intros x; cbn [iter_pos].
  - rewrite !IH, Pos2Nat.inj_xI, Nat.iter_succ_r.
    replace (2 * Pos.to_nat p)%nat with (Pos.to_nat p + Pos.to_nat p)%nat by lia.
    rewrite Nat.iter_add; reflexivity.
  - rewrite !IH, Pos2Nat.inj_xO.
    replace (2 * Pos.to_nat p)%nat with (Pos.to_nat p + Pos.to_nat p)%nat by lia.
    rewrite Nat.iter_add; reflexivity.
  - reflexivity.
Qed.

Lemma shr_1_spec (M : Z) (k : nat) (mrs : shr_record) :
  0 <= M ->
  shr_m mrs = M / 2 ^ Z.of_nat k ->
  loc_of_shr_record mrs = location_of M (Z.of_nat k) ->
  shr_m (shr_1 mrs) = M / 2 ^ Z.of_nat (S k)
  /\ loc_of_shr_record (shr_1 mrs) = location_of M (Z.of_nat (S k)).
Proof.
  intros HM Hm Hl. unfold location_of in *.
  rewrite Nat2Z.inj_succ, !Z.pow_succ_r by lia.
  set (P := 2 ^ Z.of_nat k) in *.
  assert (HP : 0 < P) by (apply Z.pow_pos_nonneg; lia).
  set (q := M / P) in *. set (r := M mod P) in *.
  assert (Hq : 0 <= q) by (apply Z.div_pos; lia).
  assert (Hr : 0 <= r < P) by (apply Z.mod_pos_bound; lia).
  assert (HMq : M = P * q + r) by (apply Z.div_mod; lia).
  assert (Hdiv : M / (2 * P) = q / 2).
  { rewrite (Z.mul_comm 2 P), <- Z.div_div by lia. reflexivity. }
  assert (Hmod : M mod (2 * P) = (q mod 2) * P + r).
  { pose proof (Z.div_mod q 2 ltac:(lia)) as Hq2.
    pose proof (Z.mod_pos_bound q 2 ltac:(lia)) as Hq2b.
    symmetry; apply Z.mod_unique with (q := q / 2); [nia|nia]. }
  rewrite Hdiv, Hmod.
  destruct mrs as [m rb sb]; simpl in Hm; subst m.
  assert (Hcases : (rb = false /\ sb = false /\ r = 0)
                   \/ (rb || sb = true /\ r <> 0)).
  { destruct (r =? 0) eqn:Er.
    - apply Z.eqb_eq in Er. left. destruct rb, sb; simpl in Hl; try discriminate; auto.
    - apply Z.eqb_neq in Er. right. destruct rb, sb; simpl in Hl; try discriminate; auto. }
  pose proof (Z.mod_pos_bound q 2 ltac:(lia)) as Hq2b.
  pose proof (Z.div_mod q 2 ltac:(lia)) as Hq2.
  assert (Hlt : forall x, 0 < x -> x < P -> (2 * x ?= 2 * P) = Lt)
    by (intros; apply Z.compare_lt_iff; lia).
  assert (Hgt : forall x, 0 < x -> (2 * (1 * P + x) ?= 2 * P) = Gt)
    by (intros; apply Z.compare_gt_iff; lia).
  assert (Heq : (2 * (1 * P + 0) ?= 2 * P) = Eq)
    by (apply Z.compare_eq_iff; lia).
  assert (Hnz : forall x, 0 <= x -> (1 * P + x =? 0) = false)
    by (intros; apply Z.eqb_neq; lia).
  assert (Hshape :
    exists q' b, shr_1 {| shr_m := q; shr_r := rb; shr_s := sb |}
                 = {| shr_m := q'; shr_r := b; shr_s := rb || sb |}
                 /\ q / 2 = q' /\ q mod 2 = (if b then 1 else 0)).
  { destruct q as [|p|p]; [| |lia].
    - exists 0, false; repeat split.
    - destruct p as [p|p|].
      + exists (Zpos p), true; cbn [shr_1]; repeat split.
        * rewrite Pos2Z.inj_xI, Z.add_comm, Z.mul_comm, Z.div_add by lia; reflexivity.
        * rewrite Pos2Z.inj_xI, Z.add_comm, Z.mul_comm, Z.mod_add by lia; reflexivity.
      + exists (Zpos p), false; cbn [shr_1]; repeat split.
        * rewrite Pos2Z.inj_xO, Z.mul_comm, Z.div_mul by lia; reflexivity.
        * rewrite Pos2Z.inj_xO, Z.mul_comm, Z.mod_mul by lia; reflexivity.
      + exists 0, true; repeat split. }
  destruct Hshape as (q' & b & -> & -> & ->).
  cbn [shr_m loc_of_shr_record].
  split; [reflexivity|].
  destruct Hcases as [(-> & -> & ->)|(-> & Hr0)]; cbn [orb].
  - destruct b.
    + rewrite Hnz, Heq by lia; reflexivity.
    + replace (0 * P + 0) with 0 by lia; reflexivity.
  - destruct b.
    + rewrite Hnz, Hgt by lia; reflexivity.
    + replace (0 * P + r) with r by lia.
      destruct (r =? 0) eqn:Er; [apply Z.eqb_eq in Er; lia|].
      rewrite Hlt by lia; reflexivity.
Qed.

Lemma fexp_eq (x : Z) : fexp prec emax x = Z.max (x - 53) (-1074).
Proof. reflexivity. Qed.

Lemma shr_iter_spec (M : Z) (k : nat) :
  0 <= M ->
  let mrs := Nat.iter k shr_1 {| shr_m := M; shr_r := false; shr_s := false |} in
  shr_m mrs = M / 2 ^ Z.of_nat k /\ loc_of_shr_record mrs = location_of M (Z.of_nat k).
Proof.
  intros HM; induction k as [|k IH].
  - cbn [Nat.iter shr_m loc_of_shr_record]. unfold location_of.
    change (2 ^ Z.of_nat 0) with 1. rewrite Z.div_1_r, Z.mod_1_r. split; reflexivity.
  - cbn [Nat.iter]. destruct IH as [IH1 IH2].
    apply shr_1_spec; assumption.
Qed.

Lemma shr_spec (M e n : Z) :
  0 <= M -> 0 <= n ->
  let '(mrs, e') := shr {| shr_m := M; shr_r := false; shr_s := false |} e n in
  e' = e + n /\ shr_m mrs = M / 2 ^ n /\ loc_of_shr_record mrs = location_of M n.
Proof.
  intros HM Hn; unfold shr.
  destruct n as [|p|p]; [| |lia].
  - split; [lia|]. cbn [shr_m loc_of_shr_record]. unfold location_of.
    change (2 ^ 0) with 1. rewrite Z.div_1_r, Z.mod_1_r. split; reflexivity.
  - split; [reflexivity|].
    rewrite iter_pos_nat. rewrite <- (positive_nat_Z p). apply shr_iter_spec; exact HM.
Qed.

Lemma round_nearest_even_spec (M n : Z) :
  round_nearest_even (M / 2 ^ n) (location_of M n) = rne_div M n.
Proof.
  unfold round_nearest_even, location_of, rne_div; cbv zeta.
  destruct (M mod 2 ^ n =? 0); [reflexivity|].
  destruct (2 * (M mod 2 ^ n) ?= 2 ^ n); reflexivity.
Qed.

Lemma rne_div_bounds (M k : Z) : M / 2 ^ k <= rne_div M k <= M / 2 ^ k + 1.
Proof.
  unfold rne_div; cbv zeta. set (q := M / 2 ^ k).
  destruct (M mod 2 ^ k =? 0); [lia|].
  destruct (2 * (M mod 2 ^ k) ?= 2 ^ k); [destruct (Z.even q)| |]; lia.
Qed.

Lemma rne_div_exact (M k : Z) : M mod 2 ^ k = 0 -> rne_div M k = M / 2 ^ k.
Proof. intros H; unfold rne_div; cbv zeta; rewrite H; reflexivity. Qed.

Lemma compare_mul_r (a b c : Z) : 0 < c -> (a * c ?= b * c) = (a ?= b).
Proof.
  intros Hc; destruct (a ?= b) eqn:E.
  - apply Z.compare_eq_iff in E; subst; apply Z.compare_refl.
  - apply Z.compare_lt_iff in E; apply Z.compare_lt_iff.
    apply Z.mul_lt_mono_pos_r; assumption.
  - apply Z.compare_gt_iff in E; apply Z.compare_gt_iff.
    apply Z.mul_lt_mono_pos_r; assumption.
Qed.

Lemma rne_div_scale (M n j : Z) :
  0 <= n -> 0 <= j -> rne_div (M * 2 ^ j) (n + j) = rne_div M n.
Proof.
  intros Hn Hj; unfold rne_div; cbv zeta.
  assert (Hp : 0 < 2 ^ j) by (apply Z.pow_pos_nonneg; lia).
  assert (Hq : 0 < 2 ^ n) by (apply Z.pow_pos_nonneg; lia).
  rewrite Z.pow_add_r by lia.
  rewrite Z.div_mul_cancel_r by lia.
  rewrite Z.mul_mod_distr_r by lia.
  set (r := M mod 2 ^ n).
  assert (Hz : (r * 2 ^ j =? 0) = (r =? 0)).
  { destruct (r =? 0) eqn:E.
    - apply Z.eqb_eq in E; rewrite E; reflexivity.
    - apply Z.eqb_neq in E; apply Z.eqb_neq; nia. }
  rewrite Hz.
  replace (2 * (r * 2 ^ j)) with (2 * r * 2 ^ j) by ring.
  rewrite compare_mul_r by lia. reflexivity.
Qed.

(** ** The monotone rounding function *)

Lemma rne_div_mono (X Y k : Z) : 0 <= k -> X <= Y -> rne_div X k <= rne_div Y k.
Proof.
  intros Hk Hxy.
  assert (Hp : 0 < 2 ^ k) by (apply Z.pow_pos_nonneg; lia).
  pose proof (Z.div_le_mono X Y (2 ^ k) Hp Hxy) as Hq.
  pose proof (rne_div_bounds X k) as [Bx1 Bx2].
  pose proof (rne_div_bounds Y k) as [By1 By2].
  destruct (Z.eq_dec (X / 2 ^ k) (Y / 2 ^ k)) as [E|N]; [|lia].
  pose proof (Z.div_mod X (2 ^ k) ltac:(lia)) as Dx.
  pose proof (Z.div_mod Y (2 ^ k) ltac:(lia)) as Dy.
  assert (Hr : X mod 2 ^ k <= Y mod 2 ^ k) by (rewrite E in Dx; lia).
  pose proof (Z.mod_pos_bound X (2 ^ k) Hp) as Mx.
  pose proof (Z.mod_pos_bound Y (2 ^ k) Hp) as My.
  unfold rne_div; cbv zeta. rewrite <- E.
  set (q := X / 2 ^ k) in *. set (rx := X mod 2 ^ k) in *. set (ry := Y mod 2 ^ k) in *.
  destruct (Z.eqb_spec rx 0) as [Ex|Ex]; destruct (Z.eqb_spec ry 0) as [Ey|Ey].
  - lia.
  - destruct (2 * ry ?= 2 ^ k); [destruct (Z.even q)| |]; lia.
  - lia.
  - destruct (Z.compare_spec (2 * rx) (2 ^ k)); destruct (Z.compare_spec (2 * ry) (2 ^ k));
      try destruct (Z.even q); lia.
Qed.

Lemma rne_div_le_multiple (X k c : Z) : 0 <= k -> X <= c * 2 ^ k -> rne_div X k <= c.
Proof.
  intros Hk H.
  assert (Hp : 0 < 2 ^ k) by (apply Z.pow_pos_nonneg; lia).
  pose proof (rne_div_mono X (c * 2 ^ k) k Hk H) as Hm.
  rewrite (rne_div_exact (c * 2 ^ k)) in Hm by (apply Z.mod_mul; lia).
  rewrite Z.div_mul in Hm by lia. exact Hm.
Qed.

Lemma rne_div_ge_multiple (Y k c : Z) : 0 <= k -> c * 2 ^ k <= Y -> c <= rne_div Y k.
Proof.
  intros Hk H.
  assert (Hp : 0 < 2 ^ k) by (apply Z.pow_pos_nonneg; lia).
  pose proof (rne_div_mono (c * 2 ^ k) Y k Hk H) as Hm.
  rewrite (rne_div_exact (c * 2 ^ k)) in Hm by (apply Z.mod_mul; lia).
  rewrite Z.div_mul in Hm by lia. exact Hm.
Qed.

Lemma rnd_mono (j X Y : Z) : 0 <= j -> 0 < X -> X <= Y -> rnd j X <= rnd j Y.
Proof.
  intros Hj HX HXY; unfold rnd; cbv zeta.
  pose proof (Z.log2_le_mono X Y HXY) as Hl.
  set (kx := Z.max (Z.log2 X + 1 - prec) j).
  set (ky := Z.max (Z.log2 Y + 1 - prec) j).
  assert (Hkx : 0 <= kx) by (subst kx; lia).
  assert (Hky : 0 <= ky) by (subst ky; lia).
  assert (Hk : kx <= ky) by (subst kx ky; lia).
  assert (Hpx : 0 < 2 ^ kx) by (apply Z.pow_pos_nonneg; lia).
  assert (Hpy : 0 < 2 ^ ky) by (apply Z.pow_pos_nonneg; lia).
  destruct (Z.eq_dec kx ky) as [E|N].
  - rewrite <- E. apply Z.mul_le_mono_nonneg_r; [lia|]. apply rne_div_mono; assumption.
  - (* a power of two lies between [X] and [Y], on both grids *)
    assert (Hlt : kx < ky) by lia.
    assert (Hky' : ky = Z.log2 Y + 1 - prec) by (subst kx ky; lia).
    assert (Hll : Z.log2 X < Z.log2 Y).
    { subst kx ky. unfold prec in *. lia. }
    set (P := 2 ^ Z.log2 Y).
    assert (HPY : P <= Y) by (apply Z.log2_spec; lia).
    assert (HXP : X <= P).
    { pose proof (Z.log2_spec X HX) as [_ H2].
      assert (2 ^ (Z.succ (Z.log2 X)) <= P)
        by (apply Z.pow_le_mono_r; lia).
      lia. }
    assert (Hprec : 0 < prec) by reflexivity.
    assert (Hx : P = 2 ^ (Z.log2 Y - kx) * 2 ^ kx).
    { subst P. rewrite <- Z.pow_add_r by lia. f_equal; lia. }
    assert (Hy : P = 2 ^ (Z.log2 Y - ky) * 2 ^ ky).
    { subst P. rewrite <- Z.pow_add_r by lia. f_equal; lia. }
    apply Z.le_trans with P.
    + rewrite Hx. apply Z.mul_le_mono_nonneg_r; [lia|].
      apply rne_div_le_multiple; [lia|]. rewrite <- Hx. exact HXP.
    + rewrite Hy. apply Z.mul_le_mono_nonneg_r; [lia|].
      apply rne_div_ge_multiple; [lia|]. rewrite <- Hy. exact HPY.
Qed.

Lemma rnd_nonneg (j X : Z) : 0 <= j -> 0 < X -> 0 <= rnd j X.
Proof.
  intros Hj HX; unfold rnd; cbv zeta.
  set (k := Z.max _ _). assert (Hk : 0 <= k) by (subst k; lia).
  assert (Hp : 0 < 2 ^ k) by (apply Z.pow_pos_nonneg; lia).
  pose proof (rne_div_bounds X k) as [B _].
  assert (0 <= X / 2 ^ k) by (apply Z.div_pos; lia).
  nia.
Qed.

Lemma round_signed_mono (j B S T : Z) :
  0 <= j -> 0 <= B -> S <= T -> round_signed j B S <= round_signed j B T.
Proof.
  intros Hj HB HST.
  destruct S as [|s|s], T as [|t|t]; unfold round_signed; try lia.
  - pose proof (rnd_nonneg j (Zpos t) Hj ltac:(lia)); lia.
  - pose proof (rnd_mono j (Zpos s) (Zpos t) Hj ltac:(lia) HST); lia.
  - pose proof (rnd_nonneg j (- Zneg s) Hj ltac:(lia)); lia.
  - pose proof (rnd_nonneg j (- Zneg s) Hj ltac:(lia));
    pose proof (rnd_nonneg j (Zpos t) Hj ltac:(lia)); lia.
  - pose proof (rnd_mono j (- Zneg t) (- Zneg s) Hj ltac:(lia) ltac:(lia)); lia.
Qed.

Lemma pow2_pos (a : Z) : 0 <= a -> 0 < 2 ^ a.
Proof. intros; apply Z.pow_pos_nonneg; lia. Qed.

Lemma pow2_le (a b : Z) : 0 <= a -> a <= b -> 2 ^ a <= 2 ^ b.
Proof. intros; apply Z.pow_le_mono_r; lia. Qed.


Lemma Zdigits2_bounds (M : Z) :
  0 < M -> 2 ^ (Zdigits2 M - 1) <= M < 2 ^ Zdigits2 M /\ 0 < Zdigits2 M.
Proof.
  destruct M as [|p|p]; try lia; intros _.
  cbn [Zdigits2]. split; [apply digits2_pos_bounds | lia].
Qed.

Lemma shr_nonpos (mrs : shr_record) (e n : Z) : n <= 0 -> shr mrs e n = (mrs, e).
Proof. destruct n; unfold shr; intros; try reflexivity; lia. Qed.

(** The integer core of [binary_round_aux] on an exact positive mantissa
    whose exponent is not above the canonical one. *)
Lemma binary_round_aux_core (s : bool) (m : positive) (e : Z) :
  let E := fexp prec emax (Zpos (digits2_pos m) + e) in
  e <= E ->
  exists m2 e2,
    binary_round_aux prec emax s (Zpos m) e loc_Exact
    = match m2 with
      | Z0 => S754_zero s
      | Zpos p => if e2 <=? 971 then S754_finite s p e2 else S754_infinity s
      | Zneg _ => S754_nan
      end
    /\ 0 <= m2 < 2 ^ 53 /\ E <= e2 <= E + 1
    /\ m2 * 2 ^ (e2 - E) = rne_div (Zpos m) (E - e)
    /\ (-1074 < E -> 2 ^ 52 <= m2).
Proof.
  intros E HE.
  set (M := Zpos m). set (d := Zpos (digits2_pos m)).
  assert (HEq : E = Z.max (d + e - 53) (-1074)) by reflexivity.
  set (n := E - e). assert (Hn : 0 <= n) by (subst n; lia).
  pose proof (digits2_pos_bounds m) as Hd. fold M d in Hd.
  assert (Hd0 : 0 < d) by (subst d; lia).
  set (M1 := rne_div M n).
  pose proof (rne_div_bounds M n) as HM1. fold M1 in HM1.
  assert (Hpn : 0 < 2 ^ n) by (apply pow2_pos; lia).
  assert (Hq0 : 0 <= M / 2 ^ n) by (apply Z.div_pos; subst M; lia).
  (* the quotient has at most 53 bits *)
  assert (Hq53 : M / 2 ^ n < 2 ^ 53).
  { apply Z.div_lt_upper_bound; [lia|].
    rewrite <- Z.pow_add_r by lia.
    apply Z.lt_le_trans with (2 ^ d); [lia|]. apply pow2_le; lia. }
  assert (Hq52 : -1074 < E -> 2 ^ 52 <= M / 2 ^ n).
  { intros HE1. apply Z.div_le_lower_bound; [lia|].
    rewrite <- Z.pow_add_r by lia.
    apply Z.le_trans with (2 ^ (d - 1)); [|lia]. apply pow2_le; lia. }
  (* first shift and rounding *)
  unfold binary_round_aux, shr_fexp.
  cbn [shr_record_of_loc].
  change (emax - prec) with 971.
  change (fexp prec emax (Zdigits2 M + e) - e) with n.
  pose proof (shr_spec M e n ltac:(subst M; lia) Hn) as Hs1.
  destruct (shr {| shr_m := M; shr_r := false; shr_s := false |} e n) as [mrs1 e1].
  destruct Hs1 as (He1 & Hm1 & Hl1).
  rewrite Hm1, Hl1, round_nearest_even_spec. fold M1.
  replace e1 with E by (subst n; lia).
  (* second shift *)
  destruct (Z.eq_dec M1 (2 ^ 53)) as [Hc|Hc].
  - (* the rounding carried into a 54th bit *)
    rewrite Hc.
    assert (Hn2 : fexp prec emax (Zdigits2 (2 ^ 53) + E) - E = 1).
    { change (Zdigits2 (2 ^ 53)) with 54. rewrite fexp_eq. lia. }
    rewrite Hn2. cbn [shr Z.add iter_pos shr_1 shr_m].
    change (2 ^ 53) with (Zpos (xO (Pos.pow 2 52))).
    cbn [shr_1 shr_m].
    exists (2 ^ 52), (E + 1).
    change (2 ^ 52) with (Zpos (Pos.pow 2 52)).
    split; [reflexivity|].
    change (Zpos (Pos.pow 2 52)) with (2 ^ 52).
    split; [split; [lia | reflexivity]|].
    split; [lia|].
    split; [|lia].
    replace (E + 1 - E) with 1 by lia.
    reflexivity.
  - assert (HM1b : 0 <= M1 < 2 ^ 53) by lia.
    assert (Hn2 : fexp prec emax (Zdigits2 M1 + E) - E <= 0).
    { rewrite fexp_eq.
      destruct (Z.eq_dec M1 0) as [Hz|Hz]; [rewrite Hz; cbn [Zdigits2]; lia|].
      pose proof (Zdigits2_bounds M1 ltac:(lia)) as [[B1 B2] B3].
      assert (Zdigits2 M1 <= 53).
      { destruct (Z_le_gt_dec (Zdigits2 M1) 53) as [|G]; [assumption|].
        assert (2 ^ 53 <= 2 ^ (Zdigits2 M1 - 1)) by (apply pow2_le; lia). lia. }
      lia. }
    rewrite shr_nonpos by exact Hn2. cbn [shr_m].
    exists M1, E.
    split; [destruct M1; try reflexivity; lia|].
    split; [exact HM1b|].
    split; [lia|].
    split; [replace (E - E) with 0 by lia; change (rne_div (Zpos m) (E - e)) with M1;
            change (2 ^ 0) with 1; lia|].
    intros HE1; specialize (Hq52 HE1); lia.
Qed.

Lemma round_signed_pos (j B T : Z) : 0 < T -> round_signed j B T = Z.min (rnd j T) B.
Proof. destruct T; try lia; reflexivity. Qed.

Lemma round_signed_neg (j B T : Z) : 0 < T -> round_signed j B (- T) = - Z.min (rnd j T) B.
Proof. destruct T; try lia; reflexivity. Qed.

Lemma rnd_scaled (L : Z) (m : positive) (e : Z) :
  let E := fexp prec emax (Zpos (digits2_pos m) + e) in
  L <= e -> L <= -1074 -> e <= E ->
  rnd (-1074 - L) (Zpos m * 2 ^ (e - L)) = rne_div (Zpos m) (E - e) * 2 ^ (E - L).
Proof.
  intros E HL HL' HE; unfold rnd; cbv zeta.
  assert (HEq : E = Z.max (Zpos (digits2_pos m) + e - 53) (-1074)) by reflexivity.
  rewrite Z.log2_mul_pow2 by lia.
  rewrite (digits2_pos_log2 m) in HEq.
  replace (Z.max (e - L + Z.log2 (Zpos m) + 1 - prec) (-1074 - L)) with (E - L)
    by (unfold prec; lia).
  replace (E - L) with ((E - e) + (e - L)) at 1 by lia.
  rewrite rne_div_scale by lia. reflexivity.
Qed.

(** The value of [binary_round_aux] on an exact mantissa, in units of
    [2^L]: the exact value, rounded and saturated. *)
Lemma binary_round_aux_value (L : Z) (s : bool) (m : positive) (e : Z) :
  L <= e -> L <= -1074 ->
  e <= fexp prec emax (Zpos (digits2_pos m) + e) ->
  binary_round_aux prec emax s (Zpos m) e loc_Exact <> S754_nan
  /\ SFvalue L (binary_round_aux prec emax s (Zpos m) e loc_Exact)
     = round_signed (-1074 - L) (2 ^ (emax - L))
         (if s then - (Zpos m * 2 ^ (e - L)) else Zpos m * 2 ^ (e - L)).
Proof.
  intros HL HL' HE.
  destruct (binary_round_aux_core s m e HE) as (m2 & e2 & -> & Hm2 & He2 & Hv & Hn).
  pose proof (rnd_scaled L m e HL HL' HE) as Hr. cbv zeta in Hr.
  set (E := fexp prec emax (Zpos (digits2_pos m) + e)) in *.
  assert (HEmin : -1074 <= E) by (subst E; rewrite fexp_eq; lia).
  set (X := Zpos m * 2 ^ (e - L)) in *.
  assert (HX : 0 < X).
  { subst X. pose proof (pow2_pos (e - L) ltac:(lia)). nia. }
  assert (Hval : rnd (-1074 - L) X = m2 * 2 ^ (e2 - L)).
  { rewrite Hr, <- Hv, <- Z.mul_assoc, <- Z.pow_add_r by lia. do 2 f_equal; lia. }
  assert (Hsat : SFvalue L match m2 with
                           | 0 => S754_zero false
                           | Z.pos p => if e2 <=? 971 then S754_finite false p e2
                                        else S754_infinity false
                           | Z.neg _ => S754_nan
                           end = Z.min (rnd (-1074 - L) X) (2 ^ (emax - L))).
  { rewrite Hval. change emax with 1024.
    destruct m2 as [|p|p]; [| |lia].
    - cbn [SFvalue]. pose proof (pow2_pos (1024 - L) ltac:(lia)). lia.
    - destruct (Z.leb_spec e2 971) as [Hle|Hgt]; cbn [SFvalue].
      + assert (Zpos p * 2 ^ (e2 - L) < 2 ^ (1024 - L)).
        { apply Z.lt_le_trans with (2 ^ 53 * 2 ^ (e2 - L)).
          - apply Z.mul_lt_mono_pos_r; [apply pow2_pos; lia | lia].
          - rewrite <- Z.pow_add_r by lia. apply pow2_le; lia. }
        lia.
      + change emax with 1024.
        assert (2 ^ (1024 - L) <= Zpos p * 2 ^ (e2 - L)).
        { apply Z.le_trans with (2 ^ 52 * 2 ^ (e2 - L)).
          - rewrite <- Z.pow_add_r by lia. apply pow2_le; lia.
          - apply Z.mul_le_mono_nonneg_r; [pose proof (pow2_pos (e2 - L) ltac:(lia)); lia|].
            apply Hn; lia. }
        lia. }
  split.
  - destruct m2 as [|p|p]; [discriminate | destruct (e2 <=? 971); discriminate | lia].
  - destruct s.
    + rewrite round_signed_neg by exact HX. rewrite <- Hsat.
      destruct m2 as [|p|p]; [reflexivity | destruct (e2 <=? 971); reflexivity | lia].
    + rewrite round_signed_pos by exact HX. rewrite <- Hsat. reflexivity.
Qed.

(** ** Valid numbers and their order *)

Lemma bounded_facts (m : positive) (e : Z) :
  bounded prec emax m e = true ->
  fexp prec emax (Zpos (digits2_pos m) + e) = e
  /\ -1074 <= e <= 971 /\ Zpos m < 2 ^ 53 /\ (-1074 < e -> 2 ^ 52 <= Zpos m).
Proof.
  unfold bounded, canonical_mantissa; intros H.
  apply andb_prop in H; destruct H as [H1 H2].
  apply Z.eqb_eq in H1. apply Z.leb_le in H2. change (emax - prec) with 971 in H2.
  pose proof H1 as H1'. rewrite fexp_eq in H1'.
  pose proof (digits2_pos_bounds m) as [B1 B2].
  set (d := Zpos (digits2_pos m)) in *.
  assert (Hd : d <= 53) by lia.
  repeat split; try lia.
  - apply Z.lt_le_trans with (2 ^ d); [lia | apply pow2_le; lia].
  - intros He. assert (d = 53) by lia.
    replace 52 with (d - 1) by lia. exact B1.
Qed.

Lemma finite_below_B1 (m : positive) (e : Z) :
  bounded prec emax m e = true -> 0 < Zpos m * 2 ^ (e - -1074) < B1.
Proof.
  intros H; destruct (bounded_facts m e H) as (_ & He & Hm & _).
  pose proof (pow2_pos (e - -1074) ltac:(lia)) as Hp.
  split; [nia|].
  apply Z.lt_le_trans with (2 ^ 53 * 2 ^ (e - -1074)).
  - apply Z.mul_lt_mono_pos_r; lia.
  - unfold B1. rewrite <- Z.pow_add_r by lia. apply pow2_le; change emax with 1024; lia.
Qed.

Lemma B1_pos : 0 < B1.
Proof. reflexivity. Qed.

Lemma SFvalue_bound (x : spec_float) :
  valid_binary x = true -> - B1 <= SFvalue (-1074) x <= B1.
Proof.
  pose proof B1_pos.
  destruct x as [s|s| |s m e]; cbn [SFvalue valid_binary]; intros V.
  - lia.
  - fold B1. destruct s; lia.
  - lia.
  - pose proof (finite_below_B1 m e V). destruct s; lia.
Qed.

Lemma finite_order (m1 m2 : positive) (e1 e2 : Z) :
  bounded prec emax m1 e1 = true -> bounded prec emax m2 e2 = true ->
  (Zpos m1 * 2 ^ (e1 - -1074) ?= Zpos m2 * 2 ^ (e2 - -1074))
  = match e1 ?= e2 with
    | Lt => Lt
    | Gt => Gt
    | Eq => Pos.compare_cont Eq m1 m2
    end.
Proof.
  intros V1 V2.
  destruct (bounded_facts m1 e1 V1) as (_ & He1 & Hm1 & Hn1).
  destruct (bounded_facts m2 e2 V2) as (_ & He2 & Hm2 & Hn2).
  assert (Hlt : forall ma mb ea eb, -1074 <= ea -> ea < eb -> Zpos ma < 2 ^ 53 ->
                  2 ^ 52 <= Zpos mb ->
                  Zpos ma * 2 ^ (ea - -1074) < Zpos mb * 2 ^ (eb - -1074)).
  { intros ma mb ea eb Ha Hab Hma Hmb.
    apply Z.lt_le_trans with (2 ^ 53 * 2 ^ (ea - -1074)).
    - apply Z.mul_lt_mono_pos_r; [apply pow2_pos; lia | lia].
    - apply Z.le_trans with (2 ^ 52 * 2 ^ (eb - -1074)).
      + rewrite <- !Z.pow_add_r by lia. apply pow2_le; lia.
      + apply Z.mul_le_mono_nonneg_r; [pose proof (pow2_pos (eb - -1074) ltac:(lia)); lia|lia]. }
  destruct (Z.compare_spec e1 e2) as [E|E|E].
  - subst e2. rewrite compare_mul_r by (apply pow2_pos; lia). reflexivity.
  - apply Z.compare_lt_iff. apply Hlt; try lia; apply Hn2; lia.
  - apply Z.compare_gt_iff. apply Hlt; try lia; apply Hn1; lia.
Qed.

Ltac cmp_solve :=
  f_equal; try reflexivity; symmetry;
  first [apply Z.compare_gt_iff; lia | apply Z.compare_lt_iff; lia
        | apply Z.compare_eq_iff; lia].

(** On valid numbers other than NaN, [SFcompare] is the order of the values. *)
Lemma SFcompare_value (x y : spec_float) :
  valid_binary x = true -> valid_binary y = true ->
  x <> S754_nan -> y <> S754_nan ->
  SFcompare x y = Some (SFvalue (-1074) x ?= SFvalue (-1074) y).
Proof.
  intros Vx Vy Nx Ny. pose proof B1_pos as HB.
  destruct x as [sx|sx| |sx mx ex]; [| |congruence|];
    destruct y as [sy|sy| |sy my ey]; try congruence;
    cbn [SFcompare SFvalue valid_binary] in *; fold B1;
    try pose proof (finite_below_B1 mx ex Vx) as Fx;
    try pose proof (finite_below_B1 my ey Vy) as Fy.
  - reflexivity.
  - destruct sy; cmp_solve.
  - destruct sy; cmp_solve.
  - destruct sx; cmp_solve.
  - destruct sx, sy; cmp_solve.
  - destruct sx, sy; cmp_solve.
  - destruct sx; cmp_solve.
  - destruct sx, sy; cmp_solve.
  - destruct sx, sy; f_equal.
    + rewrite Z.compare_opp, (finite_order my mx ey ex Vy Vx).
      rewrite (Z.compare_antisym ex ey).
      destruct (ex ?= ey); cbn [CompOpp]; try reflexivity.
      change (Pos.compare_cont Eq mx my) with (Pos.compare mx my).
      change (Pos.compare_cont Eq my mx) with (Pos.compare my mx).
      rewrite (Pos.compare_antisym mx my). reflexivity.
    + symmetry; apply Z.compare_lt_iff; lia.
    + symmetry; apply Z.compare_gt_iff; lia.
    + symmetry; apply finite_order; assumption.
Qed.

(** ** The values of products and sums *)

Lemma SFvalue_rescale (x : spec_float) :
  valid_binary x = true -> SFvalue (-2148) x = SFvalue (-1074) x * 2 ^ 1074.
Proof.
  destruct x as [s|s| |s m e]; cbn [SFvalue valid_binary]; intros V; try reflexivity.
  - destruct s; reflexivity.
  - destruct (bounded_facts m e V) as (_ & He & _).
    replace (e - -2148) with ((e - -1074) + 1074) by lia.
    rewrite Z.pow_add_r by lia. destruct s; ring.
Qed.

Lemma digits_at_least_53 (m : positive) : 2 ^ 52 <= Zpos m -> 53 <= Zpos (digits2_pos m).
Proof.
  intros H. pose proof (digits2_pos_bounds m) as [_ B].
  destruct (Z_le_gt_dec 53 (Zpos (digits2_pos m))) as [|G]; [assumption|].
  assert (2 ^ Zpos (digits2_pos m) <= 2 ^ 52) by (apply pow2_le; lia). lia.
Qed.

Lemma SFmul_value (x y : spec_float) :
  valid_binary x = true -> valid_binary y = true ->
  finite_or_zero x -> finite_or_zero y ->
  SFmul prec emax x y <> S754_nan
  /\ SFvalue (-2148) (SFmul prec emax x y)
     = round_signed 1074 B2 (SFvalue (-1074) x * SFvalue (-1074) y).
Proof.
  intros Vx Vy Fx Fy.
  destruct x as [sx|sx| |sx mx ex]; try contradiction;
    destruct y as [sy|sy| |sy my ey]; try contradiction;
    cbn [SFmul SFvalue valid_binary] in *.
  - split; [discriminate | reflexivity].
  - split; [discriminate | reflexivity].
  - split; [discriminate|]. rewrite Z.mul_0_r. reflexivity.
  - destruct (bounded_facts mx ex Vx) as (_ & Hex & Hmx & Hnx).
    destruct (bounded_facts my ey Vy) as (_ & Hey & Hmy & Hny).
    assert (Hpre : ex + ey <= fexp prec emax (Zpos (digits2_pos (mx * my)) + (ex + ey))).
    { rewrite fexp_eq.
      destruct (Z_le_gt_dec (ex + ey) (-1074)) as [|G]; [lia|].
      assert (2 ^ 52 <= Zpos (mx * my)).
      { rewrite Pos2Z.inj_mul.
        destruct (Z_le_gt_dec ex (-1074)).
        - specialize (Hny ltac:(lia)). nia.
        - specialize (Hnx ltac:(lia)). nia. }
      pose proof (digits_at_least_53 (mx * my) H). lia. }
    destruct (binary_round_aux_value (-2148) (xorb sx sy) (mx * my) (ex + ey)
                ltac:(lia) ltac:(lia) Hpre) as [Hn Hv].
    split; [exact Hn|]. rewrite Hv. fold B2.
    change (-1074 - -2148) with 1074. f_equal.
    rewrite Pos2Z.inj_mul.
    replace (ex + ey - -2148) with ((ex - -1074) + (ey - -1074)) by lia.
    rewrite Z.pow_add_r by lia.
    destruct sx, sy; cbn [xorb]; ring.
Qed.

Lemma iter_xO_value (d m : positive) : Zpos (Pos.iter xO m d) = Zpos m * 2 ^ Zpos d.
Proof.
  induction d as [|d IH] using Pos.peano_ind.
  - cbn [Pos.iter]. rewrite Pos2Z.inj_xO. change (2 ^ 1) with 2. ring.
  - rewrite Pos.iter_succ, Pos2Z.inj_xO, IH, Pos2Z.inj_succ, Z.pow_succ_r by lia. ring.
Qed.

Lemma shl_align_spec (m : positive) (e e' : Z) :
  let '(mz, ez) := shl_align m e e' in
  ez = Z.min e e' /\ Zpos mz = Zpos m * 2 ^ (e - ez).
Proof.
  unfold shl_align. destruct (e' - e) as [|d|d] eqn:Hd.
  - split; [lia|]. replace (e - e) with 0 by lia. change (2 ^ 0) with 1. lia.
  - split; [lia|]. replace (e - e) with 0 by lia. change (2 ^ 0) with 1. lia.
  - split; [lia|]. rewrite iter_xO_value. f_equal. f_equal. lia.
Qed.

Lemma digits_shift (m : positive) (k : Z) (mz : positive) :
  0 <= k -> Zpos mz = Zpos m * 2 ^ k ->
  Zpos (digits2_pos mz) = Zpos (digits2_pos m) + k.
Proof.
  intros Hk H. rewrite !digits2_pos_log2, H, Z.log2_mul_pow2 by lia. lia.
Qed.

Lemma binary_round_value (s : bool) (m : positive) (e : Z) :
  -1074 <= e ->
  binary_round prec emax s m e <> S754_nan
  /\ SFvalue (-1074) (binary_round prec emax s m e)
     = round_signed 0 B1
         (if s then - (Zpos m * 2 ^ (e - -1074)) else Zpos m * 2 ^ (e - -1074)).
Proof.
  intros He; unfold binary_round.
  set (E := fexp prec emax (Zpos (digits2_pos m) + e)).
  assert (HE : -1074 <= E) by (subst E; rewrite fexp_eq; lia).
  pose proof (shl_align_spec m e E) as Hs.
  destruct (shl_align m e E) as [mz ez]. destruct Hs as [Hez Hmz].
  assert (Hk : 0 <= e - ez) by lia.
  pose proof (digits_shift m (e - ez) mz Hk Hmz) as Hd.
  assert (Hpre : ez <= fexp prec emax (Zpos (digits2_pos mz) + ez)).
  { rewrite Hd. replace (Zpos (digits2_pos m) + (e - ez) + ez)
      with (Zpos (digits2_pos m) + e) by lia. fold E. lia. }
  destruct (binary_round_aux_value (-1074) s mz ez ltac:(lia) ltac:(lia) Hpre) as [Hn Hv].
  split; [exact Hn|]. rewrite Hv. fold B1.
  change (-1074 - -1074) with 0.
  assert (Hval : Zpos mz * 2 ^ (ez - -1074) = Zpos m * 2 ^ (e - -1074)).
  { rewrite Hmz, <- Z.mul_assoc, <- Z.pow_add_r by lia. do 2 f_equal; lia. }
  rewrite Hval. reflexivity.
Qed.

Lemma binary_normalize_value (M e : Z) :
  -1074 <= e ->
  binary_normalize prec emax M e false <> S754_nan
  /\ SFvalue (-1074) (binary_normalize prec emax M e false)
     = round_signed 0 B1 (M * 2 ^ (e - -1074)).
Proof.
  intros He. destruct M as [|m|m]; cbn [binary_normalize].
  - split; [discriminate | reflexivity].
  - apply (binary_round_value false m e He).
  - replace (Zneg m * 2 ^ (e - -1074)) with (- (Zpos m * 2 ^ (e - -1074)))
      by (change (Zneg m) with (- Zpos m); ring).
    apply (binary_round_value true m e He).
Qed.

(** A valid finite number is its own rounding. *)
Lemma round_signed_valid (x : spec_float) :
  valid_binary x = true -> finite_or_zero x ->
  round_signed 0 B1 (SFvalue (-1074) x) = SFvalue (-1074) x.
Proof.
  destruct x as [s|s| |s m e]; try contradiction; cbn [SFvalue valid_binary];
    intros V _; [reflexivity|].
  destruct (bounded_facts m e V) as (HE & He & _).
  pose proof (finite_below_B1 m e V) as [Hp Hb].
  pose proof (rnd_scaled (-1074) m e ltac:(lia) ltac:(lia) ltac:(lia)) as Hr.
  cbv zeta in Hr. rewrite HE in Hr. change (-1074 - -1074) with 0 in Hr.
  replace (e - e) with 0 in Hr by lia.
  rewrite rne_div_exact in Hr by (change (2 ^ 0) with 1; apply Z.mod_1_r).
  change (2 ^ 0) with 1 in Hr. rewrite Z.div_1_r in Hr.
  destruct s.
  - rewrite round_signed_neg by lia. rewrite Hr. lia.
  - rewrite round_signed_pos by lia. rewrite Hr. lia.
Qed.

Lemma SFadd_value (x y : spec_float) :
  valid_binary x = true -> valid_binary y = true ->
  finite_or_zero x -> finite_or_zero y ->
  SFadd prec emax x y <> S754_nan
  /\ SFvalue (-1074) (SFadd prec emax x y)
     = round_signed 0 B1 (SFvalue (-1074) x + SFvalue (-1074) y).
Proof.
  intros Vx Vy Fx Fy.
  destruct x as [sx|sx| |sx mx ex]; try contradiction;
    destruct y as [sy|sy| |sy my ey]; try contradiction.
  - cbn [SFadd SFvalue]. destruct sx, sy; split; try discriminate; reflexivity.
  - split; [discriminate|].
    cbn [SFadd]. rewrite <- (round_signed_valid _ Vy Fy) at 1. reflexivity.
  - split; [discriminate|].
    cbn [SFadd]. rewrite <- (round_signed_valid _ Vx Fx) at 1.
    cbn [SFvalue]. rewrite Z.add_0_r. reflexivity.
  - cbn [valid_binary] in Vx, Vy.
    destruct (bounded_facts mx ex Vx) as (_ & Hex & _).
    destruct (bounded_facts my ey Vy) as (_ & Hey & _).
    cbn [SFadd SFvalue].
    pose proof (shl_align_spec mx ex (Z.min ex ey)) as Hx.
    pose proof (shl_align_spec my ey (Z.min ex ey)) as Hy.
    destruct (shl_align mx ex (Z.min ex ey)) as [mx' ex'].
    destruct (shl_align my ey (Z.min ex ey)) as [my' ey'].
    destruct Hx as [Hx1 Hx2]. destruct Hy as [Hy1 Hy2]. cbn [fst].
    destruct (binary_normalize_value
                (cond_Zopp sx (Zpos mx') + cond_Zopp sy (Zpos my')) (Z.min ex ey)
                ltac:(lia)) as [Hn Hv].
    split; [exact Hn|]. rewrite Hv. f_equal.
    assert (Ex : Zpos mx' * 2 ^ (Z.min ex ey - -1074) = Zpos mx * 2 ^ (ex - -1074)).
    { rewrite Hx2, <- Z.mul_assoc, <- Z.pow_add_r by lia. do 2 f_equal; lia. }
    assert (Ey : Zpos my' * 2 ^ (Z.min ex ey - -1074) = Zpos my * 2 ^ (ey - -1074)).
    { rewrite Hy2, <- Z.mul_assoc, <- Z.pow_add_r by lia. do 2 f_equal; lia. }
    rewrite Z.mul_add_distr_r.
    destruct sx, sy; cbn [cond_Zopp]; rewrite ?Z.mul_opp_l, Ex, Ey; reflexivity.
Qed.

(** ** Monotonicity on [spec_float] *)

Lemma scaled_le (x y : Z) : x * 2 ^ 1074 <= y * 2 ^ 1074 -> x <= y.
Proof. intros H. pose proof (pow2_pos 1074 ltac:(lia)). nia. Qed.

Lemma B2_nonneg : 0 <= B2.
Proof. unfold B2. pose proof (pow2_pos (emax - -2148) ltac:(unfold emax; lia)). lia. Qed.

Lemma SFmul_mono (a b c : spec_float) :
  valid_binary a = true -> valid_binary b = true -> valid_binary c = true ->
  a <> S754_nan -> b <> S754_nan ->
  SFvalue (-1074) a <= SFvalue (-1074) b -> 0 <= SFvalue (-1074) c ->
  SFmul prec emax a c <> S754_nan -> SFmul prec emax b c <> S754_nan ->
  valid_binary (SFmul prec emax a c) = true ->
  valid_binary (SFmul prec emax b c) = true ->
  SFvalue (-1074) (SFmul prec emax a c) <= SFvalue (-1074) (SFmul prec emax b c).
Proof.
  intros Va Vb Vc Na Nb Hab Hc Nac Nbc Vac Vbc.
  pose proof B1_pos as HB.
  pose proof (SFvalue_bound _ Vac) as Bac.
  pose proof (SFvalue_bound _ Vbc) as Bbc.
  assert (Hfin : finite_or_zero a -> finite_or_zero b -> finite_or_zero c ->
                 SFvalue (-1074) (SFmul prec emax a c) <= SFvalue (-1074) (SFmul prec emax b c)).
  { intros Fa Fb Fc.
    destruct (SFmul_value a c Va Vc Fa Fc) as [_ Ea].
    destruct (SFmul_value b c Vb Vc Fb Fc) as [_ Eb].
    rewrite SFvalue_rescale in Ea, Eb by assumption.
    apply scaled_le. rewrite Ea, Eb.
    apply round_signed_mono; [lia | apply B2_nonneg | nia]. }
  destruct c as [sc|sc| |sc mc ec].
  - (* c = 0 *)
    destruct a as [sa|sa| |sa ma ea]; try congruence;
      destruct b as [sb|sb| |sb mb eb]; try congruence;
      cbn [SFmul] in *; try congruence; cbn [SFvalue]; lia.
  - (* c infinite *)
    assert (sc = false) by (destruct sc; [cbn [SFvalue] in Hc; fold B1 in Hc; lia | reflexivity]).
    subst sc.
    destruct a as [sa|sa| |sa ma ea]; try congruence;
      destruct b as [sb|sb| |sb mb eb]; try congruence;
      cbn [SFmul] in *; try congruence;
      cbn [SFvalue valid_binary] in *; fold B1 in *;
      try pose proof (finite_below_B1 ma ea Va);
      try pose proof (finite_below_B1 mb eb Vb);
      destruct sa, sb; cbn [xorb]; lia.
  - (* c = NaN *)
    destruct a; cbn [SFmul] in Nac; congruence.
  - (* c finite *)
    assert (sc = false).
    { destruct sc; [|reflexivity]. cbn [SFvalue valid_binary] in Hc, Vc.
      pose proof (finite_below_B1 mc ec Vc). lia. }
    subst sc.
    destruct a as [sa|sa| |sa ma ea]; try congruence;
      destruct b as [sb|sb| |sb mb eb]; try congruence;
      try (apply Hfin; exact I);
      cbn [SFmul] in Bac, Bbc |- *;
      cbn [SFvalue valid_binary] in *; fold B1 in *;
      try pose proof (finite_below_B1 ma ea Va);
      try pose proof (finite_below_B1 mb eb Vb);
      destruct sa, sb; cbn [xorb] in *; lia.
Qed.

Lemma SFadd_mono (a a' b b' : spec_float) :
  valid_binary a = true -> valid_binary a' = true ->
  valid_binary b = true -> valid_binary b' = true ->
  a <> S754_nan -> a' <> S754_nan -> b <> S754_nan -> b' <> S754_nan ->
  SFvalue (-1074) a <= SFvalue (-1074) a' -> SFvalue (-1074) b <= SFvalue (-1074) b' ->
  SFadd prec emax a b <> S754_nan -> SFadd prec emax a' b' <> S754_nan ->
  valid_binary (SFadd prec emax a b) = true ->
  valid_binary (SFadd prec emax a' b') = true ->
  SFvalue (-1074) (SFadd prec emax a b) <= SFvalue (-1074) (SFadd prec emax a' b').
Proof.
  intros Va Va' Vb Vb' Na Na' Nb Nb' Ha Hb Nab Nab' Vab Vab'.
  pose proof B1_pos as HB.
  pose proof (SFvalue_bound _ Vab) as Bab.
  pose proof (SFvalue_bound _ Vab') as Bab'.
  assert (Hfin : finite_or_zero a -> finite_or_zero a' ->
                 finite_or_zero b -> finite_or_zero b' ->
                 SFvalue (-1074) (SFadd prec emax a b) <= SFvalue (-1074) (SFadd prec emax a' b')).
  { intros Fa Fa' Fb Fb'.
    destruct (SFadd_value a b Va Vb Fa Fb) as [_ E1].
    destruct (SFadd_value a' b' Va' Vb' Fa' Fb') as [_ E2].
    rewrite E1, E2. apply round_signed_mono; lia. }
  destruct a as [sa|sa| |sa ma ea]; try congruence;
    destruct a' as [sa'|sa'| |sa' ma' ea']; try congruence;
    destruct b as [sb|sb| |sb mb eb]; try congruence;
    destruct b' as [sb'|sb'| |sb' mb' eb']; try congruence;
    try (apply Hfin; exact I);
    cbn [SFadd] in Bab, Bab', Nab, Nab' |- *;
    cbn [SFvalue valid_binary] in Ha, Hb, Va, Va', Vb, Vb'; fold B1 in *;
    try pose proof (finite_below_B1 ma ea Va);
    try pose proof (finite_below_B1 ma' ea' Va');
    try pose proof (finite_below_B1 mb eb Vb);
    try pose proof (finite_below_B1 mb' eb' Vb');
    repeat match goal with
    | s : bool |- _ => destruct s
    end;
    try congruence; cbn [SFvalue] in *; fold B1 in *; lia.
Qed.

(** ** Primitive floats *)

Lemma SFcompare_nan_l (y : spec_float) : SFcompare S754_nan y = None.
Proof. reflexivity. Qed.

Lemma SFcompare_nan_r (x : spec_float) : SFcompare x S754_nan = None.
Proof. destruct x; reflexivity. Qed.

Lemma compare_floats (x y : float) :
  (Prim2SF x = S754_nan \/ Prim2SF y = S754_nan)
  /\ SFcompare (Prim2SF x) (Prim2SF y) = None
  \/ Prim2SF x <> S754_nan /\ Prim2SF y <> S754_nan
     /\ SFcompare (Prim2SF x) (Prim2SF y) = Some (Fval x ?= Fval y).
Proof.
  destruct (Prim2SF x) eqn:Ex; try (left; split; [left; reflexivity | reflexivity]);
    destruct (Prim2SF y) eqn:Ey;
    try (left; split; [right; reflexivity | reflexivity]);
    right; (split; [discriminate|]); (split; [discriminate|]);
    unfold Fval; rewrite Ex, Ey; rewrite <- Ex, <- Ey;
    apply SFcompare_value; try apply Prim2SF_valid; rewrite ?Ex, ?Ey; discriminate.
Qed.

Lemma is_nan_spec (x : float) : PrimFloat.is_nan x = true <-> Prim2SF x = S754_nan.
Proof.
  unfold PrimFloat.is_nan. rewrite eqb_spec. unfold SFeqb.
  destruct (compare_floats x x) as [([H|H] & ->)|(N & _ & ->)].
  - split; auto.
  - split; auto.
  - rewrite Z.compare_refl. split; [discriminate | congruence].
Qed.

Lemma is_nan_false (x : float) : PrimFloat.is_nan x = false <-> Prim2SF x <> S754_nan.
Proof.
  rewrite <- is_nan_spec. destruct (PrimFloat.is_nan x); split; congruence.
Qed.

Lemma ltb_value (x y : float) :
  PrimFloat.ltb x y = true
  <-> PrimFloat.is_nan x = false /\ PrimFloat.is_nan y = false /\ Fval x < Fval y.
Proof.
  rewrite ltb_spec, !is_nan_false. unfold SFltb.
  destruct (compare_floats x y) as [([H|H] & ->)|(Nx & Ny & ->)].
  - split; [discriminate | intros (? & _); congruence].
  - split; [discriminate | intros (_ & ? & _); congruence].
  - destruct (Z.compare_spec (Fval x) (Fval y)); split; try discriminate;
      try (intros; repeat split; solve [assumption | lia | reflexivity]);
      intros (_ & _ & ?); lia.
Qed.

Lemma leb_value (x y : float) :
  PrimFloat.leb x y = true
  <-> PrimFloat.is_nan x = false /\ PrimFloat.is_nan y = false /\ Fval x <= Fval y.
Proof.
  rewrite leb_spec, !is_nan_false. unfold SFleb.
  destruct (compare_floats x y) as [([H|H] & ->)|(Nx & Ny & ->)].
  - split; [discriminate | intros (? & _); congruence].
  - split; [discriminate | intros (_ & ? & _); congruence].
  - destruct (Z.compare_spec (Fval x) (Fval y)); split; try discriminate;
      try (intros; repeat split; solve [assumption | lia | reflexivity]);
      intros (_ & _ & ?); lia.
Qed.

Lemma eqb_value (x y : float) :
  PrimFloat.eqb x y = true
  <-> PrimFloat.is_nan x = false /\ PrimFloat.is_nan y = false /\ Fval x = Fval y.
Proof.
  rewrite eqb_spec, !is_nan_false. unfold SFeqb.
  destruct (compare_floats x y) as [([H|H] & ->)|(Nx & Ny & ->)].
  - split; [discriminate | intros (? & _); congruence].
  - split; [discriminate | intros (_ & ? & _); congruence].
  - destruct (Z.compare_spec (Fval x) (Fval y)); split; try discriminate;
      try (intros; repeat split; solve [assumption | lia | reflexivity]);
      intros (_ & _ & ?); lia.
Qed.

Lemma ltb_false_value (x y : float) :
  PrimFloat.ltb x y = false ->
  PrimFloat.is_nan x = true \/ PrimFloat.is_nan y = true \/ Fval y <= Fval x.
Proof.
  intros H.
  destruct (PrimFloat.is_nan x) eqn:Nx; [auto|].
  destruct (PrimFloat.is_nan y) eqn:Ny; [auto|].
  right; right. destruct (Z_le_gt_dec (Fval y) (Fval x)) as [|G]; [assumption|].
  assert (PrimFloat.ltb x y = true) by (apply ltb_value; repeat split; auto; lia).
  congruence.
Qed.

Lemma le_or_nan_refl (x : float) : le_or_nan x x.
Proof.
  destruct (PrimFloat.is_nan x) eqn:N; [left; assumption|].
  right; right. apply leb_value; repeat split; auto; lia.
Qed.

Lemma le_or_nan_of_ltb (x y : float) : PrimFloat.ltb x y = true -> le_or_nan x y.
Proof.
  intros H; apply ltb_value in H; destruct H as (Nx & Ny & H).
  right; right; apply leb_value; repeat split; auto; lia.
Qed.

Lemma le_or_nan_not_ltb (x y : float) : le_or_nan x y -> PrimFloat.ltb y x = false.
Proof.
  intros H. destruct (PrimFloat.ltb y x) eqn:L; [|reflexivity].
  apply ltb_value in L; destruct L as (Ny & Nx & L).
  destruct H as [H|[H|H]]; try congruence.
  apply leb_value in H; destruct H as (_ & _ & H); lia.
Qed.

Lemma mul_nan_l (a c : float) :
  PrimFloat.is_nan a = true -> PrimFloat.is_nan (a * c) = true.
Proof.
  rewrite !is_nan_spec, mul_spec; intros ->; reflexivity.
Qed.

Lemma mul_nan_r (a c : float) :
  PrimFloat.is_nan c = true -> PrimFloat.is_nan (a * c) = true.
Proof.
  rewrite !is_nan_spec, mul_spec; intros ->.
  unfold SF64mul; destruct (Prim2SF a); reflexivity.
Qed.

Lemma add_nan_l (a b : float) :
  PrimFloat.is_nan a = true -> PrimFloat.is_nan (a + b) = true.
Proof.
  rewrite !is_nan_spec, add_spec; intros ->; reflexivity.
Qed.

Lemma add_nan_r (a b : float) :
  PrimFloat.is_nan b = true -> PrimFloat.is_nan (a + b) = true.
Proof.
  rewrite !is_nan_spec, add_spec; intros ->.
  unfold SF64add; destruct (Prim2SF a); reflexivity.
Qed.

(** Multiplication by a number that is not negative keeps the order. *)
Lemma mul_le_or_nan (a b c : float) :
  le_or_nan a b -> PrimFloat.ltb c 0 = false -> le_or_nan (a * c) (b * c).
Proof.
  intros Hab Hc.
  destruct (PrimFloat.is_nan (a * c)) eqn:Nac; [left; assumption|].
  destruct (PrimFloat.is_nan (b * c)) eqn:Nbc; [right; left; assumption|].
  right; right.
  assert (Na : PrimFloat.is_nan a = false).
  { destruct (PrimFloat.is_nan a) eqn:N; [|reflexivity].
    rewrite (mul_nan_l a c N) in Nac; discriminate. }
  assert (Nb : PrimFloat.is_nan b = false).
  { destruct (PrimFloat.is_nan b) eqn:N; [|reflexivity].
    rewrite (mul_nan_l b c N) in Nbc; discriminate. }
  assert (Nc : PrimFloat.is_nan c = false).
  { destruct (PrimFloat.is_nan c) eqn:N; [|reflexivity].
    rewrite (mul_nan_r a c N) in Nac; discriminate. }
  destruct Hab as [H|[H|H]]; try congruence.
  apply leb_value in H; destruct H as (_ & _ & Hab).
  apply ltb_false_value in Hc. destruct Hc as [Hc|[Hc|Hc]]; try congruence;
    [vm_compute in Hc; discriminate|].
  change (Fval 0) with 0 in Hc.
  apply leb_value; repeat split; auto.
  apply is_nan_false in Na, Nb, Nc, Nac, Nbc.
  pose proof (Prim2SF_valid (a * c)) as Vac.
  pose proof (Prim2SF_valid (b * c)) as Vbc.
  unfold Fval in *. rewrite (mul_spec a c) in *. rewrite (mul_spec b c) in *.
  unfold SF64mul in *.
  apply SFmul_mono; try apply Prim2SF_valid; auto.
Qed.

(** Addition keeps the order. *)
Lemma add_le_or_nan (a a' b b' : float) :
  le_or_nan a a' -> le_or_nan b b' -> le_or_nan (a + b) (a' + b').
Proof.
  intros Ha Hb.
  destruct (PrimFloat.is_nan (a + b)) eqn:Nab; [left; assumption|].
  destruct (PrimFloat.is_nan (a' + b')) eqn:Nab'; [right; left; assumption|].
  right; right.
  assert (Na : PrimFloat.is_nan a = false).
  { destruct (PrimFloat.is_nan a) eqn:N; [|reflexivity].
    rewrite (add_nan_l a b N) in Nab; discriminate. }
  assert (Nb : PrimFloat.is_nan b = false).
  { destruct (PrimFloat.is_nan b) eqn:N; [|reflexivity].
    rewrite (add_nan_r a b N) in Nab; discriminate. }
  assert (Na' : PrimFloat.is_nan a' = false).
  { destruct (PrimFloat.is_nan a') eqn:N; [|reflexivity].
    rewrite (add_nan_l a' b' N) in Nab'; discriminate. }
  assert (Nb' : PrimFloat.is_nan b' = false).
  { destruct (PrimFloat.is_nan b') eqn:N; [|reflexivity].
    rewrite (add_nan_r a' b' N) in Nab'; discriminate. }
  destruct Ha as [H|[H|Ha]]; try congruence.
  destruct Hb as [H|[H|Hb]]; try congruence.
  apply leb_value in Ha; destruct Ha as (_ & _ & Ha).
  apply leb_value in Hb; destruct Hb as (_ & _ & Hb).
  apply leb_value; repeat split; auto.
  apply is_nan_false in Na, Nb, Na', Nb', Nab, Nab'.
  pose proof (Prim2SF_valid (a + b)) as Vab.
  pose proof (Prim2SF_valid (a' + b')) as Vab'.
  unfold Fval in *. rewrite (add_spec a b) in *. rewrite (add_spec a' b') in *.
  unfold SF64add in *.
  apply SFadd_mono; try apply Prim2SF_valid; auto.
Qed.

Lemma binary_round_aux_sign (s : bool) (m e : Z) (l : location) :
  sign_is s (binary_round_aux prec emax s m e l).
Proof.
  unfold binary_round_aux.
  destruct (shr_fexp prec emax m e l) as [mrs' e'].
  destruct (shr_fexp prec emax _ e' loc_Exact) as [mrs'' e''].
  destruct (shr_m mrs''); [reflexivity | | exact I].
  destruct (e'' <=? emax - prec); reflexivity.
Qed.

Lemma sign_is_nonneg (x : spec_float) : sign_is false x -> 0 <= SFvalue (-1074) x.
Proof.
  destruct x as [s|s| |s m e]; cbn [sign_is SFvalue]; intros H; subst; lia.
Qed.

(** The quotient of a number that is not negative by a positive number is
    not negative. *)
Lemma div_not_negative (x y : float) :
  PrimFloat.ltb x 0 = false -> PrimFloat.ltb 0 y = true ->
  PrimFloat.ltb (x / y) 0 = false.
Proof.
  intros Hx Hy.
  destruct (PrimFloat.ltb (x / y) 0) eqn:L; [|reflexivity].
  apply ltb_value in L; destruct L as (Nr & _ & L). change (Fval 0) with 0 in L.
  apply ltb_value in Hy; destruct Hy as (_ & Ny & Hy). change (Fval 0) with 0 in Hy.
  apply ltb_false_value in Hx. change (Fval 0) with 0 in Hx.
  assert (HB : 0 < 2 ^ (emax - -1074)) by (apply pow2_pos; unfold emax; lia).
  assert (Hs : 0 <= SFvalue (-1074) (Prim2SF (x / y))).
  { rewrite div_spec. unfold SF64div.
    apply is_nan_false in Nr. rewrite div_spec in Nr. unfold SF64div in Nr.
    pose proof (Prim2SF_valid x) as Vx. pose proof (Prim2SF_valid y) as Vy.
    unfold Fval in *.
    destruct Hx as [Hx|[Hx|Hx]];
      [apply is_nan_spec in Hx; rewrite Hx in *; cbn [SFdiv] in Nr; congruence
      | vm_compute in Hx; discriminate |].
    destruct (Prim2SF y) as [sy|sy| |sy my ey]; cbn [SFvalue valid_binary] in Hy, Vy;
      try lia.
    - destruct sy; [lia|].
      destruct (Prim2SF x) as [sx|sx| |sx mx ex]; cbn [SFdiv] in Nr |- *;
        try congruence; cbn [SFvalue]; lia.
    - pose proof (finite_below_B1 my ey Vy).
      destruct sy; [lia|].
      destruct (Prim2SF x) as [sx|sx| |sx mx ex]; cbn [SFvalue valid_binary] in Hx, Vx;
        cbn [SFdiv] in Nr |- *; try congruence.
      + cbn [SFvalue]; lia.
      + destruct sx; [lia|]. cbn [xorb SFvalue]. lia.
      + pose proof (finite_below_B1 mx ex Vx).
        destruct sx; [lia|].
        destruct (SFdiv_core_binary prec emax (Zpos mx) ex (Zpos my) ey) as [[mz ez] lz].
        apply sign_is_nonneg, binary_round_aux_sign. }
  unfold Fval in L. lia.
Qed.


Lemma ltb_not_nan_l (x y : float) : PrimFloat.ltb x y = true -> PrimFloat.is_nan x = false.
Proof. intros H; apply ltb_value in H; tauto. Qed.

Lemma ltb_not_nan_r (x y : float) : PrimFloat.ltb x y = true -> PrimFloat.is_nan y = false.
Proof. intros H; apply ltb_value in H; tauto. Qed.

(** * Properties of the engine *)

#[local] Close Scope Z_scope.
Import App Render Sites.

(** ** Completions and loops *)

Lemma forEach_app {S A : Type} (f : S -> A -> Completion S) (l1 l2 : list A) (s : S) :
  forEach f (l1 ++ l2) s = bind (forEach f l1 s) (forEach f l2).
Proof.
  revert s; induction l1 as [|a l1 IH]; intros s; simpl; [reflexivity|].
  destruct (f s a); simpl; [apply IH | reflexivity].
Qed.

(** A loop whose callback returns normally on the members of the list
    returns normally, and keeps what every step keeps. *)
Lemma forEach_normal {S A : Type} (f : S -> A -> Completion S) (R : S -> S -> Prop)
    (l : list A) :
  (forall s, R s s) ->
  (forall s1 s2 s3, R s1 s2 -> R s2 s3 -> R s1 s3) ->
  (forall s a, In a l -> exists s', f s a = Normal s' /\ R s s') ->
  forall s, exists s', forEach f l s = Normal s' /\ R s s'.
Proof.
  intros Hrefl Htrans; induction l as [|a l IH]; intros Hstep s; simpl.
  - exists s; split; [reflexivity | apply Hrefl].
  - destruct (Hstep s a (or_introl eq_refl)) as (s1 & E1 & R1).
    rewrite E1; simpl.
    destruct (IH (fun s0 a0 H => Hstep s0 a0 (or_intror H)) s1) as (s2 & E2 & R2).
    exists s2; split; [exact E2 | eapply Htrans; eassumption].
Qed.

Lemma fold_left_keeps {S A : Type} (f : S -> A -> S) (R : S -> S -> Prop) (l : list A) :
  (forall s, R s s) ->
  (forall s1 s2 s3, R s1 s2 -> R s2 s3 -> R s1 s3) ->
  (forall s a, In a l -> R s (f s a)) ->
  forall s, R s (fold_left f l s).
Proof.
  intros Hrefl Htrans; induction l as [|a l IH]; intros Hstep s; simpl.
  - apply Hrefl.
  - eapply Htrans; [apply Hstep; left; reflexivity|].
    apply IH; intros; apply Hstep; right; assumption.
Qed.

(** ** Appended messages *)

Section Appends.
Variable P : CategorizedMessage -> Prop.

Lemma appends_refl msgs : appends P msgs msgs.
Proof. exists []; split; [symmetry; apply app_nil_r | constructor]. Qed.

Lemma appends_trans m1 m2 m3 : appends P m1 m2 -> appends P m2 m3 -> appends P m1 m3.
Proof.
  intros (t1 & -> & F1) (t2 & -> & F2).
  exists (t1 ++ t2); split; [symmetry; apply app_assoc | apply Forall_app; split; assumption].
Qed.

Lemma appends_add level body msgs :
  P (message level body) -> appends P msgs (add level body msgs).
Proof. intros H; exists [message level body]; split; [reflexivity | repeat constructor; exact H]. Qed.

Lemma appends_Forall msgs msgs' : Forall P msgs -> appends P msgs msgs' -> Forall P msgs'.
Proof. intros F (t & -> & Ft); apply Forall_app; split; assumption. Qed.

Lemma appends_In msgs msgs' m : appends P msgs msgs' -> In m msgs -> In m msgs'.
Proof. intros (t & -> & _) H; apply in_or_app; left; exact H. Qed.
End Appends.

Lemma appends_weaken (P Q : CategorizedMessage -> Prop) msgs msgs' :
  (forall m, P m -> Q m) -> appends P msgs msgs' -> appends Q msgs msgs'.
Proof.
  intros H (t & -> & F); exists t; split; [reflexivity|].
  eapply Forall_impl; eassumption.
Qed.

(** ** Every pushed message comes from an add site *)

Ltac split_andb :=
  repeat match goal with
  | H : (_ && _)%bool = true |- _ => apply andb_prop in H; destruct H
  | H : negb _ = true |- _ => apply negb_true_iff in H
  end.

Lemma length_zero_nil {A : Type} (l : list A) : (List.length l =? 0)%nat = true -> l = [].
Proof. destruct l; [reflexivity | discriminate]. Qed.

Lemma length_pos_not_nil {A : Type} (l : list A) : (0 <? List.length l)%nat = true -> l <> [].
Proof. destruct l; [discriminate | discriminate]. Qed.

Lemma length_not_pos_nil {A : Type} (l : list A) : (0 <? List.length l)%nat = false -> l = [].
Proof. destruct l; [reflexivity | discriminate]. Qed.

Section Emits.
Variables (cs : list AnyComponent) (st : ComputedStats) (si : SystemInputs).
Let E := Emitted cs st si.
Let Closing m := E RNotes m \/ E RSummary m.

Lemma unassignedNote_emits msgs : appends (E RUnassigned) msgs (unassignedNote cs msgs).
Proof.
  unfold unassignedNote; cbv zeta.
  destruct (0 <? List.length (unassignedArrays (arrays cs)))%nat eqn:Hu;
    [|apply appends_refl].
  apply length_pos_not_nil in Hu.
  destruct (0 <? List.length (mppts cs))%nat eqn:Hm; apply appends_add.
  - apply Em_unassignedWarn; [exact Hu | apply length_pos_not_nil; exact Hm].
  - apply Em_unassignedInfo; [exact Hu | apply length_not_pos_nil; exact Hm].
Qed.

Lemma vocCheck_emits mppt a p msgs :
  In mppt (mppts cs) -> In a (assignedTo (arrays cs) mppt) ->
  findPanel (panels cs) a = Some p ->
  appends (E RMppt) msgs
    (vocCheck a mppt (getNum (voc (properties p))) (getNum (panelsInSeries (properties a)))
       (getNum (maxInputVoltage (properties mppt))) msgs).
Proof.
  intros Hm Ha Hp; unfold vocCheck; cbv zeta.
  destruct (negb (JS.isNaN (getNum (voc (properties p))))
            && negb (JS.isNaN (getNum (panelsInSeries (properties a))))
            && negb (JS.isNaN (getNum (maxInputVoltage (properties mppt))))) eqn:Hn;
    [|apply appends_refl].
  split_andb.
  assert (Hc : VocChecked cs mppt a p) by (repeat split; assumption).
  fold (arrayVocOf p a).
  destruct (JS.gtb (arrayVocOf p a) (getNum (maxInputVoltage (properties mppt)))) eqn:G1.
  { apply appends_add, Em_vocExceeds; assumption. }
  destruct (JS.gtb (arrayVocOf p a * VOC_SAFETY_MARGIN_FACTOR_MIN)
              (getNum (maxInputVoltage (properties mppt)))) eqn:G2.
  { apply appends_add, Em_vocHeadroom; assumption. }
  destruct (JS.gtb (arrayVocOf p a * VOC_SAFETY_MARGIN_FACTOR_IDEAL)
              (getNum (maxInputVoltage (properties mppt)))) eqn:G3.
  { apply appends_add, Em_vocMargin; assumption. }
  apply appends_refl.
Qed.

Lemma assignedStep_emits mppt s a :
  In mppt (mppts cs) -> In a (assignedTo (arrays cs) mppt) ->
  exists s',
    assignedStep (panels cs) mppt (getNum (maxInputVoltage (properties mppt))) s a = Normal s'
    /\ appends (E RMppt) (fst (fst s)) (fst (fst s')).
Proof.
  intros Hm Ha; destruct s as [[msgs aggI] aggP]; unfold assignedStep; cbv zeta.
  destruct (findPanel (panels cs) a) as [p|] eqn:Hp; simpl.
  - eexists; split; [reflexivity|]; simpl.
    apply vocCheck_emits; assumption.
  - eexists; split; [reflexivity|]; apply appends_refl.
Qed.

Lemma aggregateChecks_emits mppt aggI aggP msgs :
  In mppt (mppts cs) -> appends (E RMppt) msgs (aggregateChecks mppt aggI aggP msgs).
Proof.
  intros Hm; unfold aggregateChecks; cbv zeta.
  match goal with
  | |- appends _ _ (if _ then _ else ?m1) => apply appends_trans with (m2 := m1)
  end.
  - destruct (negb (JS.isNaN (getNum (maxInputCurrent (properties mppt))))
              && JS.gtb (getNum (maxInputCurrent (properties mppt))) 0);
      [|apply appends_refl].
    destruct (JS.gtb aggI (getNum (maxInputCurrent (properties mppt)))) eqn:G1.
    { apply appends_add, Em_iscExceeds; assumption. }
    destruct (JS.gtb aggI (getNum (maxInputCurrent (properties mppt)) * 0.9)) eqn:G2.
    { apply appends_add, Em_iscNear; assumption. }
    apply appends_refl.
  - match goal with |- appends _ _ (if ?c then _ else _) => destruct c end;
      [|apply appends_refl].
    match goal with |- appends _ _ (if ?c then _ else _) => destruct c end.
    { apply appends_add, Em_clipping; assumption. }
    match goal with |- appends _ _ (if ?c then _ else _) => destruct c end.
    { apply appends_add, Em_overProvisioned; assumption. }
    apply appends_refl.
Qed.

Lemma mpptStep_emits msgs mppt :
  In mppt (mppts cs) ->
  exists msgs',
    mpptStep (arrays cs) (panels cs) msgs mppt = Normal msgs' /\ appends (E RMppt) msgs msgs'.
Proof.
  intros Hm; unfold mpptStep; cbv zeta.
  set (msgs1 := if (List.length (assignedTo (arrays cs) mppt) =? 0)%nat
                then add Warn (noAssignedText mppt) msgs else msgs).
  assert (H1 : appends (E RMppt) msgs msgs1).
  { subst msgs1.
    destruct (List.length (assignedTo (arrays cs) mppt) =? 0)%nat eqn:Hl;
      [|apply appends_refl].
    apply appends_add, Em_noAssigned; [assumption | apply length_zero_nil; exact Hl]. }
  destruct (forEach_normal
              (assignedStep (panels cs) mppt (getNum (maxInputVoltage (properties mppt))))
              (fun s s' => appends (E RMppt) (fst (fst s)) (fst (fst s')))
              (assignedTo (arrays cs) mppt))
    with (s := (msgs1, 0%float, 0%float)) as (s' & Es & Rs).
  - intros; apply appends_refl.
  - intros ? ? ?; apply appends_trans.
  - intros s a Ha; apply assignedStep_emits; assumption.
  - rewrite Es; simpl. destruct s' as [[msgs2 aggI] aggP]; simpl in Rs.
    eexists; split; [reflexivity|].
    eapply appends_trans; [exact H1|].
    eapply appends_trans; [exact Rs|].
    apply aggregateChecks_emits; assumption.
Qed.

Lemma mpptLoop_emits msgs :
  exists msgs',
    forEach (mpptStep (arrays cs) (panels cs)) (mppts cs) msgs = Normal msgs'
    /\ appends (E RMppt) msgs msgs'.
Proof.
  apply forEach_normal with (R := appends (E RMppt)).
  - apply appends_refl.
  - apply appends_trans.
  - intros s a Ha; apply mpptStep_emits; exact Ha.
Qed.

Lemma batteryCheck_emits msgs b :
  In b (batteries cs) ->
  appends (E RBattery) msgs (batteryCheck st (totalMpptOutputCurrent (mppts cs)) msgs b).
Proof.
  intros Hb; unfold batteryCheck; cbv zeta.
  destruct (negb (JS.isNaN (getNum (capacityAh (properties b))))
            && JS.gtb (getNum (capacityAh (properties b))) 0) eqn:Hc;
    [|apply appends_refl].
  split_andb.
  eapply appends_trans with
    (m2 := chargeCheck b (totalMpptOutputCurrent (mppts cs))
             (getNum (maxChargeCurrent (properties b))) msgs).
  - unfold chargeCheck; cbv zeta.
    destruct (negb (JS.isNaN (getNum (maxChargeCurrent (properties b))))
              && JS.gtb (getNum (maxChargeCurrent (properties b))) 0) eqn:Hg;
      [|apply appends_refl].
    split_andb.
    assert (ChargeChecked cs b) by (repeat split; assumption).
    destruct (JS.gtb (totalMpptOutputCurrent (mppts cs))
                (getNum (maxChargeCurrent (properties b)))) eqn:G1.
    { apply appends_add, Em_chargeExceeds; assumption. }
    destruct (JS.gtb (totalMpptOutputCurrent (mppts cs))
                (getNum (maxChargeCurrent (properties b)) * 0.9)) eqn:G2.
    { apply appends_add, Em_chargeNear; assumption. }
    apply appends_refl.
  - unfold dischargeCheck; cbv zeta.
    match goal with |- appends _ _ (if ?c then _ else _) => destruct c end;
      [|apply appends_refl].
    match goal with |- appends _ _ (if ?c then _ else _) => destruct c end.
    { apply appends_add, Em_dischargeExceeds; assumption. }
    match goal with |- appends _ _ (if ?c then _ else _) => destruct c end.
    { apply appends_add, Em_dischargeNear; assumption. }
    apply appends_refl.
Qed.

Lemma inverterCheck_emits msgs inv :
  In inv (inverters cs) -> appends (E RInverter) msgs (inverterCheck si msgs inv).
Proof.
  intros Hi; unfold inverterCheck; cbv zeta.
  match goal with
  | |- appends _ _ (if _ then _ else if _ then _ else ?m1) =>
      apply appends_trans with (m2 := m1)
  end.
  - match goal with |- appends _ _ (if ?c then _ else _) => destruct c end.
    { apply appends_add, Em_belowMinimum; assumption. }
    match goal with |- appends _ _ (if ?c then _ else _) => destruct c end.
    { apply appends_add, Em_nearMinimum; assumption. }
    apply appends_refl.
  - match goal with |- appends _ _ (if ?c then _ else _) => destruct c end.
    { apply appends_add, Em_aboveMaximum; assumption. }
    match goal with |- appends _ _ (if ?c then _ else _) => destruct c end.
    { apply appends_add, Em_nearMaximum; assumption. }
    apply appends_refl.
Qed.

Lemma productionNotes_emits msgs : appends (E RProduction) msgs (productionNotes cs st si msgs).
Proof.
  unfold productionNotes; cbv zeta.
  set (m1 := if JS.strictEq (totalSolarPower st) 0 && (0 <? List.length (arrays cs))%nat
             then add Warn noPmaxText msgs else msgs).
  set (m2 := if JS.strictEq (estimatedDailyUsageWh si) 0 && (0 <? List.length cs)%nat
             then add Warn zeroUsageText m1 else m1).
  set (m3 := if PrimFloat.ltb (estimatedBatteryAutonomyDays st) 0.5
                && JS.gtb (estimatedBatteryAutonomyDays st) 0
             then add WarnSizing autonomyText m2 else m2).
  assert (H1 : appends (E RProduction) msgs m1).
  { subst m1. match goal with |- appends _ _ (if ?c then _ else _) => destruct c eqn:Hc end;
      [|apply appends_refl].
    split_andb. apply appends_add, Em_noPmax, length_pos_not_nil; assumption. }
  assert (H2 : appends (E RProduction) m1 m2).
  { subst m2. match goal with |- appends _ _ (if ?c then _ else _) => destruct c eqn:Hc end;
      [|apply appends_refl].
    split_andb. apply appends_add, Em_zeroUsage, length_pos_not_nil; assumption. }
  assert (H3 : appends (E RProduction) m2 m3).
  { subst m3. match goal with |- appends _ _ (if ?c then _ else _) => destruct c eqn:Hc end;
      [|apply appends_refl].
    apply appends_add, Em_autonomy. }
  eapply appends_trans; [exact H1|].
  eapply appends_trans; [exact H2|].
  eapply appends_trans; [exact H3|].
  destruct (productionToConsumptionRatioPercentage st) as [r|] eqn:Hr; [|apply appends_refl].
  destruct (PrimFloat.ltb r 80) eqn:Hlt.
  { apply appends_add, Em_deficit with (r := r); assumption. }
  destruct (JS.gtb r 150) eqn:Hgt.
  { apply appends_add, Em_surplus with (r := r); assumption. }
  apply appends_refl.
Qed.

Lemma closingNotes_emits msgs : appends Closing msgs (closingNotes cs msgs).
Proof.
  unfold closingNotes; cbv zeta.
  eapply appends_trans; [apply appends_add; left; apply Em_idealWiring|].
  eapply appends_trans; [apply appends_add; left; apply Em_codes|].
  destruct (0 <? List.length cs)%nat eqn:Hc; [|apply appends_refl].
  apply length_pos_not_nil in Hc.
  match goal with |- appends _ _ (if ?c then _ else _) => destruct c end.
  { apply appends_add; right; apply Em_critical; assumption. }
  match goal with |- appends _ _ (if ?c then _ else _) => destruct c end.
  { apply appends_add; right; apply Em_warnings; assumption. }
  apply appends_add; right; apply Em_compatible; assumption.
Qed.

Lemma Later_of r m : r <> REmpty -> r <> RMixed -> E r m -> Later cs st si m.
Proof. intros; exists r; auto. Qed.

(** [messages] returns normally: the nudge of an empty system, the error
    of mixed battery voltages, then the messages of the later rules. *)
Lemma messages_structure :
  exists rest,
    messages cs st si
    = Normal ((if (List.length cs =? 0)%nat then [message Info nudgeText] else [])
              ++ (if voltageConsistencyIssue st then [message Error mixedVoltagesText] else [])
              ++ rest)
    /\ Forall (Later cs st si) rest.
Proof.
  unfold messages; cbv zeta.
  set (m1 := if (List.length cs =? 0)%nat then add Info nudgeText [] else []).
  set (m2 := if voltageConsistencyIssue st then add Error mixedVoltagesText m1 else m1).
  assert (H12 : m2 = (if (List.length cs =? 0)%nat then [message Info nudgeText] else [])
                     ++ (if voltageConsistencyIssue st
                         then [message Error mixedVoltagesText] else [])).
  { subst m2 m1. destruct (List.length cs =? 0)%nat, (voltageConsistencyIssue st);
      reflexivity. }
  destruct (mpptLoop_emits (unassignedNote cs m2)) as (m4 & E4 & H4).
  rewrite E4; cbn [bind].
  assert (HL : appends (Later cs st si) m2
                 (closingNotes cs
                    (productionNotes cs st si
                       (fold_left (inverterCheck si) (inverters cs)
                          (fold_left (batteryCheck st (totalMpptOutputCurrent (mppts cs)))
                             (batteries cs) m4))))).
  { eapply appends_trans;
      [eapply appends_weaken; [|apply unassignedNote_emits];
       intros m; apply Later_of; discriminate|].
    eapply appends_trans;
      [eapply appends_weaken; [|exact H4]; intros m; apply Later_of; discriminate|].
    eapply appends_trans;
      [|eapply appends_weaken; [|apply closingNotes_emits];
        intros m [H|H]; revert H; apply Later_of; discriminate].
    eapply appends_trans;
      [|eapply appends_weaken; [|apply productionNotes_emits];
        intros m; apply Later_of; discriminate].
    eapply appends_trans;
      [|eapply appends_weaken;
        [|apply fold_left_keeps with (R := appends (E RInverter));
          [apply appends_refl | apply appends_trans
          | intros; apply inverterCheck_emits; assumption]];
        intros m; apply Later_of; discriminate].
    eapply appends_weaken;
      [|apply fold_left_keeps with (R := appends (E RBattery));
        [apply appends_refl | apply appends_trans
        | intros; apply batteryCheck_emits; assumption]].
    intros m; apply Later_of; discriminate. }
  destruct HL as (rest & -> & F).
  exists rest; split; [|exact F].
  rewrite H12, <- app_assoc. reflexivity.
Qed.

(** Every message [messages] returns comes from an add site. *)
Lemma messages_emitted :
  exists msgs, messages cs st si = Normal msgs /\ Forall (EmittedBy cs st si) msgs.
Proof.
  destruct messages_structure as (rest & -> & F).
  eexists; split; [reflexivity|].
  apply Forall_app; split; [|apply Forall_app; split].
  - destruct (List.length cs =? 0)%nat eqn:Hc; constructor; [|constructor].
    exists REmpty; apply Em_nudge, length_zero_nil; exact Hc.
  - destruct (voltageConsistencyIssue st) eqn:Hv; constructor; [|constructor].
    exists RMixed; apply Em_mixed; exact Hv.
  - eapply Forall_impl; [|exact F]. intros m (r & _ & _ & H); exists r; exact H.
Qed.
End Emits.

(** ** The aggregator returns normally *)

Lemma solarPowerStep_normal ps acc arr : exists acc', solarPowerStep ps acc arr = Normal acc'.
Proof.
  unfold solarPowerStep.
  destruct (findPanel ps arr) as [p|]; simpl; [|eexists; reflexivity].
  match goal with |- context [if ?c then _ else _] => destruct c end; eexists; reflexivity.
Qed.

Lemma solarPower_normal ps arrs acc :
  exists total, forEach (solarPowerStep ps) arrs acc = Normal total.
Proof.
  destruct (forEach_normal (solarPowerStep ps) (fun _ _ => True) arrs) with (s := acc)
    as (t & Et & _); auto.
  - intros s a _; destruct (solarPowerStep_normal ps s a) as (s' & Es); eauto.
  - eauto.
Qed.

(** The fields of the record [stats] returns, as far as the claims read them. *)
Lemma stats_fields cs si :
  exists st,
    stats cs si = Normal st
    /\ forEach (solarPowerStep (panels cs)) (arrays cs) 0%float = Normal (totalSolarPower st)
    /\ estimatedDailySolarProductionWh st
       = (totalSolarPower st * peakSunHours si * (solarPanelEfficiency si / 100))%float
    /\ panelInterconnectCables st = fold_left panelInterconnectStep (arrays cs) 0%float
    /\ arrayToChargerCables st = fold_left arrayToChargerStep (arrays cs) 0%float
    /\ (let bv := snd (fold_left batteryStep (batteries cs) (0%float, [])) in
        voltageConsistencyIssue st
        = ((0 <? List.length bv)%nat && (1 <? List.length bv)%nat)%bool
        /\ systemNominalVoltage st
           = if (0 <? List.length bv)%nat
             then match nth_error bv 0 with
                  | Some v => JS.toString v
                  | None => "undefined"%string
                  end
             else "N/A"%string).
Proof.
  unfold stats.
  destruct (solarPower_normal (panels cs) (arrays cs) 0%float) as (t & Et).
  rewrite Et; simpl bind.
  destruct (fold_left batteryStep (batteries cs) (0%float, [])) as [cap bv].
  destruct (0 <? List.length bv)%nat eqn:Hb;
    (eexists; split; [reflexivity|]; simpl; rewrite ?Hb; repeat split; reflexivity).
Qed.

Lemma stats_normal cs si : exists st, stats cs si = Normal st.
Proof. destruct (stats_fields cs si) as (st & E & _); eauto. Qed.

Lemma evaluate_emitted cs si :
  exists st msgs,
    evaluate cs si = Normal (st, msgs) /\ stats cs si = Normal st
    /\ messages cs st si = Normal msgs /\ Forall (EmittedBy cs st si) msgs.
Proof.
  destruct (stats_normal cs si) as (st & Es).
  destruct (messages_emitted cs st si) as (msgs & Em & F).
  exists st, msgs; unfold evaluate; rewrite Es; simpl; rewrite Em; simpl; auto.
Qed.

(** ** Strings *)

Lemma prefix_append (p s : string) : String.prefix p (p ++ s) = true.
Proof.
  induction p as [|c p IH]; simpl; [destruct s; reflexivity|].
  destruct (ascii_dec c c) as [_|N]; [exact IH | congruence].
Qed.


Lemma Emitted_message cs st si m :
  EmittedBy cs st si m -> exists body, m = message (level m) body.
Proof. intros (r & H); destruct H; eexists; reflexivity. Qed.

(** C9: every message of the diagnostics begins with the prefix of its
    level, ['Error:'] for [error], ['Warning (Safety Margin):'] for
    [warn-safety], ['Warning (Sizing):'] for [warn-sizing],
    ['Warning (C-Rate):'] for [warn-c-rate], ['Warning:'] for [warn],
    ['Info (Safety Margin):'] for [info-safety] and ['Info:'] for [info],
    whatever the components, the statistics and the system inputs are. *)
Theorem message_prefix_invariant :
  map levelPrefixMap [Error; WarnSafety; WarnSizing; WarnCRate; Warn; InfoSafety; Info]
  = ["Error:"; "Warning (Safety Margin):"; "Warning (Sizing):"; "Warning (C-Rate):";
     "Warning:"; "Info (Safety Margin):"; "Info:"]%string
  /\ forall cs st si,
       exists msgs,
         messages cs st si = Normal msgs
         /\ Forall (fun m => JS.startsWith (text m) (levelPrefixMap (level m)) = true) msgs.
Proof.
  split; [reflexivity|].
  intros cs st si.
  destruct (messages_emitted cs st si) as (msgs & Em & F).
  exists msgs; split; [exact Em|].
  eapply Forall_impl; [|exact F].
  intros m H; apply Emitted_message in H; destruct H as (body & ->).
  unfold JS.startsWith; simpl; apply prefix_append.
Qed.

(** ** What the step at one member establishes survives the loop *)

Lemma forEach_reaches {S A : Type} (f : S -> A -> Completion S) (Q : S -> Prop)
    (l : list A) (a : A) :
  In a l ->
  (forall s a', In a' l -> exists s', f s a' = Normal s' /\ (Q s -> Q s')) ->
  (forall s, exists s', f s a = Normal s' /\ Q s') ->
  forall s, exists s', forEach f l s = Normal s' /\ Q s'.
Proof.
  intros Hin Hkeep Hhere.
  assert (Hall : forall l', incl l' l -> forall s, Q s ->
                   exists s', forEach f l' s = Normal s' /\ Q s').
  { induction l' as [|x l' IH]; intros Hsub s Hq; simpl; [eauto|].
    destruct (Hkeep s x (Hsub x (or_introl eq_refl))) as (s1 & E1 & K1).
    rewrite E1; simpl; apply IH; [intros y Hy; apply Hsub; right; exact Hy | auto]. }
  assert (Hgen : forall l', incl l' l -> In a l' -> forall s,
                   exists s', forEach f l' s = Normal s' /\ Q s').
  { induction l' as [|x l' IH]; intros Hsub Ha s; [destruct Ha|].
    simpl; destruct Ha as [->|Ha].
    - destruct (Hhere s) as (s1 & E1 & Q1); rewrite E1; simpl.
      apply Hall; [intros y Hy; apply Hsub; right; exact Hy | exact Q1].
    - destruct (Hkeep s x (Hsub x (or_introl eq_refl))) as (s1 & E1 & _).
      rewrite E1; simpl; apply IH; [intros y Hy; apply Hsub; right; exact Hy | exact Ha]. }
  apply Hgen; [apply incl_refl | exact Hin].
Qed.

Lemma fold_left_reaches {S A : Type} (f : S -> A -> S) (Q : S -> Prop)
    (l : list A) (a : A) :
  In a l ->
  (forall s a', In a' l -> Q s -> Q (f s a')) ->
  (forall s, Q (f s a)) ->
  forall s, Q (fold_left f l s).
Proof.
  intros Hin Hkeep Hhere.
  assert (Hall : forall l', incl l' l -> forall s, Q s -> Q (fold_left f l' s)).
  { induction l' as [|x l' IH]; intros Hsub s Hq; simpl; [exact Hq|].
    apply IH; [intros y Hy; apply Hsub; right; exact Hy|].
    apply Hkeep; [apply Hsub; left; reflexivity | exact Hq]. }
  assert (Hgen : forall l', incl l' l -> In a l' -> forall s, Q (fold_left f l' s)).
  { induction l' as [|x l' IH]; intros Hsub Ha s; [destruct Ha|].
    simpl; destruct Ha as [->|Ha].
    - apply Hall; [intros y Hy; apply Hsub; right; exact Hy | apply Hhere].
    - apply IH; [intros y Hy; apply Hsub; right; exact Hy | exact Ha]. }
  apply Hgen; [apply incl_refl | exact Hin].
Qed.

Lemma In_add level body msgs : In (message level body) (add level body msgs).
Proof. unfold add; apply in_or_app; right; left; reflexivity. Qed.

Section Reaches.
Variables (cs : list AnyComponent) (st : ComputedStats) (si : SystemInputs).

(** A message in [msgs] before the loop over the MPPTs, or pushed by it,
    is in the result of [messages]. *)
Lemma messages_after_mppts (m : CategorizedMessage) :
  (forall msgs0, exists msgs1,
      forEach (mpptStep (arrays cs) (panels cs)) (mppts cs) msgs0 = Normal msgs1
      /\ In m msgs1) ->
  exists msgs, messages cs st si = Normal msgs /\ In m msgs.
Proof.
  intros H; unfold messages; cbv zeta.
  match goal with
  | |- context [forEach _ _ ?m0] => destruct (H m0) as (m1 & E1 & I1)
  end.
  rewrite E1; simpl; eexists; split; [reflexivity|].
  eapply appends_In; [apply closingNotes_emits with (st := st) (si := si)|].
  eapply appends_In; [apply productionNotes_emits|].
  eapply appends_In;
    [apply fold_left_keeps with (R := appends (Emitted cs st si RInverter));
     [apply appends_refl | apply appends_trans
     | intros; apply inverterCheck_emits; assumption]|].
  eapply appends_In;
    [apply fold_left_keeps with (R := appends (Emitted cs st si RBattery));
     [apply appends_refl | apply appends_trans
     | intros; apply batteryCheck_emits; assumption]|].
  exact I1.
Qed.

(** A message pushed by the loop over the batteries is in the result. *)
Lemma messages_after_batteries (m : CategorizedMessage) :
  (forall msgs0,
      In m (fold_left (batteryCheck st (totalMpptOutputCurrent (mppts cs)))
              (batteries cs) msgs0)) ->
  exists msgs, messages cs st si = Normal msgs /\ In m msgs.
Proof.
  intros H; unfold messages; cbv zeta.
  match goal with
  | |- context [forEach _ _ ?m0] => destruct (mpptLoop_emits cs st si m0) as (m1 & E1 & _)
  end.
  rewrite E1; simpl; eexists; split; [reflexivity|].
  eapply appends_In; [apply closingNotes_emits with (st := st) (si := si)|].
  eapply appends_In; [apply productionNotes_emits|].
  eapply appends_In;
    [apply fold_left_keeps with (R := appends (Emitted cs st si RInverter));
     [apply appends_refl | apply appends_trans
     | intros; apply inverterCheck_emits; assumption]|].
  apply H.
Qed.

Lemma gtb_not_nan (x y : float) : JS.gtb x y = true -> JS.isNaN x = false.
Proof. unfold JS.gtb, JS.isNaN; apply ltb_not_nan_r. Qed.

Lemma batteryCheck_pushes b msgs m :
  ChargeChecked cs b ->
  (forall msgs0,
      In m (chargeCheck b (totalMpptOutputCurrent (mppts cs))
              (getNum (maxChargeCurrent (properties b))) msgs0)) ->
  In m (batteryCheck st (totalMpptOutputCurrent (mppts cs)) msgs b).
Proof.
  intros (Hb & Hcap & Hmax) Hin; unfold batteryCheck; cbv zeta.
  rewrite (gtb_not_nan _ _ Hcap), Hcap; cbn [negb andb].
  unfold dischargeCheck; cbv zeta.
  match goal with |- In _ (if ?c then _ else _) => destruct c end; [|apply Hin].
  match goal with |- In _ (if ?c then _ else _) => destruct c end;
    [apply in_or_app; left; apply Hin|].
  match goal with |- In _ (if ?c then _ else _) => destruct c end;
    [apply in_or_app; left; apply Hin | apply Hin].
Qed.

Lemma charge_message_reaches b m :
  ChargeChecked cs b ->
  (forall msgs0,
      In m (chargeCheck b (totalMpptOutputCurrent (mppts cs))
              (getNum (maxChargeCurrent (properties b))) msgs0)) ->
  exists msgs, messages cs st si = Normal msgs /\ In m msgs.
Proof.
  intros Hc Hin. apply messages_after_batteries. intros msgs0.
  apply fold_left_reaches with (a := b).
  - destruct Hc as (Hb & _); exact Hb.
  - intros s b' Hb' Hs.
    eapply appends_In; [apply batteryCheck_emits with (st := st) (si := si); exact Hb'|exact Hs].
  - intros s. apply batteryCheck_pushes; assumption.
Qed.
End Reaches.

(** C3, as amended: for every battery whose [capacityAh] and
    [maxChargeCurrent] both parse to positive numbers, when the total MPPT
    output current (the sum of [maxOutputCurrent] over all controllers)
    exceeds [maxChargeCurrent] the diagnostics contain the [error] message of
    that battery, and when it does not exceed it but exceeds 90% of it they
    contain the [warn-c-rate] message of that battery. *)
Theorem charge_current_diagnostics (cs : list AnyComponent) (si : SystemInputs) (b : Battery) :
  In b (batteries cs) ->
  JS.gtb (getNum (capacityAh (properties b))) 0 = true ->
  JS.gtb (getNum (maxChargeCurrent (properties b))) 0 = true ->
  exists st msgs,
    evaluate cs si = Normal (st, msgs)
    /\ (JS.gtb (totalMpptOutputCurrent (mppts cs))
               (getNum (maxChargeCurrent (properties b))) = true ->
        In (message Error
              (chargeExceedsText b (totalMpptOutputCurrent (mppts cs))
                 (getNum (maxChargeCurrent (properties b))))) msgs)
    /\ (JS.gtb (totalMpptOutputCurrent (mppts cs))
               (getNum (maxChargeCurrent (properties b))) = false ->
        JS.gtb (totalMpptOutputCurrent (mppts cs))
               (getNum (maxChargeCurrent (properties b)) * 0.9) = true ->
        In (message WarnCRate
              (chargeNearText b (totalMpptOutputCurrent (mppts cs))
                 (getNum (maxChargeCurrent (properties b))))) msgs).
Proof.
  intros Hb Hcap Hmax.
  destruct (evaluate_emitted cs si) as (st & msgs & Ev & _ & Em & _).
  exists st, msgs; split; [exact Ev|].
  assert (Hc : ChargeChecked cs b) by (repeat split; assumption).
  split.
  - intros Hgt.
    destruct (charge_message_reaches cs st si b
                (message Error
                   (chargeExceedsText b (totalMpptOutputCurrent (mppts cs))
                      (getNum (maxChargeCurrent (properties b))))) Hc) as (msgs' & Em' & Hin).
    + intros msgs0; unfold chargeCheck.
      rewrite (gtb_not_nan _ _ Hmax), Hmax, Hgt; cbn [negb andb]. apply In_add.
    + congruence.
  - intros Hle Hnear.
    destruct (charge_message_reaches cs st si b
                (message WarnCRate
                   (chargeNearText b (totalMpptOutputCurrent (mppts cs))
                      (getNum (maxChargeCurrent (properties b))))) Hc) as (msgs' & Em' & Hin).
    + intros msgs0; unfold chargeCheck.
      rewrite (gtb_not_nan _ _ Hmax), Hmax, Hle, Hnear; cbn [negb andb]. apply In_add.
    + congruence.
Qed.

#[local] Open Scope string_scope.
Import Examples.

(** ** Lists of components *)

Lemma arrays_app cs1 cs2 : arrays (cs1 ++ cs2) = (arrays cs1 ++ arrays cs2)%list.
Proof. apply flat_map_app. Qed.
Lemma panels_app cs1 cs2 : panels (cs1 ++ cs2) = (panels cs1 ++ panels cs2)%list.
Proof. apply flat_map_app. Qed.
Lemma mppts_app cs1 cs2 : mppts (cs1 ++ cs2) = (mppts cs1 ++ mppts cs2)%list.
Proof. apply flat_map_app. Qed.
Lemma batteries_app cs1 cs2 : batteries (cs1 ++ cs2) = (batteries cs1 ++ batteries cs2)%list.
Proof. apply flat_map_app. Qed.
Lemma inverters_app cs1 cs2 : inverters (cs1 ++ cs2) = (inverters cs1 ++ inverters cs2)%list.
Proof. apply flat_map_app. Qed.

Lemma In_arrays cs a : In a (arrays cs) <-> In (ArrayConfig a) cs.
Proof.
  unfold arrays; rewrite in_flat_map; split.
  - intros (c & Hc & Ha). destruct c; simpl in Ha; try contradiction.
    destruct Ha as [->|[]]; exact Hc.
  - intros H; exists (ArrayConfig a); split; [exact H | left; reflexivity].
Qed.

(** Taking an array configuration out of the components changes [arrays]
    only. *)
Lemma without_array cs1 a cs2 :
  arrays (cs1 ++ ArrayConfig a :: cs2) = (arrays cs1 ++ a :: arrays cs2)%list
  /\ panels (cs1 ++ ArrayConfig a :: cs2) = panels (cs1 ++ cs2)
  /\ mppts (cs1 ++ ArrayConfig a :: cs2) = mppts (cs1 ++ cs2).
Proof.
  rewrite arrays_app, !panels_app, !mppts_app; repeat split.
Qed.

(** ** Dangling MPPT references *)


(** ** The Voc checks *)

Section VocReaches.
Variables (cs : list AnyComponent) (st : ComputedStats) (si : SystemInputs).

End VocReaches.


(** C6: with no component and the default system inputs, the diagnostics are
    four messages: between the nudge and the two fixed notes comes the
    [warn-sizing] note of a production below 80% of the consumption, both
    being 0.  There is no summary. *)
Theorem empty_system_diagnostics :
  exists st,
    evaluate [] defaultSystemInputs
    = Normal (st, [message Info nudgeText;
                   message WarnSizing deficitText;
                   message Info idealWiringText;
                   message InfoSafety codesText])
    /\ productionToConsumptionRatioPercentage st = RatioNumber 0.
Proof. eexists; split; vm_compute; reflexivity. Qed.

(** ** The ends of texts *)

Lemma length_append (a b : string) :
  String.length (a ++ b) = (String.length a + String.length b)%nat.
Proof. induction a as [|c a IH]; simpl; [reflexivity | rewrite IH; reflexivity]. Qed.

Lemma le_length_append (n : nat) (a b : string) :
  (n <= String.length b)%nat -> (n <= String.length (a ++ b))%nat.
Proof. rewrite length_append; lia. Qed.

Lemma lastTwo_append (a b : string) :
  (2 <= String.length b)%nat -> lastTwo (a ++ b) = lastTwo b.
Proof.
  intros Hb; induction a as [|c a IH]; [reflexivity|].
  change (String c a ++ b) with (String c (a ++ b)).
  pose proof (le_length_append 2 a b Hb) as Hl.
  destruct (a ++ b) as [|c1 [|c2 r]] eqn:E; simpl in Hl; try lia.
  - destruct r; exact IH.
Qed.

Ltac long_enough := repeat apply le_length_append; simpl; lia.

(** ** Mixed battery voltages *)

(** No rule after the second pushes the text of the mixed-voltages error. *)
Lemma Later_not_mixed cs st si m :
  (exists r, r <> REmpty /\ r <> RMixed /\ Emitted cs st si r m) ->
  text m <> text (message Error mixedVoltagesText).
Proof.
  intros (r & N1 & N2 & H) Ht.
  destruct H; try congruence;
    try (simpl in Ht; discriminate Ht);
    apply (f_equal lastTwo) in Ht;
    unfold message, text, vocExceedsText, iscExceedsText, chargeExceedsText,
      dischargeExceedsText, belowMinimumText, aboveMaximumText in Ht;
    repeat rewrite lastTwo_append in Ht by long_enough;
    vm_compute in Ht; discriminate Ht.
Qed.

Lemma batteries_not_nil cs b l : batteries cs = b :: l -> (List.length cs =? 0)%nat = false.
Proof. destruct cs; [discriminate | reflexivity]. Qed.

(** C5: with exactly two batteries whose nominal voltages parse to 12 and
    24, in that stored order, the aggregator sets [voltageConsistencyIssue]
    and reports the first-seen voltage ["12"] as [systemNominalVoltage], and
    the diagnostics contain the error about mixed battery voltages exactly
    once: it is their first message, and no later message has its text. *)
Theorem mixed_battery_voltages (cs : list AnyComponent) (si : SystemInputs)
    (b1 b2 : Battery) :
  batteries cs = [b1; b2] ->
  getNum (nominalVoltage (properties b1)) = 12%float ->
  getNum (nominalVoltage (properties b2)) = 24%float ->
  exists st rest,
    evaluate cs si = Normal (st, message Error mixedVoltagesText :: rest)
    /\ voltageConsistencyIssue st = true
    /\ systemNominalVoltage st = "12"
    /\ Forall (fun m => text m <> text (message Error mixedVoltagesText)) rest.
Proof.
  intros Hb H1 H2.
  destruct (stats_fields cs si) as (st & Es & _ & _ & _ & _ & Hv).
  cbv zeta in Hv. rewrite Hb in Hv.
  assert (Hbv : snd (fold_left batteryStep [b1; b2] (0%float, []))
                = [12%float; 24%float]).
  { cbn [fold_left]. unfold batteryStep at 2. cbv zeta. rewrite H1.
    unfold batteryStep. cbv zeta. rewrite H2.
    destruct (negb (JS.isNaN (getNum (capacityAh (properties b1)))));
      destruct (negb (JS.isNaN (getNum (capacityAh (properties b2)))));
      vm_compute; reflexivity. }
  rewrite Hbv in Hv. destruct Hv as [Hvc Hnv].
  change (systemNominalVoltage st = "12") in Hnv.
  change (voltageConsistencyIssue st = true) in Hvc.
  destruct (messages_structure cs st si) as (rest & Em & F).
  rewrite Hvc, (batteries_not_nil cs _ _ Hb) in Em. cbn [app] in Em.
  exists st, rest.
  split; [unfold evaluate; rewrite Es; cbn [bind]; rewrite Em; reflexivity|].
  split; [exact Hvc|]. split; [exact Hnv|].
  eapply Forall_impl; [|exact F]. intros m; apply Later_not_mixed.
Qed.

(** ** Unresolved panel references *)

Lemma find_all_false {A : Type} (f : A -> bool) (l : list A) :
  (forall x, In x l -> f x = false) -> find f l = None.
Proof.
  induction l as [|x l IH]; intros H; [reflexivity|].
  simpl; rewrite (H x (or_introl eq_refl)). apply IH; intros y Hy; apply H; right; exact Hy.
Qed.

Lemma solarPowerStep_unresolved ps total a :
  findPanel ps a = None -> solarPowerStep ps total a = Normal total.
Proof. intros H; unfold solarPowerStep; rewrite H; reflexivity. Qed.

Lemma forEach_skip {S A : Type} (f : S -> A -> Completion S) (l1 l2 : list A) (a : A) :
  (forall s, f s a = Normal s) ->
  forall s, forEach f (l1 ++ a :: l2) s = forEach f (l1 ++ l2) s.
Proof.
  intros Ha s. rewrite !forEach_app.
  destruct (forEach f l1 s) as [s1|]; [|reflexivity].
  simpl; rewrite Ha; reflexivity.
Qed.

(** C7: an array configuration whose [selectedPanelId] is the id of no
    panel leaves [totalSolarPower] as it is (its step of the loop returns the
    running total unchanged, and the total is the same as without the
    array), and the aggregator returns normally: on this input, as on every
    input, the [TypeError] branch is not taken. *)
Theorem dangling_panel_reference (cs1 cs2 : list AnyComponent) (a : SolarArrayConfiguration)
    (si : SystemInputs) :
  let cs := (cs1 ++ ArrayConfig a :: cs2)%list in
  (forall p, In p (panels cs) ->
             JS.strictEq (id p) (JS.Number (selectedPanelId (properties a))) = false) ->
  (forall total, solarPowerStep (panels cs) total a = Normal total)
  /\ (exists st st',
        stats cs si = Normal st /\ stats (cs1 ++ cs2) si = Normal st'
        /\ totalSolarPower st = totalSolarPower st')
  /\ (forall components systemInputs, stats components systemInputs <> TypeError).
Proof.
  intros cs Hno.
  assert (Hf : findPanel (panels cs) a = None) by (apply find_all_false; exact Hno).
  split; [intros total; apply solarPowerStep_unresolved; exact Hf|].
  split.
  - destruct (stats_fields cs si) as (st & Es & Et & _).
    destruct (stats_fields (cs1 ++ cs2) si) as (st' & Es' & Et' & _).
    exists st, st'; repeat split; try assumption.
    destruct (without_array cs1 a cs2) as (Ea & Ep & _).
    fold cs in Ea, Ep. rewrite Ea in Et. rewrite <- Ep, arrays_app in Et'.
    rewrite forEach_skip in Et
      by (intros s; apply solarPowerStep_unresolved; exact Hf).
    congruence.
  - intros components systemInputs.
    destruct (stats_normal components systemInputs) as (st & ->); discriminate.
Qed.

(** ** Numbers that are not positive integers *)

Lemma solarPowerStep_resolved ps total a p :
  findPanel ps a = Some p ->
  JS.isNaN (getNum (pmax (properties p))) = false ->
  JS.isNaN (getNum (panelsInSeries (properties a))) = false ->
  JS.isNaN (getNum (numberOfStrings (properties a))) = false ->
  solarPowerStep ps total a
  = Normal (total + getNum (pmax (properties p)) * getNum (panelsInSeries (properties a))
                    * getNum (numberOfStrings (properties a)))%float.
Proof.
  intros Hp N1 N2 N3; unfold solarPowerStep; rewrite Hp; simpl.
  rewrite N1, N2, N3; reflexivity.
Qed.

Lemma float_neq (x y : float) : PrimFloat.eqb x y = false -> PrimFloat.is_nan x = false -> x <> y.
Proof.
  intros H N E; subst y. unfold PrimFloat.is_nan in N.
  apply negb_false_iff in N. congruence.
Qed.

(** C10 as stated fails for the cable counts: the parsed values 3 and -2 of
    [panelsInSeries] and [numberOfStrings] enter the power product, but the
    array is skipped by both cable sums, which stay 0 where the unclamped
    terms would be -4. *)
Lemma unvalidated_counts_counterexample :
  getNum "3" = 3%float /\ getNum "-2" = (-2)%float
  /\ exists st,
       stats c10_negative defaultSystemInputs = Normal st
       /\ totalSolarPower st = (0 + 100 * 3 * -2)%float
       /\ panelInterconnectCables st = 0%float
       /\ panelInterconnectCables st <> (0 + (3 - 1) * -2)%float
       /\ arrayToChargerCables st = 0%float
       /\ arrayToChargerCables st <> (0 + 2 * -2)%float.
Proof.
  split; [vm_compute; reflexivity|].
  split; [vm_compute; reflexivity|].
  eexists; split; [vm_compute; reflexivity|].
  cbn [totalSolarPower panelInterconnectCables arrayToChargerCables].
  repeat split; try (vm_compute; reflexivity);
    apply float_neq; vm_compute; reflexivity.
Qed.

(** C10, as amended: [panelsInSeries] and [numberOfStrings] are parsed as
    arbitrary finite numbers and not validated as positive integers.  Any
    parsed values, fractional or negative, enter the array-power product as
    they are.  The sum of [panelInterconnectCables] skips an array whose
    [panelsInSeries] is below 2 or whose [numberOfStrings] is below 1; the
    sum of [arrayToChargerCables] reads [numberOfStrings] only and skips an
    array whose [numberOfStrings] is below 1, whatever its [panelsInSeries]
    is (below 2, negative or not a number).  So a negative [numberOfStrings]
    enters neither cable sum, and the values that are not skipped, fractional
    ones too, are taken as they are.  So [totalSolarPower],
    [panelInterconnectCables] and [arrayToChargerCables] can be fractional,
    and [totalSolarPower] can be negative. *)
Theorem unvalidated_counts :
  (forall ps total a p,
      findPanel ps a = Some p ->
      JS.isNaN (getNum (pmax (properties p))) = false ->
      JS.isNaN (getNum (panelsInSeries (properties a))) = false ->
      JS.isNaN (getNum (numberOfStrings (properties a))) = false ->
      solarPowerStep ps total a
      = Normal (total + getNum (pmax (properties p))
                        * getNum (panelsInSeries (properties a))
                        * getNum (numberOfStrings (properties a)))%float)
  /\ (forall sum a,
        JS.isNaN (getNum (panelsInSeries (properties a))) = false ->
        JS.isNaN (getNum (numberOfStrings (properties a))) = false ->
        PrimFloat.ltb (getNum (panelsInSeries (properties a))) 2 = false ->
        PrimFloat.ltb (getNum (numberOfStrings (properties a))) 1 = false ->
        panelInterconnectStep sum a
        = (sum + (getNum (panelsInSeries (properties a)) - 1)
                 * getNum (numberOfStrings (properties a)))%float)
  /\ (forall sum a,
        JS.isNaN (getNum (numberOfStrings (properties a))) = false ->
        PrimFloat.ltb (getNum (numberOfStrings (properties a))) 1 = false ->
        arrayToChargerStep sum a
        = (sum + 2 * getNum (numberOfStrings (properties a)))%float)
  /\ (forall sum a,
        PrimFloat.ltb (getNum (numberOfStrings (properties a))) 1 = true ->
        panelInterconnectStep sum a = sum /\ arrayToChargerStep sum a = sum)
  /\ (forall sum a,
        PrimFloat.ltb (getNum (panelsInSeries (properties a))) 2 = true
        \/ JS.isNaN (getNum (panelsInSeries (properties a))) = true ->
        panelInterconnectStep sum a = sum)
  /\ (forall sum a,
        JS.isNaN (getNum (numberOfStrings (properties a))) = true ->
        panelInterconnectStep sum a = sum /\ arrayToChargerStep sum a = sum)
  /\ (exists st,
        stats c10_fractional defaultSystemInputs = Normal st
        /\ totalSolarPower st = 314.0625%float
        /\ panelInterconnectCables st = 1.875%float
        /\ arrayToChargerCables st = 2.5%float)
  /\ (exists st,
        stats c10_negative defaultSystemInputs = Normal st
        /\ totalSolarPower st = (-600)%float).
Proof.
  split; [exact solarPowerStep_resolved|].
  split.
  { intros sum a N1 N2 L1 L2; unfold panelInterconnectStep.
    rewrite N1, N2, L1, L2; reflexivity. }
  split.
  { intros sum a N L; unfold arrayToChargerStep.
    rewrite N, L; reflexivity. }
  split.
  { intros sum a L; unfold panelInterconnectStep, arrayToChargerStep.
    rewrite L, !orb_true_r; split; reflexivity. }
  split.
  { intros sum a [L|N]; unfold panelInterconnectStep.
    - rewrite L, orb_true_r; reflexivity.
    - rewrite N; reflexivity. }
  split.
  { intros sum a N; unfold panelInterconnectStep, arrayToChargerStep.
    rewrite N, !orb_true_r; split; reflexivity. }
  split; eexists; (split; [vm_compute; reflexivity|]); repeat split.
Qed.

(** ** Raising one panel's pmax *)

Lemma panels_replace cs1 cs2 (p : IndividualSolarPanel) :
  panels (cs1 ++ Panel p :: cs2) = (panels cs1 ++ p :: panels cs2)%list
  /\ arrays (cs1 ++ Panel p :: cs2) = (arrays cs1 ++ arrays cs2)%list.
Proof. rewrite panels_app, arrays_app; split; reflexivity. Qed.

Lemma find_app {A : Type} (f : A -> bool) (l1 l2 : list A) :
  find f (l1 ++ l2) = match find f l1 with Some x => Some x | None => find f l2 end.
Proof.
  induction l1 as [|x l1 IH]; [reflexivity|].
  simpl; destruct (f x); [reflexivity | exact IH].
Qed.

(** With panel [p] replaced by [p'] of the same id, an array resolves to the
    same panel in both sets, or to [p] in one and [p'] in the other. *)
Lemma findPanel_replace (P1 P2 : list IndividualSolarPanel) (p p' : IndividualSolarPanel)
    (a : SolarArrayConfiguration) :
  id p' = id p ->
  findPanel (P1 ++ p :: P2) a = findPanel (P1 ++ p' :: P2) a
  \/ findPanel (P1 ++ p :: P2) a = Some p /\ findPanel (P1 ++ p' :: P2) a = Some p'.
Proof.
  intros Hid; unfold findPanel; rewrite !find_app; simpl; rewrite Hid.
  match goal with |- context [find ?f P1] => destruct (find f P1) as [q|] end;
    [left; reflexivity|].
  match goal with |- context [JS.strictEq (id p) ?x] => destruct (JS.strictEq (id p) x) end;
    [right; split; reflexivity | left; reflexivity].
Qed.

Section Monotone.
Variables (P1 P2 : list IndividualSolarPanel) (p p' : IndividualSolarPanel).
Hypothesis Hid : id p' = id p.
Hypothesis Hpmax :
  PrimFloat.ltb (getNum (pmax (properties p))) (getNum (pmax (properties p'))) = true.

#[local] Abbreviation ps := (P1 ++ p :: P2)%list.
#[local] Abbreviation ps' := (P1 ++ p' :: P2)%list.

Lemma solarPowerStep_mono total total' a :
  counts_not_negative P1 P2 p a -> le_or_nan total total' ->
  exists t t',
    solarPowerStep ps total a = Normal t /\ solarPowerStep ps' total' a = Normal t'
    /\ le_or_nan t t'.
Proof.
  intros Hc Ht.
  destruct (findPanel_replace P1 P2 p p' a Hid) as [E|[E E']].
  - unfold solarPowerStep. rewrite <- E.
    destruct (findPanel ps a) as [q|]; simpl; [|eauto].
    match goal with |- context [if ?c then _ else _] => destruct c end; eauto.
    do 2 eexists; split; [reflexivity|]; split; [reflexivity|].
    apply add_le_or_nan; [exact Ht | apply le_or_nan_refl].
  - destruct (Hc E) as [Hs Hn].
    pose proof (ltb_not_nan_l _ _ Hpmax) as N1.
    pose proof (ltb_not_nan_r _ _ Hpmax) as N1'.
    unfold solarPowerStep. rewrite E, E'; simpl.
    unfold JS.isNaN. rewrite N1, N1'; cbn [negb andb].
    match goal with |- context [if ?c then _ else _] => destruct c end; eauto.
    do 2 eexists; split; [reflexivity|]; split; [reflexivity|].
    apply add_le_or_nan; [exact Ht|].
    apply mul_le_or_nan; [|exact Hn].
    apply mul_le_or_nan; [|exact Hs].
    apply le_or_nan_of_ltb; exact Hpmax.
Qed.

Lemma solarPower_mono arrs :
  (forall a, In a arrs -> counts_not_negative P1 P2 p a) ->
  forall total total', le_or_nan total total' ->
  exists t t',
    forEach (solarPowerStep ps) arrs total = Normal t
    /\ forEach (solarPowerStep ps') arrs total' = Normal t'
    /\ le_or_nan t t'.
Proof.
  induction arrs as [|a arrs IH]; intros Hc total total' Ht; simpl; [eauto|].
  destruct (solarPowerStep_mono total total' a (Hc a (or_introl eq_refl)) Ht)
    as (t & t' & -> & -> & Ht1); simpl.
  apply IH; [intros b Hb; apply Hc; right; exact Hb | exact Ht1].
Qed.
End Monotone.

(** C4, as amended: raising a single panel's [pmax] from one parsed number
    to a larger one, everything else unchanged, never decreases
    [totalSolarPower] provided the arrays built from that panel have a
    [panelsInSeries] and a [numberOfStrings] that are not negative, and never
    decreases [estimatedDailySolarProductionWh] provided, besides,
    [peakSunHours] and [solarPanelEfficiency] are not negative. *)
Theorem pmax_monotone (cs1 cs2 : list AnyComponent) (p p' : IndividualSolarPanel)
    (si : SystemInputs) :
  let cs := (cs1 ++ Panel p :: cs2)%list in
  let cs' := (cs1 ++ Panel p' :: cs2)%list in
  id p' = id p ->
  PrimFloat.ltb (getNum (pmax (properties p))) (getNum (pmax (properties p'))) = true ->
  (forall a, In a (arrays cs) -> findPanel (panels cs) a = Some p ->
             PrimFloat.ltb (getNum (panelsInSeries (properties a))) 0 = false
             /\ PrimFloat.ltb (getNum (numberOfStrings (properties a))) 0 = false) ->
  exists st st',
    stats cs si = Normal st /\ stats cs' si = Normal st'
    /\ PrimFloat.ltb (totalSolarPower st') (totalSolarPower st) = false
    /\ (PrimFloat.ltb (peakSunHours si) 0 = false ->
        PrimFloat.ltb (solarPanelEfficiency si) 0 = false ->
        PrimFloat.ltb (estimatedDailySolarProductionWh st')
                      (estimatedDailySolarProductionWh st) = false).
Proof.
  intros cs cs' Hid Hpmax Hc.
  destruct (stats_fields cs si) as (st & Es & Et & Ed & _).
  destruct (stats_fields cs' si) as (st' & Es' & Et' & Ed' & _).
  exists st, st'; split; [exact Es|]; split; [exact Es'|].
  destruct (panels_replace cs1 cs2 p) as [Ep Ea].
  destruct (panels_replace cs1 cs2 p') as [Ep' Ea'].
  fold cs in Ep, Ea. fold cs' in Ep', Ea'.
  assert (Hle : le_or_nan (totalSolarPower st) (totalSolarPower st')).
  { destruct (solarPower_mono (panels cs1) (panels cs2) p p' Hid Hpmax (arrays cs))
      with (total := 0%float) (total' := 0%float) as (t & t' & E1 & E2 & Hle).
    - intros a Ha Hf. apply Hc; [exact Ha | rewrite Ep; exact Hf].
    - apply le_or_nan_refl.
    - rewrite <- Ep in E1. rewrite <- Ep' in E2. rewrite Ea, <- Ea' in E2.
      congruence. }
  split; [apply le_or_nan_not_ltb; exact Hle|].
  intros Hpsh Heff. apply le_or_nan_not_ltb. rewrite Ed, Ed'.
  apply mul_le_or_nan; [|apply div_not_negative; [exact Heff | reflexivity]].
  apply mul_le_or_nan; [exact Hle | exact Hpsh].
Qed.

(** ** Renders *)

Lemma useMemo_recomputes {V : Type} (cell : Cell V) (v : V) (deps : list Dep)
    (pos n : nat) (a : nat) :
  keptBelow pos n cell ->
  nth_error deps pos = Some (DObj a) -> (n <= a)%nat ->
  forall free,
    useMemo cell (Normal v) deps free
    = Normal ({| addr := free; value := v |}, Some (deps, {| addr := free; value := v |}), S free).
Proof.
  intros Hk Hd Ha free; unfold useMemo.
  destruct cell as [[prev o]|]; [|reflexivity].
  assert (Hne : areHookInputsEqual deps prev = false).
  { clear -Hk Hd Ha. unfold keptBelow in Hk.
    revert deps prev Hk Hd; induction pos as [|pos IH]; intros deps prev Hk Hd.
    - destruct deps as [|x deps]; [discriminate|]. simpl in Hd. injection Hd as ->.
      destruct prev as [|y prev]; [reflexivity|]. simpl in Hk |- *.
      destruct y; try reflexivity.
      destruct (Nat.eqb_spec a a0); [lia | reflexivity].
    - destruct deps as [|x deps]; [discriminate|]. simpl in Hd.
      destruct prev as [|y prev]; [reflexivity|]. simpl in Hk |- *.
      rewrite (IH deps prev Hk Hd). apply andb_false_r. }
  rewrite Hne; reflexivity.
Qed.

(** On well-formed hooks every cell recomputes: a render shows what one
    evaluation of the engine returns, and leaves well-formed hooks. *)
Lemma render_evaluates (h : Hooks) (components : Obj (list AnyComponent))
    (systemInputs : Obj SystemInputs) :
  wellFormed h ->
  exists h' st msgs,
    evaluate (value components) (value systemInputs) = Normal (st, msgs)
    /\ render h components systemInputs = Normal (h', (statsWithCableTotal st, msgs))
    /\ wellFormed h'.
Proof.
  intros (W1 & W2 & W3).
  destruct (evaluate_emitted (value components) (value systemInputs))
    as (st & msgs & Ev & Es & Em & _).
  unfold render; cbv zeta. rewrite Es.
  erewrite (useMemo_recomputes (statsCell h)) with (pos := 0%nat) (n := next h);
    [|exact W1 | reflexivity | lia].
  cbn [bind value addr].
  erewrite (useMemo_recomputes (totalCell h)) with (pos := 0%nat) (n := next h);
    [|exact W2 | reflexivity | lia].
  cbn [bind value addr]. rewrite Em.
  erewrite (useMemo_recomputes (messagesCell h)) with (pos := 1%nat) (n := next h);
    [|exact W3 | reflexivity | lia].
  cbn [bind value addr].
  do 3 eexists; split; [exact Ev|]; split; [reflexivity|].
  unfold wellFormed, keptBelow; cbn [next statsCell totalCell messagesCell nth_error].
  lia.
Qed.

Lemma mount_wellFormed : wellFormed mount.
Proof. repeat split. Qed.

(** C8: two invocations of the aggregator and of the diagnostics on the same
    components and system inputs return the same statistics and the same
    list of messages, in whatever state earlier renders left the [useMemo]
    cells and whatever the identities of the two input objects are: both
    renders show the result of [evaluate] on the inputs. *)
Theorem deterministic_evaluation (h1 h2 : Hooks) (c1 c2 : Obj (list AnyComponent))
    (s1 s2 : Obj SystemInputs) :
  wellFormed h1 -> wellFormed h2 ->
  value c1 = value c2 -> value s1 = value s2 ->
  exists h1' h2' st msgs,
    evaluate (value c1) (value s1) = Normal (st, msgs)
    /\ render h1 c1 s1 = Normal (h1', (statsWithCableTotal st, msgs))
    /\ render h2 c2 s2 = Normal (h2', (statsWithCableTotal st, msgs))
    /\ wellFormed h1' /\ wellFormed h2'.
Proof.
  intros W1 W2 Hc Hs.
  destruct (render_evaluates h1 c1 s1 W1) as (h1' & st & msgs & Ev & R1 & W1').
  destruct (render_evaluates h2 c2 s2 W2) as (h2' & st2 & msgs2 & Ev2 & R2 & W2').
  rewrite <- Hc, <- Hs, Ev in Ev2. injection Ev2 as <- <-.
  exists h1', h2', st, msgs; auto.
Qed.

(** ** Concrete instances *)





(** C3 as stated fails: the battery's [maxChargeCurrent] parses to 10 and
    the total MPPT output current is 20, but its [capacityAh] is empty, so
    the whole charge check is skipped and no message names the battery. *)
Lemma charge_current_counterexample :
  In c3_battery (batteries c3_components)
  /\ JS.gtb (getNum (maxChargeCurrent (properties c3_battery))) 0 = true
  /\ JS.gtb (totalMpptOutputCurrent (mppts c3_components))
            (getNum (maxChargeCurrent (properties c3_battery))) = true
  /\ exists st,
       evaluate c3_components defaultSystemInputs
       = Normal (st, [message Warn "MPPT 1 has no assigned solar arrays.";
                      message Warn zeroUsageText;
                      message WarnSizing deficitText;
                      message Info idealWiringText;
                      message InfoSafety codesText;
                      message Warn warningsText]).
Proof.
  split; [left; reflexivity|].
  split; [vm_compute; reflexivity|].
  split; [vm_compute; reflexivity|].
  eexists. vm_compute. reflexivity.
Qed.

(** With a capacity of 100 Ah the same battery gets the [error] message. *)
Lemma charge_current_diagnostics_witness :
  exists st msgs,
    evaluate c3_components_ok defaultSystemInputs = Normal (st, msgs)
    /\ In (message Error "Battery 1 potential charge current (20.0A) exceeds max charge current (10A).") msgs.
Proof.
  destruct (charge_current_diagnostics c3_components_ok defaultSystemInputs c3_battery_ok)
    as (st & msgs & Ev & Hex & _).
  - left; reflexivity.
  - vm_compute; reflexivity.
  - vm_compute; reflexivity.
  - exists st, msgs; split; [exact Ev|].
    apply Hex. vm_compute; reflexivity.
Defined.

(** C4 as stated fails: with -1 panels in series, raising [pmax] from 100 to
    200 lowers [totalSolarPower] from -100 to -200 and the estimated daily
    production from -340 to -680. *)
Lemma pmax_monotone_counterexample :
  PrimFloat.ltb (getNum "100") (getNum "200") = true
  /\ exists st st',
       stats (c4_components "100" "-1") defaultSystemInputs = Normal st
       /\ stats (c4_components "200" "-1") defaultSystemInputs = Normal st'
       /\ totalSolarPower st = (-100)%float /\ totalSolarPower st' = (-200)%float
       /\ PrimFloat.ltb (totalSolarPower st') (totalSolarPower st) = true
       /\ estimatedDailySolarProductionWh st = (-340)%float
       /\ estimatedDailySolarProductionWh st' = (-680)%float
       /\ PrimFloat.ltb (estimatedDailySolarProductionWh st')
                        (estimatedDailySolarProductionWh st) = true.
Proof.
  split; [vm_compute; reflexivity|].
  do 2 eexists.
  split; [vm_compute; reflexivity|].
  split; [vm_compute; reflexivity|].
  repeat split; vm_compute; reflexivity.
Qed.

(** With 2 panels in series and 1 string, raising [pmax] from 100 to 200
    lowers neither total. *)
Lemma pmax_monotone_witness :
  exists st st',
    stats (c4_components "100" "2") defaultSystemInputs = Normal st
    /\ stats (c4_components "200" "2") defaultSystemInputs = Normal st'
    /\ PrimFloat.ltb (totalSolarPower st') (totalSolarPower st) = false
    /\ PrimFloat.ltb (estimatedDailySolarProductionWh st')
                     (estimatedDailySolarProductionWh st) = false.
Proof.
  destruct (pmax_monotone [] [mkArray 2 "Array 1" "1" "2" "1" ""]
              (c4_panel "100") (c4_panel "200") defaultSystemInputs)
    as (st & st' & E1 & E2 & H1 & H2).
  - reflexivity.
  - vm_compute; reflexivity.
  - intros a [<-|[]] _; split; vm_compute; reflexivity.
  - exists st, st'; repeat split; try assumption.
    apply H2; vm_compute; reflexivity.
Defined.

(** Two batteries of 12 V and 24 V. *)
Lemma mixed_battery_voltages_witness :
  exists st rest,
    evaluate c5_components defaultSystemInputs
    = Normal (st, message Error mixedVoltagesText :: rest)
    /\ voltageConsistencyIssue st = true
    /\ systemNominalVoltage st = "12".
Proof.
  destruct (mixed_battery_voltages c5_components defaultSystemInputs
              (c5_battery 1 "Battery 1" "12") (c5_battery 2 "Battery 2" "24"))
    as (st & rest & Ev & H1 & H2 & _).
  - reflexivity.
  - vm_compute; reflexivity.
  - vm_compute; reflexivity.
  - exists st, rest; auto.
Defined.

(** An array pointing at the missing panel 999, next to panel 1. *)
Lemma dangling_panel_reference_witness :
  exists st st',
    stats [mkPanel 1 "Panel 1" "" "" "200"; ArrayConfig c7_array] defaultSystemInputs
    = Normal st
    /\ stats [mkPanel 1 "Panel 1" "" "" "200"] defaultSystemInputs = Normal st'
    /\ totalSolarPower st = totalSolarPower st'.
Proof.
  destruct (dangling_panel_reference [mkPanel 1 "Panel 1" "" "" "200"] [] c7_array
              defaultSystemInputs) as (_ & H & _).
  - intros p [<-|[]]; vm_compute; reflexivity.
  - exact H.
Defined.

(** A first render, and a render after another component set was shown,
    with other object identities for the same inputs. *)
Lemma deterministic_evaluation_witness :
  exists h1' h2' st msgs,
    evaluate c3_components defaultSystemInputs = Normal (st, msgs)
    /\ render mount {| addr := 7; value := c3_components |}
         {| addr := 8; value := defaultSystemInputs |}
       = Normal (h1', (statsWithCableTotal st, msgs))
    /\ render c8_hooks {| addr := 200; value := c3_components |}
         {| addr := 101; value := defaultSystemInputs |}
       = Normal (h2', (statsWithCableTotal st, msgs)).
Proof.
  destruct (deterministic_evaluation mount c8_hooks
              {| addr := 7; value := c3_components |}
              {| addr := 200; value := c3_components |}
              {| addr := 8; value := defaultSystemInputs |}
              {| addr := 101; value := defaultSystemInputs |})
    as (h1' & h2' & st & msgs & Ev & R1 & R2 & _).
  - exact mount_wellFormed.
  - vm_compute; repeat split; repeat constructor.
  - reflexivity.
  - reflexivity.
  - exists h1', h2', st, msgs; auto.
Defined.

(** * Further properties of the program *)

Import Calculations Handlers Segments MoreExamples.

(** * Further properties of binary64 numbers *)

(** ** Classes of numbers *)

Lemma is_zero_spec (x : float) :
  PrimFloat.is_zero x = true <-> exists s, Prim2SF x = S754_zero s.
Proof.
  unfold PrimFloat.is_zero. rewrite eqb_spec.
  change (Prim2SF zero) with (S754_zero false).
  destruct (Prim2SF x) as [s|s| |s m e]; cbn.
  - split; [eauto | reflexivity].
  - split; [destruct s; discriminate | intros (t & H); discriminate].
  - split; [discriminate | intros (t & H); discriminate].
  - split; [destruct s; discriminate | intros (t & H); discriminate].
Qed.

Lemma is_infinity_spec (x : float) :
  PrimFloat.is_infinity x = true <-> exists s, Prim2SF x = S754_infinity s.
Proof.
  unfold PrimFloat.is_infinity. rewrite eqb_spec, abs_spec.
  change (Prim2SF infinity) with (S754_infinity false).
  destruct (Prim2SF x) as [s|s| |s m e]; cbn.
  - split; [discriminate | intros (t & H); discriminate].
  - split; [eauto | reflexivity].
  - split; [discriminate | intros (t & H); discriminate].
  - split; [discriminate | intros (t & H); discriminate].
Qed.

Lemma is_finite_spec (x : float) :
  PrimFloat.is_finite x = true <-> finite_or_zero (Prim2SF x).
Proof.
  unfold PrimFloat.is_finite.
  destruct (PrimFloat.is_nan x) eqn:N.
  - apply is_nan_spec in N. rewrite N. cbn. split; [discriminate | contradiction].
  - apply is_nan_false in N. cbn [orb].
    destruct (PrimFloat.is_infinity x) eqn:I.
    + apply is_infinity_spec in I. destruct I as (s & ->). cbn.
      split; [discriminate | contradiction].
    + cbn. split; [intros _ | reflexivity].
      destruct (Prim2SF x) as [s|s| |s m e] eqn:E; cbn; auto.
      * assert (H : PrimFloat.is_infinity x = true)
          by (apply is_infinity_spec; rewrite E; eauto).
        congruence.
Qed.

Lemma is_finite_not_nan (x : float) :
  PrimFloat.is_finite x = true -> PrimFloat.is_nan x = false.
Proof.
  intros H. apply is_finite_spec in H. apply is_nan_false.
  intros E; rewrite E in H; exact H.
Qed.

(** A number that is not finite is NaN or an infinity. *)
Lemma not_finite_cases (x : float) :
  PrimFloat.is_finite x = false -> x = nan \/ x = infinity \/ x = neg_infinity.
Proof.
  intros H.
  destruct (Prim2SF x) as [s|s| |s m e] eqn:E.
  - assert (F : PrimFloat.is_finite x = true) by (apply is_finite_spec; rewrite E; exact I).
    congruence.
  - right. destruct s; [right | left]; apply Prim2SF_inj; rewrite E; reflexivity.
  - left. apply Prim2SF_inj; rewrite E; reflexivity.
  - assert (F : PrimFloat.is_finite x = true) by (apply is_finite_spec; rewrite E; exact I).
    congruence.
Qed.

(** [x === y] only for equal numbers and for the two zeros. *)
Lemma strictEq_cases (x y : float) :
  JS.strictEq x y = true ->
  x = y \/ (PrimFloat.is_zero x = true /\ PrimFloat.is_zero y = true).
Proof.
  unfold JS.strictEq. rewrite eqb_spec. intros H.
  destruct (Prim2SF x) as [s|s| |s m e] eqn:Ex; destruct (Prim2SF y) as [t|t| |t n f] eqn:Ey;
    cbn in H; try discriminate;
    try (destruct s; discriminate); try (destruct t; discriminate).
  - right; split; apply is_zero_spec; eauto.
  - left. apply Prim2SF_inj. rewrite Ex, Ey.
    destruct s, t; try discriminate; reflexivity.
  - left. apply Prim2SF_inj. rewrite Ex, Ey.
    unfold SFeqb, SFcompare in H.
    assert (C : e = f /\ m = n).
    { destruct s, t; try discriminate;
        destruct (Z.compare_spec e f) as [He|He|He]; try discriminate;
        cbn in H;
        destruct (Pos.compare_cont Eq m n) eqn:C; try discriminate;
        change (Pos.compare_cont Eq m n) with (Pos.compare m n) in C;
        apply Pos.compare_eq in C; auto. }
    destruct C as [-> ->].
    destruct s, t; try discriminate; reflexivity.
Qed.

(** ** Results that are not NaN *)

#[local] Open Scope Z_scope.

Lemma shr_1_nonneg (mrs : shr_record) : 0 <= shr_m mrs -> 0 <= shr_m (shr_1 mrs).
Proof.
  destruct mrs as [m r s]. cbn [shr_m]. intros H.
  destruct m as [|p|p]; [cbn; lia | | lia].
  destruct p; cbn; lia.
Qed.

Lemma shr_nonneg (mrs : shr_record) (e n : Z) :
  0 <= shr_m mrs -> 0 <= shr_m (fst (shr mrs e n)).
Proof.
  intros H. unfold shr. destruct n as [|p|p]; cbn [fst]; try exact H.
  rewrite iter_pos_nat.
  induction (Pos.to_nat p) as [|k IH]; [exact H|].
  cbn [Nat.iter]. apply shr_1_nonneg. exact IH.
Qed.

Lemma shr_record_of_loc_m (m : Z) (l : location) : shr_m (shr_record_of_loc m l) = m.
Proof. destruct l as [|[]]; reflexivity. Qed.

Lemma round_nearest_even_nonneg (m : Z) (l : location) :
  0 <= m -> 0 <= round_nearest_even m l.
Proof.
  intros H. destruct l as [|[]]; cbn; try lia.
  destruct (Z.even m); lia.
Qed.

(** Rounding a mantissa that is not negative does not give NaN. *)
Lemma binary_round_aux_not_nan (s : bool) (m e : Z) (l : location) :
  0 <= m -> binary_round_aux prec emax s m e l <> S754_nan.
Proof.
  intros H. unfold binary_round_aux, shr_fexp.
  pose proof (shr_nonneg (shr_record_of_loc m l) e
                (fexp prec emax (Zdigits2 m + e) - e)) as H1.
  rewrite shr_record_of_loc_m in H1. specialize (H1 H).
  destruct (shr (shr_record_of_loc m l) e _) as [mrs' e']. cbn [fst] in H1.
  pose proof (round_nearest_even_nonneg (shr_m mrs') (loc_of_shr_record mrs') H1) as H2.
  set (m2 := round_nearest_even (shr_m mrs') (loc_of_shr_record mrs')) in *.
  pose proof (shr_nonneg (shr_record_of_loc m2 loc_Exact) e'
                (fexp prec emax (Zdigits2 m2 + e') - e')) as H3.
  rewrite shr_record_of_loc_m in H3. specialize (H3 H2).
  destruct (shr (shr_record_of_loc m2 loc_Exact) e' _) as [mrs'' e'']. cbn [fst] in H3.
  destruct (shr_m mrs'') as [|p|p]; [discriminate | | lia].
  destruct (e'' <=? emax - prec); discriminate.
Qed.

Lemma SFdiv_core_nonneg (m1 m2 : positive) (e1 e2 : Z) :
  0 <= fst (fst (SFdiv_core_binary prec emax (Zpos m1) e1 (Zpos m2) e2)).
Proof.
  unfold SFdiv_core_binary.
  set (s := e1 - e2 - _).
  set (m' := match s with Z0 => Zpos m1 | Zpos _ => Z.shiftl (Zpos m1) s | Zneg _ => 0 end).
  assert (Hm : 0 <= m').
  { subst m'. destruct s; try lia. apply Z.shiftl_nonneg. lia. }
  pose proof (Z_div_mod m' (Zpos m2) ltac:(lia)) as D.
  destruct (Z.div_eucl m' (Zpos m2)) as [q r]. cbn [fst].
  destruct D as [D1 D2]. nia.
Qed.

(** A quotient by a finite number other than zero is NaN only when the
    dividend is. *)
Lemma div_not_nan (x y : float) :
  PrimFloat.is_nan x = false -> PrimFloat.is_finite y = true ->
  PrimFloat.is_zero y = false ->
  PrimFloat.is_nan (x / y) = false.
Proof.
  intros Nx Fy Zy.
  apply is_nan_false. rewrite div_spec. unfold SF64div.
  apply is_nan_false in Nx. apply is_finite_spec in Fy.
  assert (Hz : forall s, Prim2SF y <> S754_zero s).
  { intros s E. assert (PrimFloat.is_zero y = true) by (apply is_zero_spec; eauto).
    congruence. }
  destruct (Prim2SF y) as [sy|sy| |sy my ey]; cbn in Fy; try contradiction.
  - destruct (Hz sy); reflexivity.
  - destruct (Prim2SF x) as [sx|sx| |sx mx ex]; cbn [SFdiv]; try discriminate; try congruence.
    pose proof (SFdiv_core_nonneg mx my ex ey) as Hq.
    destruct (SFdiv_core_binary prec emax (Zpos mx) ex (Zpos my) ey) as [[mz ez] lz].
    cbn [fst] in Hq. apply binary_round_aux_not_nan. exact Hq.
Qed.

(** A product of finite numbers is not NaN. *)
Lemma mul_finite_not_nan (x y : float) :
  PrimFloat.is_finite x = true -> PrimFloat.is_finite y = true ->
  PrimFloat.is_nan (x * y) = false.
Proof.
  intros Fx Fy. apply is_nan_false. rewrite mul_spec.
  apply is_finite_spec in Fx. apply is_finite_spec in Fy.
  apply (SFmul_value (Prim2SF x) (Prim2SF y));
    auto using Prim2SF_valid.
Qed.

(** A product by a finite number other than zero is NaN only when the other
    factor is. *)
Lemma mul_nonzero_not_nan (x y : float) :
  PrimFloat.is_finite x = true -> PrimFloat.is_zero x = false ->
  PrimFloat.is_nan y = false ->
  PrimFloat.is_nan (x * y) = false.
Proof.
  intros Fx Zx Ny.
  destruct (PrimFloat.is_finite y) eqn:Fy; [apply mul_finite_not_nan; assumption|].
  apply is_nan_false. rewrite mul_spec.
  apply is_finite_spec in Fx. apply is_nan_false in Ny.
  assert (Hz : forall s, Prim2SF x <> S754_zero s).
  { intros s E. assert (PrimFloat.is_zero x = true) by (apply is_zero_spec; eauto).
    congruence. }
  destruct (Prim2SF y) as [sy|sy| |sy my ey] eqn:Ey; try congruence.
  - assert (PrimFloat.is_finite y = true) by (apply is_finite_spec; rewrite Ey; exact I).
    congruence.
  - destruct (Prim2SF x) as [sx|sx| |sx mx ex]; cbn in Fx; try contradiction.
    + destruct (Hz sx); reflexivity.
    + cbn. discriminate.
  - assert (PrimFloat.is_finite y = true) by (apply is_finite_spec; rewrite Ey; exact I).
    congruence.
Qed.

(** A sum with a finite number is NaN only when the other term is. *)
Lemma add_finite_not_nan (x y : float) :
  PrimFloat.is_nan x = false -> PrimFloat.is_finite y = true ->
  PrimFloat.is_nan (x + y) = false.
Proof.
  intros Nx Fy. apply is_nan_false. rewrite add_spec.
  apply is_nan_false in Nx. apply is_finite_spec in Fy.
  destruct (Prim2SF x) as [sx|sx| |sx mx ex] eqn:Ex; try congruence.
  - apply (SFadd_value (S754_zero sx) (Prim2SF y)); auto using Prim2SF_valid. exact I.
  - destruct (Prim2SF y) as [sy|sy| |sy my ey]; cbn in Fy; try contradiction;
      cbn; discriminate.
  - apply (SFadd_value (S754_finite sx mx ex) (Prim2SF y)); auto using Prim2SF_valid.
    + rewrite <- Ex. apply Prim2SF_valid.
    + exact I.
Qed.

#[local] Close Scope Z_scope.

(** ** Numbers that are not negative *)

#[local] Open Scope Z_scope.

Lemma Fval_zero : Fval 0%float = 0.
Proof. reflexivity. Qed.

(** [0 <= x] holds for the numbers that are not NaN and whose value is not
    negative. *)
Lemma leb0_spec (x : float) :
  PrimFloat.leb 0 x = true <-> PrimFloat.is_nan x = false /\ 0 <= Fval x.
Proof.
  rewrite leb_value, Fval_zero. split; [tauto|].
  intros [H1 H2]. repeat split; auto.
Qed.

Lemma ltb0_spec (x : float) :
  PrimFloat.ltb 0 x = true <-> PrimFloat.is_nan x = false /\ 0 < Fval x.
Proof.
  rewrite ltb_value, Fval_zero. split; [tauto|].
  intros [H1 H2]. repeat split; auto.
Qed.

Lemma ltb0_leb0 (x : float) : PrimFloat.ltb 0 x = true -> PrimFloat.leb 0 x = true.
Proof. rewrite ltb0_spec, leb0_spec. intros [H1 H2]; split; [exact H1 | lia]. Qed.

(** The forms of a number that is not negative. *)
Lemma nonneg_forms (x : float) :
  PrimFloat.leb 0 x = true ->
  match Prim2SF x with
  | S754_zero _ => True
  | S754_infinity s => s = false
  | S754_finite s _ _ => s = false
  | S754_nan => False
  end.
Proof.
  rewrite leb0_spec. intros [N V]. apply is_nan_false in N.
  unfold Fval in V. pose proof (Prim2SF_valid x) as Vx.
  destruct (Prim2SF x) as [s|s| |s m e]; cbn [SFvalue valid_binary] in *; auto.
  - destruct s; [|reflexivity].
    pose proof (pow2_pos (emax - -1074) ltac:(unfold emax; lia)). lia.
  - destruct s; [|reflexivity].
    pose proof (finite_below_B1 m e Vx). lia.
Qed.

(** The forms of a positive number. *)
Lemma positive_forms (x : float) :
  PrimFloat.ltb 0 x = true ->
  match Prim2SF x with
  | S754_infinity s => s = false
  | S754_finite s _ _ => s = false
  | _ => False
  end.
Proof.
  intros H. pose proof (nonneg_forms x (ltb0_leb0 x H)) as F.
  apply ltb0_spec in H. destruct H as [_ V]. unfold Fval in V.
  destruct (Prim2SF x) as [s|s| |s m e]; cbn [SFvalue] in *; auto; lia.
Qed.

Lemma positive_not_zero (x : float) :
  PrimFloat.ltb 0 x = true -> PrimFloat.is_zero x = false.
Proof.
  intros H. pose proof (positive_forms x H) as F.
  destruct (PrimFloat.is_zero x) eqn:Z; [|reflexivity].
  apply is_zero_spec in Z. destruct Z as (s & E). rewrite E in F. contradiction.
Qed.

Lemma sign_nonneg_leb (x : float) :
  Prim2SF x <> S754_nan -> sign_is false (Prim2SF x) -> PrimFloat.leb 0 x = true.
Proof.
  intros N S. apply leb0_spec. split; [apply is_nan_false; exact N|].
  apply sign_is_nonneg. exact S.
Qed.

Lemma zero_leb (x : float) (s : bool) : Prim2SF x = S754_zero s -> PrimFloat.leb 0 x = true.
Proof.
  intros E. apply leb0_spec. split.
  - apply is_nan_false. rewrite E. discriminate.
  - unfold Fval. rewrite E. cbn. lia.
Qed.

(** A product of numbers that are not negative is not negative, unless it
    is NaN. *)
Lemma mul_nonneg (x y : float) :
  PrimFloat.leb 0 x = true -> PrimFloat.leb 0 y = true ->
  PrimFloat.is_nan (x * y) = false ->
  PrimFloat.leb 0 (x * y) = true.
Proof.
  intros Hx Hy N.
  pose proof (nonneg_forms x Hx) as Fx. pose proof (nonneg_forms y Hy) as Fy.
  apply is_nan_false in N. rewrite mul_spec in N.
  destruct (Prim2SF x) as [sx|sx| |sx mx ex] eqn:Ex;
    destruct (Prim2SF y) as [sy|sy| |sy my ey] eqn:Ey;
    try contradiction; subst;
    try (cbn in N; congruence).
  - apply (zero_leb _ (xorb sx sy)). rewrite mul_spec, Ex, Ey. reflexivity.
  - apply (zero_leb _ (xorb sx false)). rewrite mul_spec, Ex, Ey. reflexivity.
  - apply sign_nonneg_leb; rewrite mul_spec, Ex, Ey; [discriminate | reflexivity].
  - apply sign_nonneg_leb; rewrite mul_spec, Ex, Ey; [discriminate | reflexivity].
  - apply (zero_leb _ (xorb false sy)). rewrite mul_spec, Ex, Ey. reflexivity.
  - apply sign_nonneg_leb; rewrite mul_spec, Ex, Ey; [discriminate | reflexivity].
  - apply sign_nonneg_leb; rewrite mul_spec, Ex, Ey; [exact N|].
    cbn [SFmul xorb]. apply binary_round_aux_sign.
Qed.

(** A sum of numbers that are not negative is not negative. *)
Lemma add_nonneg (x y : float) :
  PrimFloat.leb 0 x = true -> PrimFloat.leb 0 y = true ->
  PrimFloat.leb 0 (x + y) = true.
Proof.
  intros Hx Hy.
  assert (N : PrimFloat.is_nan (x + y) = false).
  { destruct (PrimFloat.is_finite y) eqn:Fy.
    - apply add_finite_not_nan; [apply leb0_spec in Hx; tauto | exact Fy].
    - pose proof (nonneg_forms x Hx) as Fx. pose proof (nonneg_forms y Hy) as Fy'.
      apply is_nan_false. rewrite add_spec.
      destruct (Prim2SF y) as [sy|sy| |sy my ey] eqn:Ey; try contradiction;
        try (assert (PrimFloat.is_finite y = true)
               by (apply is_finite_spec; rewrite Ey; exact I); congruence).
      subst sy.
      destruct (Prim2SF x) as [sx|sx| |sx mx ex]; try contradiction; subst;
        cbn; discriminate. }
  assert (L : le_or_nan (0 + 0) (x + y)).
  { apply add_le_or_nan; right; right; assumption. }
  destruct L as [L|[L|L]]; [vm_compute in L; discriminate | congruence | exact L].
Qed.

(** The quotient of a number that is not negative by a positive finite
    number is not negative. *)
Lemma div_nonneg (x y : float) :
  PrimFloat.leb 0 x = true -> PrimFloat.ltb 0 y = true -> PrimFloat.is_finite y = true ->
  PrimFloat.leb 0 (x / y) = true.
Proof.
  intros Hx Hy Fy.
  assert (N : PrimFloat.is_nan (x / y) = false).
  { apply div_not_nan; [apply leb0_spec in Hx; tauto | exact Fy|].
    apply positive_not_zero; exact Hy. }
  assert (L : PrimFloat.ltb (x / y) 0 = false).
  { apply div_not_negative; [|exact Hy].
    apply le_or_nan_not_ltb. right; right; exact Hx. }
  apply ltb_false_value in L. rewrite Fval_zero in L.
  apply leb0_spec. split; [exact N|].
  destruct L as [L|[L|L]]; [congruence | vm_compute in L; discriminate | exact L].
Qed.

(** ** Subtraction *)

Lemma SFsub_as_add (x y : spec_float) :
  SFsub prec emax x y = SFadd prec emax x (SFopp y).
Proof.
  destruct x as [sx|sx| |sx mx ex]; destruct y as [sy|sy| |sy my ey]; try reflexivity;
    destruct sx, sy; reflexivity.
Qed.

(** [x - y] is [x + (-y)]. *)
Lemma sub_as_add (x y : float) : (x - y = x + - y)%float.
Proof.
  apply Prim2SF_inj. rewrite sub_spec, add_spec, opp_spec. apply SFsub_as_add.
Qed.

#[local] Close Scope Z_scope.

(** [getNum] returns a finite number or NaN. *)
Lemma getNum_finite (v : Val) :
  JS.isNaN (getNum v) = false -> PrimFloat.is_finite (getNum v) = true.
Proof.
  unfold getNum, JS.isNaN, JS.isFinite. cbv zeta.
  destruct (PrimFloat.is_finite _) eqn:F; [intros _; exact F|].
  intros H. vm_compute in H. discriminate.
Qed.

(** ** Rounded numbers are valid *)

#[local] Open Scope Z_scope.

(** The integer core of [binary_round_aux] once more, with the case of a
    carry told apart: the exponent is the canonical one unless the mantissa
    is [2^52]. *)
Lemma binary_round_aux_carry (s : bool) (m : positive) (e : Z) :
  let E := fexp prec emax (Zpos (digits2_pos m) + e) in
  e <= E ->
  exists m2 e2,
    binary_round_aux prec emax s (Zpos m) e loc_Exact
    = match m2 with
      | Z0 => S754_zero s
      | Zpos p => if e2 <=? 971 then S754_finite s p e2 else S754_infinity s
      | Zneg _ => S754_nan
      end
    /\ 0 <= m2 < 2 ^ 53 /\ E <= e2 <= E + 1
    /\ m2 * 2 ^ (e2 - E) = rne_div (Zpos m) (E - e)
    /\ (-1074 < E -> 2 ^ 52 <= m2)
    /\ (e2 = E \/ m2 = 2 ^ 52).
Proof.
  intros E HE.
  set (M := Zpos m). set (d := Zpos (digits2_pos m)).
  assert (HEq : E = Z.max (d + e - 53) (-1074)) by reflexivity.
  set (n := E - e). assert (Hn : 0 <= n) by (subst n; lia).
  pose proof (digits2_pos_bounds m) as Hd. fold M d in Hd.
  assert (Hd0 : 0 < d) by (subst d; lia).
  set (M1 := rne_div M n).
  pose proof (rne_div_bounds M n) as HM1. fold M1 in HM1.
  assert (Hpn : 0 < 2 ^ n) by (apply pow2_pos; lia).
  assert (Hq0 : 0 <= M / 2 ^ n) by (apply Z.div_pos; subst M; lia).
  (* the quotient has at most 53 bits *)
  assert (Hq53 : M / 2 ^ n < 2 ^ 53).
  { apply Z.div_lt_upper_bound; [lia|].
    rewrite <- Z.pow_add_r by lia.
    apply Z.lt_le_trans with (2 ^ d); [lia|]. apply pow2_le; lia. }
  assert (Hq52 : -1074 < E -> 2 ^ 52 <= M / 2 ^ n).
  { intros HE1. apply Z.div_le_lower_bound; [lia|].
    rewrite <- Z.pow_add_r by lia.
    apply Z.le_trans with (2 ^ (d - 1)); [|lia]. apply pow2_le; lia. }
  (* first shift and rounding *)
  unfold binary_round_aux, shr_fexp.
  cbn [shr_record_of_loc].
  change (emax - prec) with 971.
  change (fexp prec emax (Zdigits2 M + e) - e) with n.
  pose proof (shr_spec M e n ltac:(subst M; lia) Hn) as Hs1.
  destruct (shr {| shr_m := M; shr_r := false; shr_s := false |} e n) as [mrs1 e1].
  destruct Hs1 as (He1 & Hm1 & Hl1).
  rewrite Hm1, Hl1, round_nearest_even_spec. fold M1.
  replace e1 with E by (subst n; lia).
  (* second shift *)
  destruct (Z.eq_dec M1 (2 ^ 53)) as [Hc|Hc].
  - (* the rounding carried into a 54th bit *)
    rewrite Hc.
    assert (Hn2 : fexp prec emax (Zdigits2 (2 ^ 53) + E) - E = 1).
    { change (Zdigits2 (2 ^ 53)) with 54. rewrite fexp_eq. lia. }
    rewrite Hn2. cbn [shr Z.add iter_pos shr_1 shr_m].
    change (2 ^ 53) with (Zpos (xO (Pos.pow 2 52))).
    cbn [shr_1 shr_m].
    exists (2 ^ 52), (E + 1).
    change (2 ^ 52) with (Zpos (Pos.pow 2 52)).
    split; [reflexivity|].
    change (Zpos (Pos.pow 2 52)) with (2 ^ 52).
    split; [split; [lia | reflexivity]|].
    split; [lia|].
    split; [replace (E + 1 - E) with 1 by lia; reflexivity|].
    split; [lia | right; reflexivity].
  - assert (HM1b : 0 <= M1 < 2 ^ 53) by lia.
    assert (Hn2 : fexp prec emax (Zdigits2 M1 + E) - E <= 0).
    { rewrite fexp_eq.
      destruct (Z.eq_dec M1 0) as [Hz|Hz]; [rewrite Hz; cbn [Zdigits2]; lia|].
      pose proof (Zdigits2_bounds M1 ltac:(lia)) as [[B1 B2] B3].
      assert (Zdigits2 M1 <= 53).
      { destruct (Z_le_gt_dec (Zdigits2 M1) 53) as [|G]; [assumption|].
        assert (2 ^ 53 <= 2 ^ (Zdigits2 M1 - 1)) by (apply pow2_le; lia). lia. }
      lia. }
    rewrite shr_nonpos by exact Hn2. cbn [shr_m].
    exists M1, E.
    split; [destruct M1; try reflexivity; lia|].
    split; [exact HM1b|].
    split; [lia|].
    split; [replace (E - E) with 0 by lia; change (rne_div (Zpos m) (E - e)) with M1;
            change (2 ^ 0) with 1; lia|].
    split; [intros HE1; specialize (Hq52 HE1); lia | left; reflexivity].
Qed.

Lemma digits2_pos_53 (p : positive) :
  2 ^ 52 <= Zpos p < 2 ^ 53 -> Zpos (digits2_pos p) = 53.
Proof.
  intros [H1 H2]. pose proof (digits2_pos_bounds p) as [B1 B2].
  assert (Zpos (digits2_pos p) <= 53).
  { destruct (Z_le_gt_dec (Zpos (digits2_pos p)) 53) as [|G]; [assumption|].
    assert (2 ^ 53 <= 2 ^ (Zpos (digits2_pos p) - 1)) by (apply pow2_le; lia). lia. }
  assert (53 <= Zpos (digits2_pos p)).
  { destruct (Z_le_gt_dec 53 (Zpos (digits2_pos p))) as [|G]; [assumption|].
    assert (2 ^ Zpos (digits2_pos p) <= 2 ^ 52) by (apply pow2_le; lia). lia. }
  lia.
Qed.

Lemma digits2_pos_le_53 (p : positive) : Zpos p < 2 ^ 53 -> Zpos (digits2_pos p) <= 53.
Proof.
  intros H. pose proof (digits2_pos_bounds p) as [B1 B2].
  destruct (Z_le_gt_dec (Zpos (digits2_pos p)) 53) as [|G]; [assumption|].
  assert (2 ^ 53 <= 2 ^ (Zpos (digits2_pos p) - 1)) by (apply pow2_le; lia). lia.
Qed.

Lemma bounded_intro (p : positive) (e : Z) :
  Zpos p < 2 ^ 53 -> -1074 <= e <= 971 -> (-1074 < e -> 2 ^ 52 <= Zpos p) ->
  bounded prec emax p e = true.
Proof.
  intros Hp He Hn. unfold bounded, canonical_mantissa.
  apply andb_true_intro. split; [|apply Z.leb_le; unfold emax, prec; lia].
  apply Z.eqb_eq. rewrite fexp_eq.
  destruct (Z.eq_dec e (-1074)) as [->|Hne].
  - pose proof (digits2_pos_le_53 p Hp). lia.
  - rewrite (digits2_pos_53 p) by lia. lia.
Qed.

(** Rounding an exact positive mantissa gives a valid number. *)
Lemma binary_round_aux_valid (s : bool) (m : positive) (e : Z) :
  e <= fexp prec emax (Zpos (digits2_pos m) + e) ->
  valid_binary (binary_round_aux prec emax s (Zpos m) e loc_Exact) = true.
Proof.
  intros HE.
  destruct (binary_round_aux_carry s m e HE) as (m2 & e2 & -> & Hm2 & He2 & Hv & Hn & Hc).
  set (E := fexp prec emax (Zpos (digits2_pos m) + e)) in *.
  assert (HEmin : -1074 <= E) by (subst E; rewrite fexp_eq; lia).
  destruct m2 as [|p|p]; [reflexivity | | lia].
  destruct (Z.leb_spec e2 971) as [Hle|Hgt]; [|reflexivity].
  cbn [valid_binary]. apply bounded_intro; [lia | lia |].
  intros H. destruct Hc as [Hc|Hc]; [apply Hn; lia | lia].
Qed.

Lemma binary_round_valid (s : bool) (m : positive) (e : Z) :
  valid_binary (binary_round prec emax s m e) = true.
Proof.
  unfold binary_round.
  pose proof (shl_align_spec m e (fexp prec emax (Zpos (digits2_pos m) + e))) as Hs.
  destruct (shl_align m e _) as [mz ez]. destruct Hs as [Hez Hmz].
  apply binary_round_aux_valid.
  set (E := fexp prec emax (Zpos (digits2_pos m) + e)) in *.
  assert (Hk : 0 <= e - ez) by lia.
  rewrite (digits_shift m (e - ez) mz Hk Hmz).
  replace (Zpos (digits2_pos m) + (e - ez) + ez) with (Zpos (digits2_pos m) + e) by lia.
  fold E. lia.
Qed.

Lemma binary_normalize_valid (M e : Z) (szero : bool) :
  valid_binary (binary_normalize prec emax M e szero) = true.
Proof.
  destruct M as [|p|p]; cbn [binary_normalize]; [reflexivity | |]; apply binary_round_valid.
Qed.

(** ** Multiplication by one *)

Lemma SFmul_one (x : spec_float) :
  valid_binary x = true -> SFmul prec emax x (Prim2SF 1%float) = x.
Proof.
  intros V. change (Prim2SF 1%float) with (S754_finite false 4503599627370496 (-52)).
  destruct x as [s|s| |s m e]; cbn [SFmul]; try (destruct s; reflexivity); [reflexivity|].
  cbn [valid_binary] in V. pose proof (bounded_facts m e V) as (Hf & He & Hm & Hn).
  assert (Hx : xorb s false = s) by (destruct s; reflexivity). rewrite Hx.
  assert (Hd : Zpos (digits2_pos (m * 4503599627370496)) = Zpos (digits2_pos m) + 52).
  { apply digits_shift; [lia|]. rewrite Pos2Z.inj_mul. reflexivity. }
  assert (HE : fexp prec emax (Zpos (digits2_pos (m * 4503599627370496)) + (e + -52)) = e).
  { rewrite Hd. replace (Zpos (digits2_pos m) + 52 + (e + -52))
      with (Zpos (digits2_pos m) + e) by lia. exact Hf. }
  destruct (binary_round_aux_carry s (m * 4503599627370496) (e + -52))
    as (m2 & e2 & -> & Hm2 & He2 & Hv & _ & Hc); [rewrite HE; lia|].
  rewrite HE in *.
  replace (e - (e + -52)) with 52 in Hv by lia.
  rewrite rne_div_exact in Hv
    by (rewrite Pos2Z.inj_mul; change (Zpos 4503599627370496) with (2 ^ 52);
        apply Z_mod_mult).
  rewrite Pos2Z.inj_mul in Hv. change (Zpos 4503599627370496) with (2 ^ 52) in Hv.
  rewrite Z_div_mult in Hv by lia.
  destruct Hc as [Hc|Hc].
  - subst e2. replace (e - e) with 0 in Hv by lia. change (2 ^ 0) with 1 in Hv.
    assert (m2 = Zpos m) by lia. subst m2.
    destruct (Z.leb_spec e 971); [reflexivity | lia].
  - subst m2. assert (e2 = e + 1 \/ e2 = e) by lia.
    destruct H as [-> | ->].
    + replace (e + 1 - e) with 1 in Hv by lia. change (2 ^ 1) with 2 in Hv. lia.
    + replace (e - e) with 0 in Hv by lia. change (2 ^ 0) with 1 in Hv.
      assert (Zpos m = 2 ^ 52) by lia.
      destruct (Z.leb_spec e 971); [|lia].
      f_equal. change (2 ^ 52) with (Zpos 4503599627370496) in *. congruence.
Qed.

(** [x * 1] is [x], for every number [x]. *)
Lemma mul_one_r (x : float) : (x * 1)%float = x.
Proof.
  apply Prim2SF_inj. rewrite mul_spec. apply SFmul_one. apply Prim2SF_valid.
Qed.

Lemma SFmul_comm (x y : spec_float) : SFmul prec emax x y = SFmul prec emax y x.
Proof.
  destruct x as [sx|sx| |sx mx ex]; destruct y as [sy|sy| |sy my ey]; cbn [SFmul];
    rewrite ?(xorb_comm sx sy); try reflexivity.
  rewrite (Pos.mul_comm mx my), (Z.add_comm ex ey). reflexivity.
Qed.

(** Multiplication is commutative. *)
Lemma mul_comm (x y : float) : (x * y)%float = (y * x)%float.
Proof. apply Prim2SF_inj. rewrite !mul_spec. apply SFmul_comm. Qed.

#[local] Close Scope Z_scope.

(** ** The numbers of lengths *)

#[local] Open Scope Z_scope.

(** The number of a positive length, as [round_fraction] builds it. *)
Lemma ofNat_positive (n : nat) :
  (0 < n)%nat ->
  exists M e,
    Prim2SF (JS.ofNat n) = binary_normalize prec emax M e false
    /\ -1074 <= e /\ 2 ^ 1074 <= M * 2 ^ (e - -1074).
Proof.
  intros Hn. unfold JS.ofNat, JS.round_decimal.
  assert (Hz : (Z.of_nat n =? 0) = false) by (apply Z.eqb_neq; lia).
  rewrite Hz. cbn [Z.leb Z.compare]. change (10 ^ 0) with 1. rewrite Z.mul_1_r.
  unfold JS.round_fraction. cbv zeta.
  change (Z.log2 1) with 0.
  set (N := Z.of_nat n). assert (HN : 0 < N) by (subst N; lia).
  set (k := 56 + 0 - Z.log2 N).
  pose proof (Z.log2_nonneg N) as Hl.
  pose proof (Z.log2_spec N HN) as [Hl1 Hl2].
  rewrite Prim2SF_SF2Prim by apply binary_normalize_valid.
  eexists _, _. split; [reflexivity|]. split; [lia|].
  destruct (Z.leb_spec 0 k) as [Hk|Hk].
  - rewrite Z.mod_1_r. cbn [Z.eqb]. rewrite Z.div_1_r.
    replace (- k - 1 - -1074) with (1073 - k) by lia.
    replace (2 * (N * 2 ^ k) + 0) with (N * 2 ^ (k + 1))
      by (rewrite Z.pow_add_r by lia; change (2 ^ 1) with 2; lia).
    rewrite <- Z.mul_assoc, <- Z.pow_add_r by lia.
    replace (k + 1 + (1073 - k)) with 1074 by lia.
    pose proof (pow2_pos 1074 ltac:(lia)). nia.
  - rewrite Z.mul_1_l.
    set (q := N / 2 ^ (- k)).
    assert (Hq : 2 ^ 56 <= q).
    { subst q. apply Z.div_le_lower_bound; [apply pow2_pos; lia|].
      rewrite <- Z.pow_add_r by lia.
      replace (- k + 56) with (Z.log2 N) by lia. exact Hl1. }
    replace (- k - 1 - -1074) with (1073 - k) by lia.
    assert (Hp : 2 ^ 1074 <= 2 ^ (1073 - k)) by (apply pow2_le; lia).
    pose proof (pow2_pos 1074 ltac:(lia)).
    match goal with |- context [if ?c then 0 else 1] => destruct c end; nia.
Qed.

Lemma binary_normalize_positive (M e : Z) :
  0 < M -> sign_is false (binary_normalize prec emax M e false)
           /\ binary_normalize prec emax M e false <> S754_nan.
Proof.
  intros H. destruct M as [|p|p]; try lia. cbn [binary_normalize].
  unfold binary_round. destruct (shl_align p e _) as [mz ez].
  split; [apply binary_round_aux_sign | apply binary_round_aux_not_nan; lia].
Qed.

(** The number of a length is not negative, and at least 1 for a length
    that is not 0. *)
Lemma ofNat_nonneg (n : nat) : PrimFloat.leb 0 (JS.ofNat n) = true.
Proof.
  destruct n as [|n]; [reflexivity|].
  destruct (ofNat_positive (S n) ltac:(lia)) as (M & e & E & He & HM).
  assert (0 < M).
  { pose proof (pow2_pos 1074 ltac:(lia)). pose proof (pow2_pos (e - -1074) ltac:(lia)). nia. }
  destruct (binary_normalize_positive M e H) as [S N].
  apply sign_nonneg_leb; rewrite E; assumption.
Qed.

Lemma ofNat_ge_one (n : nat) : (0 < n)%nat -> PrimFloat.leb 1 (JS.ofNat n) = true.
Proof.
  intros Hn.
  destruct (ofNat_positive n Hn) as (M & e & E & He & HM).
  destruct (binary_normalize_value M e He) as [N V].
  apply leb_value. split; [reflexivity|].
  split; [apply is_nan_false; rewrite E; exact N|].
  unfold Fval at 2. rewrite E, V.
  change (Fval 1) with (2 ^ 1074).
  apply Z.le_trans with (round_signed 0 B1 (2 ^ 1074)); [vm_compute; discriminate|].
  apply round_signed_mono; [lia | pose proof B1_pos; lia | exact HM].
Qed.

#[local] Close Scope Z_scope.

(** * Properties of the state updates *)

(** ** Printed numbers *)

Lemma append_not_empty_l (a b : string) : a <> "" -> a ++ b <> "".
Proof. destruct a; [congruence | discriminate]. Qed.

Lemma append_not_empty_r (a b : string) : b <> "" -> a ++ b <> "".
Proof. destruct a; [auto | discriminate]. Qed.

Lemma digits_not_empty (z : Z) : JS.digits z <> "".
Proof.
  unfold JS.digits.
  destruct (N.to_uint (Z.to_N z)); cbn; discriminate.
Qed.

(** [String(x)] is never the empty string. *)
Lemma toString_not_empty (x : float) : JS.toString x <> "".
Proof.
  unfold JS.toString.
  destruct (PrimFloat.is_nan x); [discriminate|].
  destruct (PrimFloat.is_zero x); [discriminate|].
  destruct (PrimFloat.is_infinity x); [destruct (PrimFloat.get_sign x); discriminate|].
  destruct (JS.fraction_of x) as [[[neg xn] xd]|]; [|discriminate].
  destruct (JS.shortestDecimal (abs x) xn xd) as [[s k] n].
  cbv zeta.
  match goal with
  | |- (if neg then "-" ++ ?b else ?b) <> _ =>
      assert (B : b <> ""); [|destruct neg; [discriminate | exact B]]
  end.
  pose proof (digits_not_empty s) as D.
  destruct ((k <=? n)%Z && (n <=? 21)%Z); [apply append_not_empty_l; exact D|].
  destruct ((0 <? n)%Z && (n <=? 21)%Z);
    [apply append_not_empty_r; discriminate|].
  destruct ((-6 <? n)%Z && (n <=? 0)%Z); [discriminate|].
  destruct (k =? 1)%Z.
  - apply append_not_empty_l; exact D.
  - apply append_not_empty_r; discriminate.
Qed.

(** Numbers that are [===] print the same. *)
Lemma strictEq_toString (x y : float) :
  JS.strictEq x y = true -> JS.toString x = JS.toString y.
Proof.
  intros H. destruct (strictEq_cases x y H) as [->|[Zx Zy]]; [reflexivity|].
  unfold JS.toString. rewrite Zx, Zy.
  assert (Nx : PrimFloat.is_nan x = false).
  { apply is_zero_spec in Zx. destruct Zx as (s & E).
    apply is_nan_false. rewrite E; discriminate. }
  assert (Ny : PrimFloat.is_nan y = false).
  { apply is_zero_spec in Zy. destruct Zy as (s & E).
    apply is_nan_false. rewrite E; discriminate. }
  rewrite Nx, Ny. reflexivity.
Qed.

(** ** Derived lists of an edited state *)

Ltac remove_step IH E :=
  cbn [filter idOf];
  match goal with
  | |- context [JS.strictEq ?x ?y] => destruct (JS.strictEq x y) eqn:E
  end;
  cbn [negb map flat_map app filter]; rewrite ?E; cbn [negb]; try exact IH.

Lemma panels_removeComponent (id0 : float) (prev : list AnyComponent) :
  panels (removeComponent id0 prev)
  = filter (fun p => negb (JS.strictEq (id p) id0)) (panels prev).
Proof.
  unfold removeComponent, panels.
  induction prev as [|c prev IH]; [reflexivity|].
  destruct c as [p|a|m|b|i]; remove_step IH E.
  - f_equal; exact IH.
  - destruct (String.eqb _ _); exact IH.
Qed.

Lemma mppts_removeComponent (id0 : float) (prev : list AnyComponent) :
  mppts (removeComponent id0 prev)
  = filter (fun m => negb (JS.strictEq (id m) id0)) (mppts prev).
Proof.
  unfold removeComponent, mppts.
  induction prev as [|c prev IH]; [reflexivity|].
  destruct c as [p|a|m|b|i]; remove_step IH E.
  - destruct (String.eqb _ _); exact IH.
  - f_equal; exact IH.
Qed.

Lemma batteries_removeComponent (id0 : float) (prev : list AnyComponent) :
  batteries (removeComponent id0 prev)
  = filter (fun b => negb (JS.strictEq (id b) id0)) (batteries prev).
Proof.
  unfold removeComponent, batteries.
  induction prev as [|c prev IH]; [reflexivity|].
  destruct c as [p|a|m|b|i]; remove_step IH E.
  - destruct (String.eqb _ _); exact IH.
  - f_equal; exact IH.
Qed.

Lemma inverters_removeComponent (id0 : float) (prev : list AnyComponent) :
  inverters (removeComponent id0 prev)
  = filter (fun i => negb (JS.strictEq (id i) id0)) (inverters prev).
Proof.
  unfold removeComponent, inverters.
  induction prev as [|c prev IH]; [reflexivity|].
  destruct c as [p|a|m|b|i]; remove_step IH E.
  - destruct (String.eqb _ _); exact IH.
  - f_equal; exact IH.
Qed.

Lemma arrays_removeComponent (id0 : float) (prev : list AnyComponent) :
  arrays (removeComponent id0 prev)
  = map (unassignFrom id0)
      (filter (fun a => negb (JS.strictEq (id a) id0)) (arrays prev)).
Proof.
  unfold removeComponent, arrays.
  induction prev as [|c prev IH]; [reflexivity|].
  destruct c as [p|a|m|b|i]; remove_step IH E.
  cbn [map]. unfold unassignFrom at 1.
  destruct (String.eqb _ _); cbn [flat_map app map]; f_equal; exact IH.
Qed.

Lemma unassignFrom_assigned (id0 : float) (a : SolarArrayConfiguration) :
  assignedMpptId (properties (unassignFrom id0 a)) <> JS.toString id0.
Proof.
  unfold unassignFrom.
  destruct (String.eqb _ _) eqn:E.
  - cbn. intros H. symmetry in H. exact (toString_not_empty id0 H).
  - apply String.eqb_neq in E. exact E.
Qed.

(** X1: after [removeComponent id], no component has the id [id] and no
    array is assigned to it; the panels, MPPTs, batteries and inverters are
    those that were there, without the removed one, and the arrays that stay
    are changed in their [assignedMpptId] only, and only when it was [id]. *)
Theorem removeComponent_removes (id0 : float) (prev : list AnyComponent) :
  (forall c, In c (removeComponent id0 prev) -> JS.strictEq (idOf c) id0 = false)
  /\ (forall a, In a (arrays (removeComponent id0 prev)) ->
                assignedMpptId (properties a) <> JS.toString id0)
  /\ panels (removeComponent id0 prev)
     = filter (fun p => negb (JS.strictEq (id p) id0)) (panels prev)
  /\ mppts (removeComponent id0 prev)
     = filter (fun m => negb (JS.strictEq (id m) id0)) (mppts prev)
  /\ batteries (removeComponent id0 prev)
     = filter (fun b => negb (JS.strictEq (id b) id0)) (batteries prev)
  /\ inverters (removeComponent id0 prev)
     = filter (fun i => negb (JS.strictEq (id i) id0)) (inverters prev)
  /\ (forall a, In a (arrays (removeComponent id0 prev)) ->
        exists a0, In a0 (arrays prev)
          /\ id a = id a0 /\ name a = name a0
          /\ selectedPanelId (properties a) = selectedPanelId (properties a0)
          /\ panelsInSeries (properties a) = panelsInSeries (properties a0)
          /\ numberOfStrings (properties a) = numberOfStrings (properties a0)
          /\ (assignedMpptId (properties a) = assignedMpptId (properties a0)
              \/ assignedMpptId (properties a0) = JS.toString id0
                 /\ assignedMpptId (properties a) = "")).
Proof.
  split.
  { intros c Hc. unfold removeComponent in Hc.
    apply in_map_iff in Hc. destruct Hc as (c0 & Ec & Hc0).
    apply filter_In in Hc0. destruct Hc0 as [_ Hn].
    apply negb_true_iff in Hn.
    destruct c0 as [p|a|m|b|i]; subst c; try exact Hn.
    destruct (String.eqb _ _); exact Hn. }
  split.
  { intros a Ha. rewrite arrays_removeComponent in Ha.
    apply in_map_iff in Ha. destruct Ha as (a0 & <- & _).
    apply unassignFrom_assigned. }
  split; [apply panels_removeComponent|].
  split; [apply mppts_removeComponent|].
  split; [apply batteries_removeComponent|].
  split; [apply inverters_removeComponent|].
  intros a Ha. rewrite arrays_removeComponent in Ha.
  apply in_map_iff in Ha. destruct Ha as (a0 & <- & Ha0).
  apply filter_In in Ha0. destruct Ha0 as [Ha0 _].
  exists a0. split; [exact Ha0|].
  unfold unassignFrom.
  destruct (String.eqb _ _) eqn:E; cbn; repeat split; auto.
  right. apply String.eqb_eq in E. auto.
Qed.

(** ** Assignments stay resolved *)

Lemma renamed_id {TProps : Type} (id0 : float) (n : string) (c : BaseComponent TProps) :
  id (renamed id0 n c) = id c.
Proof. unfold renamed. destruct (JS.strictEq _ _); reflexivity. Qed.

Lemma renamed_properties {TProps : Type} (id0 : float) (n : string)
    (c : BaseComponent TProps) :
  properties (renamed id0 n c) = properties c.
Proof. unfold renamed. destruct (JS.strictEq _ _); reflexivity. Qed.

Ltac rename_step IH :=
  cbn [map idOf flat_map app]; try unfold renamed at 1;
  match goal with
  | |- context [JS.strictEq ?x ?y] => destruct (JS.strictEq x y)
  end;
  cbn [withName flat_map app map]; rewrite ?IH; reflexivity.

Lemma panels_updateComponentName (id0 : float) (n : string) (prev : list AnyComponent) :
  panels (updateComponentName id0 n prev) = map (renamed id0 n) (panels prev).
Proof.
  unfold updateComponentName, panels.
  induction prev as [|c prev IH]; [reflexivity|].
  destruct c as [p|a|m|b|i]; rename_step IH.
Qed.

Lemma arrays_updateComponentName (id0 : float) (n : string) (prev : list AnyComponent) :
  arrays (updateComponentName id0 n prev) = map (renamed id0 n) (arrays prev).
Proof.
  unfold updateComponentName, arrays.
  induction prev as [|c prev IH]; [reflexivity|].
  destruct c as [p|a|m|b|i]; rename_step IH.
Qed.

Lemma mppts_updateComponentName (id0 : float) (n : string) (prev : list AnyComponent) :
  mppts (updateComponentName id0 n prev) = map (renamed id0 n) (mppts prev).
Proof.
  unfold updateComponentName, mppts.
  induction prev as [|c prev IH]; [reflexivity|].
  destruct c as [p|a|m|b|i]; rename_step IH.
Qed.

Lemma batteries_updateComponentName (id0 : float) (n : string) (prev : list AnyComponent) :
  batteries (updateComponentName id0 n prev) = map (renamed id0 n) (batteries prev).
Proof.
  unfold updateComponentName, batteries.
  induction prev as [|c prev IH]; [reflexivity|].
  destruct c as [p|a|m|b|i]; rename_step IH.
Qed.

Lemma inverters_updateComponentName (id0 : float) (n : string) (prev : list AnyComponent) :
  inverters (updateComponentName id0 n prev) = map (renamed id0 n) (inverters prev).
Proof.
  unfold updateComponentName, inverters.
  induction prev as [|c prev IH]; [reflexivity|].
  destruct c as [p|a|m|b|i]; rename_step IH.
Qed.

(** The component that [cloneComponent] appends. *)
Lemma cloneComponent_cases (id0 now random : float) (prev : list AnyComponent) :
  cloneComponent id0 now random prev = prev
  /\ find (fun c => JS.strictEq (idOf c) id0) prev = None
  \/ exists orig cloned,
       find (fun c => JS.strictEq (idOf c) id0) prev = Some orig
       /\ cloneComponent id0 now random prev = (prev ++ [cloned])%list
       /\ idOf cloned = (now + random)%float
       /\ nameOf cloned = nameOf orig ++ " (Clone)"
       /\ match orig, cloned with
          | Panel o, Panel c => properties c = properties o
          | ArrayConfig o, ArrayConfig c =>
              properties c = properties (withAssignedMpptId o "")
          | Mppt o, Mppt c => properties c = properties o
          | Batt o, Batt c => properties c = properties o
          | Inv o, Inv c => properties c = properties o
          | _, _ => False
          end.
Proof.
  unfold cloneComponent.
  destruct (find _ prev) as [orig|]; [right | left; auto].
  destruct orig as [p|a|m|b|i]; eexists _, _; (split; [reflexivity|]);
    (split; [reflexivity|]); cbn; auto.
Qed.

Lemma isEmptyString_spec (s : string) : JS.isEmptyString s = true <-> s = "".
Proof. destruct s; cbn; split; congruence. Qed.

(** X2: the edits keep the assignments resolved.  When every non-empty
    [assignedMpptId] is the id of an MPPT of the list, it is so after
    [removeComponent], [cloneComponent] and [updateComponentName] too; and
    then every array is either counted as unassigned by rule 3 or checked
    under the MPPT it names. *)
Theorem assignments_stay_resolved (cs : list AnyComponent) :
  assignmentsResolve cs ->
  (forall id0, assignmentsResolve (removeComponent id0 cs))
  /\ (forall id0 now random, assignmentsResolve (cloneComponent id0 now random cs))
  /\ (forall id0 n, assignmentsResolve (updateComponentName id0 n cs))
  /\ (forall a, In a (arrays cs) ->
        In a (unassignedArrays (arrays cs))
        \/ exists m, In m (mppts cs) /\ In a (assignedTo (arrays cs) m)).
Proof.
  intros R. split; [|split; [|split]].
  - intros id0 a Ha.
    rewrite arrays_removeComponent in Ha.
    apply in_map_iff in Ha. destruct Ha as (a0 & <- & Ha0).
    apply filter_In in Ha0. destruct Ha0 as [Ha0 _].
    unfold unassignFrom.
    destruct (String.eqb _ _) eqn:E; [left; reflexivity|].
    apply String.eqb_neq in E.
    destruct (R a0 Ha0) as [H|(m & Hm & H)]; [left; exact H | right].
    exists m. split; [|exact H].
    rewrite mppts_removeComponent. apply filter_In. split; [exact Hm|].
    apply negb_true_iff.
    destruct (JS.strictEq (id m) id0) eqn:S; [|reflexivity].
    apply strictEq_toString in S. congruence.
  - intros id0 now random a Ha.
    destruct (cloneComponent_cases id0 now random cs)
      as [[E _]|(orig & cloned & _ & E & _ & _ & P)];
      rewrite E in *; [exact (R a Ha)|].
    rewrite arrays_app in Ha. apply in_app_or in Ha.
    destruct Ha as [Ha|Ha].
    + destruct (R a Ha) as [H|(m & Hm & H)]; [left; exact H | right].
      exists m. split; [|exact H]. rewrite mppts_app. apply in_or_app; left; exact Hm.
    + destruct orig, cloned; try contradiction; cbn in Ha; try contradiction.
      destruct Ha as [<-|[]]. left. rewrite P. reflexivity.
  - intros id0 n a Ha.
    rewrite arrays_updateComponentName in Ha.
    apply in_map_iff in Ha. destruct Ha as (a0 & <- & Ha0).
    rewrite renamed_properties.
    destruct (R a0 Ha0) as [H|(m & Hm & H)]; [left; exact H | right].
    exists (renamed id0 n m). split.
    + rewrite mppts_updateComponentName. apply in_map. exact Hm.
    + rewrite renamed_id. exact H.
  - intros a Ha.
    destruct (R a Ha) as [H|(m & Hm & H)].
    + left. apply filter_In. split; [exact Ha|]. apply isEmptyString_spec. exact H.
    + right. exists m. split; [exact Hm|].
      apply filter_In. split; [exact Ha|]. apply String.eqb_eq. exact H.
Qed.

(** ** Removing a panel *)

(** X3: [removeComponent] does not touch [selectedPanelId].  An array
    built from the removed panel stays, with the [selectedPanelId] it had;
    this now is the id of no panel, and the array adds nothing to
    [totalSolarPower]. *)
Theorem removeComponent_keeps_panel_reference (id0 : float) (prev : list AnyComponent)
    (a : SolarArrayConfiguration) :
  In a (arrays prev) ->
  JS.strictEq (id a) id0 = false ->
  (forall p, In p (panels prev) ->
     JS.strictEq (id p) (JS.Number (selectedPanelId (properties a))) = true ->
     JS.strictEq (id p) id0 = true) ->
  In (unassignFrom id0 a) (arrays (removeComponent id0 prev))
  /\ selectedPanelId (properties (unassignFrom id0 a)) = selectedPanelId (properties a)
  /\ findPanel (panels (removeComponent id0 prev)) (unassignFrom id0 a) = None
  /\ forall total,
       solarPowerStep (panels (removeComponent id0 prev)) total (unassignFrom id0 a)
       = Normal total.
Proof.
  intros Ha Hid Hp.
  assert (Hs : selectedPanelId (properties (unassignFrom id0 a))
               = selectedPanelId (properties a)).
  { unfold unassignFrom. destruct (String.eqb _ _); reflexivity. }
  assert (Hf : findPanel (panels (removeComponent id0 prev)) (unassignFrom id0 a) = None).
  { unfold findPanel. rewrite Hs. apply find_all_false.
    intros p Hin. rewrite panels_removeComponent in Hin.
    apply filter_In in Hin. destruct Hin as [Hin Hn].
    apply negb_true_iff in Hn.
    destruct (JS.strictEq (id p) (JS.Number (selectedPanelId (properties a)))) eqn:E;
      [|reflexivity].
    rewrite (Hp p Hin E) in Hn. discriminate. }
  split; [|split; [exact Hs | split; [exact Hf|]]].
  - rewrite arrays_removeComponent. apply in_map. apply filter_In.
    split; [exact Ha | rewrite Hid; reflexivity].
  - intros total. apply solarPowerStep_unresolved. exact Hf.
Qed.

(** ** Cloning an array *)

(** The power step reads the properties of the array only. *)
Lemma solarPowerStep_properties ps total (a b : SolarArrayConfiguration) :
  selectedPanelId (properties a) = selectedPanelId (properties b) ->
  panelsInSeries (properties a) = panelsInSeries (properties b) ->
  numberOfStrings (properties a) = numberOfStrings (properties b) ->
  solarPowerStep ps total a = solarPowerStep ps total b.
Proof.
  intros H1 H2 H3. unfold solarPowerStep, findPanel. rewrite H1, H2, H3. reflexivity.
Qed.

Lemma panels_app_other cs c :
  (forall p, c <> Panel p) -> panels (cs ++ [c]) = panels cs.
Proof.
  intros H. rewrite panels_app. destruct c; cbn; try apply app_nil_r.
  exfalso; eapply H; reflexivity.
Qed.

(** X4: cloning an array configuration appends a copy that is assigned to
    no MPPT.  The copy is one more unassigned array for rule 3, the arrays
    checked under each MPPT are the same, and [totalSolarPower] is the
    former total after one more step for the same array: the array counts
    twice. *)
Theorem cloneComponent_array (id0 now random : float) (prev : list AnyComponent)
    (si : SystemInputs) (o : SolarArrayConfiguration) :
  find (fun c => JS.strictEq (idOf c) id0) prev = Some (ArrayConfig o) ->
  exists cloned,
    cloneComponent id0 now random prev = (prev ++ [ArrayConfig cloned])%list
    /\ id cloned = (now + random)%float
    /\ name cloned = name o ++ " (Clone)"
    /\ assignedMpptId (properties cloned) = ""
    /\ unassignedArrays (arrays (cloneComponent id0 now random prev))
       = (unassignedArrays (arrays prev) ++ [cloned])%list
    /\ (forall m, assignedTo (arrays (cloneComponent id0 now random prev)) m
                  = assignedTo (arrays prev) m)
    /\ exists st st',
         stats prev si = Normal st
         /\ stats (cloneComponent id0 now random prev) si = Normal st'
         /\ solarPowerStep (panels prev) (totalSolarPower st) o
            = Normal (totalSolarPower st').
Proof.
  intros F.
  exists (mkComponent (now + random)%float (name o ++ " (Clone)")
            (properties (withAssignedMpptId o ""))).
  assert (E : cloneComponent id0 now random prev
              = (prev ++ [ArrayConfig
                            (mkComponent (now + random)%float (name o ++ " (Clone)")
                               (properties (withAssignedMpptId o "")))])%list).
  { unfold cloneComponent. rewrite F. reflexivity. }
  rewrite E.
  split; [reflexivity|]. split; [reflexivity|]. split; [reflexivity|]. split; [reflexivity|].
  split.
  { unfold unassignedArrays. rewrite arrays_app, filter_app. reflexivity. }
  split.
  { intros m. unfold assignedTo. rewrite arrays_app, filter_app. cbn.
    destruct (JS.toString (id m)) eqn:S;
      [destruct (toString_not_empty _ S) | apply app_nil_r]. }
  destruct (stats_fields prev si) as (st & Es & Et & _).
  destruct (stats_fields
              (prev ++ [ArrayConfig
                          (mkComponent (now + random)%float (name o ++ " (Clone)")
                             (properties (withAssignedMpptId o "")))]) si)
    as (st' & Es' & Et' & _).
  exists st, st'. split; [exact Es|]. split; [exact Es'|].
  rewrite panels_app_other in Et' by discriminate.
  rewrite arrays_app, forEach_app, Et in Et'. cbn in Et'.
  destruct (solarPowerStep _ _ _) as [t|] eqn:St in Et'; [|discriminate].
  cbn in Et'. rewrite <- Et'.
  rewrite <- St. apply solarPowerStep_properties; reflexivity.
Qed.

(** ** Renaming a component *)

Lemma fold_left_map_same {A B : Type} (f : A -> B -> A) (g : B -> B) (l : list B) :
  (forall a b, f a (g b) = f a b) ->
  forall a, fold_left f (map g l) a = fold_left f l a.
Proof.
  intros H. induction l as [|b l IH]; intros a; cbn; [reflexivity|].
  rewrite H. apply IH.
Qed.

Lemma forEach_map_same {S A : Type} (f f' : S -> A -> Completion S) (g : A -> A)
    (l : list A) :
  (forall s a, f' s (g a) = f s a) ->
  forall s, forEach f' (map g l) s = forEach f l s.
Proof.
  intros H. induction l as [|a l IH]; intros s; cbn; [reflexivity|].
  rewrite H. destruct (f s a); cbn; [apply IH | reflexivity].
Qed.

Lemma find_map_same {A : Type} (f : A -> bool) (g : A -> A) (l : list A) :
  (forall a, f (g a) = f a) ->
  find f (map g l) = option_map g (find f l).
Proof.
  intros H. induction l as [|a l IH]; cbn; [reflexivity|].
  rewrite H. destruct (f a); [reflexivity | exact IH].
Qed.

Lemma solarPowerStep_renamed id0 n ps total a :
  solarPowerStep (map (renamed id0 n) ps) total (renamed id0 n a)
  = solarPowerStep ps total a.
Proof.
  unfold solarPowerStep, findPanel. rewrite (renamed_properties id0 n a).
  rewrite find_map_same by (intros p; rewrite renamed_id; reflexivity).
  destruct (find _ ps) as [p|]; cbn; [|reflexivity].
  rewrite renamed_properties. reflexivity.
Qed.

(** X5: a name is not read by the aggregator: [updateComponentName] leaves
    every statistic as it is. *)
Theorem updateComponentName_keeps_stats (id0 : float) (n : string)
    (prev : list AnyComponent) (si : SystemInputs) :
  stats (updateComponentName id0 n prev) si = stats prev si.
Proof.
  unfold stats. cbv zeta.
  rewrite panels_updateComponentName, arrays_updateComponentName,
    mppts_updateComponentName, batteries_updateComponentName,
    inverters_updateComponentName.
  rewrite (forEach_map_same (solarPowerStep (panels prev)))
    by (intros; apply solarPowerStep_renamed).
  rewrite (fold_left_map_same batteryStep)
    by (intros [c v] b; unfold batteryStep; rewrite renamed_properties; reflexivity).
  rewrite (fold_left_map_same inverterStep)
    by (intros a b; unfold inverterStep; rewrite renamed_properties; reflexivity).
  rewrite (fold_left_map_same panelInterconnectStep)
    by (intros a b; unfold panelInterconnectStep; rewrite renamed_properties; reflexivity).
  rewrite (fold_left_map_same arrayToChargerStep)
    by (intros a b; unfold arrayToChargerStep; rewrite renamed_properties; reflexivity).
  rewrite !length_map. reflexivity.
Qed.

(** * Further properties of the diagnostics *)

(** ** The order of the rules *)

Lemma unassignedNote_part cs msgs :
  unassignedNote cs msgs = (msgs ++ unassignedPart cs)%list.
Proof.
  unfold unassignedNote, unassignedPart, add; cbv zeta.
  destruct (0 <? List.length (unassignedArrays (arrays cs)))%nat;
    [|symmetry; apply app_nil_r].
  destruct (0 <? List.length (mppts cs))%nat; reflexivity.
Qed.

Lemma closingNotes_parts cs msgs :
  closingNotes cs msgs
  = ((msgs ++ fixedNotes) ++ summaryPart cs (msgs ++ fixedNotes))%list.
Proof.
  unfold closingNotes, summaryPart, fixedNotes, add; cbv zeta.
  rewrite <- !app_assoc. cbn [app].
  change (fun m : CategorizedMessage => MessageLevel_eqb (level m) Error) with isError.
  change (fun m : CategorizedMessage => JS.startsWith (levelName (level m)) "warn")
    with isWarning.
  destruct (0 <? List.length cs)%nat; [|reflexivity].
  destruct (existsb isError _); [reflexivity|].
  destruct (existsb isWarning _); reflexivity.
Qed.

(** The list of messages, part by part. *)
Lemma messages_parts (cs : list AnyComponent) (st : ComputedStats)
    (si : SystemInputs) :
  exists sM sB sI sP,
    let body :=
      (nudgePart cs ++ mixedPart st ++ unassignedPart cs
       ++ sM ++ sB ++ sI ++ sP ++ fixedNotes)%list in
    messages cs st si = Normal (body ++ summaryPart cs body)%list
    /\ Forall (Emitted cs st si RMppt) sM
    /\ Forall (Emitted cs st si RBattery) sB
    /\ Forall (Emitted cs st si RInverter) sI
    /\ Forall (Emitted cs st si RProduction) sP.
Proof.
  unfold messages; cbv zeta.
  set (m1 := if (List.length cs =? 0)%nat then add Info nudgeText [] else []).
  set (m2 := if voltageConsistencyIssue st then add Error mixedVoltagesText m1 else m1).
  assert (H2 : m2 = (nudgePart cs ++ mixedPart st)%list).
  { subst m2 m1. unfold nudgePart, mixedPart.
    destruct (List.length cs =? 0)%nat, (voltageConsistencyIssue st); reflexivity. }
  rewrite unassignedNote_part.
  destruct (mpptLoop_emits cs st si (m2 ++ unassignedPart cs)%list) as (m4 & E4 & sM & -> & FM).
  rewrite E4; cbn [bind].
  destruct (fold_left_keeps (batteryCheck st (totalMpptOutputCurrent (mppts cs)))
              (appends (Emitted cs st si RBattery)) (batteries cs)
              (appends_refl _) (appends_trans _)
              (fun s b Hb => batteryCheck_emits cs st si s b Hb)
              ((m2 ++ unassignedPart cs) ++ sM)%list) as (sB & EB & FB).
  rewrite EB.
  destruct (fold_left_keeps (inverterCheck si)
              (appends (Emitted cs st si RInverter)) (inverters cs)
              (appends_refl _) (appends_trans _)
              (fun s i Hi => inverterCheck_emits cs st si s i Hi)
              (((m2 ++ unassignedPart cs) ++ sM) ++ sB)%list) as (sI & EI & FI).
  rewrite EI.
  destruct (productionNotes_emits cs st si
              ((((m2 ++ unassignedPart cs) ++ sM) ++ sB) ++ sI)%list) as (sP & EP & FP).
  rewrite EP, closingNotes_parts.
  exists sM, sB, sI, sP. cbv zeta.
  split; [|auto].
  rewrite H2. rewrite <- !app_assoc. reflexivity.
Qed.

(** X6: the messages come in the order of the rules.  The list is the nudge
    of the empty system, the error of mixed voltages, the note of the
    unassigned arrays, the messages of the MPPT checks, of the battery checks,
    of the inverter checks and of the production notes, the two general notes
    and the summary, each part possibly empty; the summary is computed from
    all the messages before it. *)
Theorem messages_in_rule_order (cs : list AnyComponent) (st : ComputedStats)
    (si : SystemInputs) :
  exists sM sB sI sP,
    let body :=
      (nudgePart cs ++ mixedPart st ++ unassignedPart cs
       ++ sM ++ sB ++ sI ++ sP ++ fixedNotes)%list in
    messages cs st si = Normal (body ++ summaryPart cs body)%list
    /\ Forall (Emitted cs st si RMppt) sM
    /\ Forall (Emitted cs st si RBattery) sB
    /\ Forall (Emitted cs st si RInverter) sI
    /\ Forall (Emitted cs st si RProduction) sP.
Proof. exact (messages_parts cs st si). Qed.

(** ** The summary *)

Lemma isError_spec (m : CategorizedMessage) : isError m = true <-> level m = Error.
Proof.
  unfold isError, MessageLevel_eqb.
  destruct (level m); cbn; split; intros H; congruence.
Qed.

Lemma isWarning_spec (m : CategorizedMessage) :
  isWarning m = true
  <-> level m = WarnSafety \/ level m = WarnSizing \/ level m = WarnCRate \/ level m = Warn.
Proof.
  unfold isWarning, JS.startsWith.
  destruct (level m); cbn; split; intros H; try discriminate; auto;
    repeat (destruct H as [H|H]; try discriminate); discriminate.
Qed.

Lemma existsb_false_forall {A : Type} (f : A -> bool) (l : list A) :
  existsb f l = false -> forall x, In x l -> f x = false.
Proof.
  intros H x Hx. destruct (f x) eqn:E; [|reflexivity].
  assert (existsb f l = true) by (apply existsb_exists; eauto). congruence.
Qed.

(** X7: the summary.  When there is a component, the list of messages ends
    with the two general notes and one summary: the critical one when some
    message before has the level [error], else the one about warnings when
    some message before has one of the four [warn] levels, else the one that
    finds the configuration compatible. *)
Theorem rollup_summary (cs : list AnyComponent) (st : ComputedStats) (si : SystemInputs) :
  cs <> [] ->
  exists front s,
    messages cs st si = Normal (front ++ fixedNotes ++ [s])%list
    /\ (s = message Error criticalText /\ (exists m, In m front /\ level m = Error)
        \/ s = message Warn warningsText
           /\ (forall m, In m front -> level m <> Error)
           /\ (exists m, In m front
                 /\ (level m = WarnSafety \/ level m = WarnSizing
                     \/ level m = WarnCRate \/ level m = Warn))
        \/ s = message Info compatibleText
           /\ (forall m, In m front -> level m = InfoSafety \/ level m = Info)).
Proof.
  intros Hne.
  destruct (messages_parts cs st si) as (sM & sB & sI & sP & E & _).
  cbv zeta in E.
  set (front := (nudgePart cs ++ mixedPart st ++ unassignedPart cs
                 ++ sM ++ sB ++ sI ++ sP)%list).
  assert (Hb : (nudgePart cs ++ mixedPart st ++ unassignedPart cs
                ++ sM ++ sB ++ sI ++ sP ++ fixedNotes)%list = (front ++ fixedNotes)%list).
  { subst front. rewrite <- !app_assoc. reflexivity. }
  rewrite Hb in E. clearbody front.
  unfold summaryPart in E.
  assert (Hl : (0 <? List.length cs)%nat = true).
  { destruct cs; [congruence | reflexivity]. }
  rewrite Hl in E.
  assert (He : existsb isError (front ++ fixedNotes) = existsb isError front).
  { rewrite existsb_app. cbn. apply orb_false_r. }
  assert (Hw : existsb isWarning (front ++ fixedNotes) = existsb isWarning front).
  { rewrite existsb_app. cbn. apply orb_false_r. }
  rewrite He, Hw in E.
  eexists front, _. split; [rewrite E, <- app_assoc; reflexivity|].
  destruct (existsb isError front) eqn:Xe.
  - left. split; [reflexivity|].
    apply existsb_exists in Xe. destruct Xe as (m & Hm & Em).
    exists m. split; [exact Hm | apply isError_spec; exact Em].
  - right.
    assert (NoErr : forall m, In m front -> level m <> Error).
    { intros m Hm L. apply isError_spec in L.
      rewrite (existsb_false_forall _ _ Xe m Hm) in L. discriminate. }
    destruct (existsb isWarning front) eqn:Xw.
    + left. split; [reflexivity|]. split; [exact NoErr|].
      apply existsb_exists in Xw. destruct Xw as (m & Hm & Em).
      exists m. split; [exact Hm | apply isWarning_spec; exact Em].
    + right. split; [reflexivity|].
      intros m Hm. pose proof (NoErr m Hm) as N1.
      pose proof (existsb_false_forall _ _ Xw m Hm) as N2.
      destruct (level m) eqn:L; auto; try congruence;
        exfalso; assert (W : isWarning m = true) by (apply isWarning_spec; rewrite L; auto);
        congruence.
Qed.

(** ** The inverter window *)

Lemma mul_not_nan_l (a c : float) :
  PrimFloat.is_nan (a * c) = false -> PrimFloat.is_nan a = false.
Proof.
  intros H. destruct (PrimFloat.is_nan a) eqn:N; [|reflexivity].
  rewrite (mul_nan_l a c N) in H. discriminate.
Qed.

Section InverterReaches.
Variables (cs : list AnyComponent) (st : ComputedStats) (si : SystemInputs).

(** A message pushed by the loop over the inverters is in the result. *)
Lemma messages_after_inverters (m : CategorizedMessage) :
  (forall msgs0, In m (fold_left (inverterCheck si) (inverters cs) msgs0)) ->
  exists msgs, messages cs st si = Normal msgs /\ In m msgs.
Proof.
  intros H; unfold messages; cbv zeta.
  match goal with
  | |- context [forEach _ _ ?m0] => destruct (mpptLoop_emits cs st si m0) as (m1 & E1 & _)
  end.
  rewrite E1; simpl; eexists; split; [reflexivity|].
  eapply appends_In; [apply closingNotes_emits with (st := st) (si := si)|].
  eapply appends_In; [apply productionNotes_emits|].
  apply H.
Qed.

Lemma inverter_message_reaches (inv : Inverter) (m : CategorizedMessage) :
  In inv (inverters cs) ->
  (forall msgs0, In m (inverterCheck si msgs0 inv)) ->
  exists msgs, messages cs st si = Normal msgs /\ In m msgs.
Proof.
  intros Hi Hin. apply messages_after_inverters. intros msgs0.
  apply fold_left_reaches with (a := inv).
  - exact Hi.
  - intros s i' Hi' Hs.
    eapply appends_In;
      [apply inverterCheck_emits with (cs := cs) (st := st); exact Hi' | exact Hs].
  - exact Hin.
Qed.

Lemma discharge_message_reaches (b : Battery) (m : CategorizedMessage) :
  In b (batteries cs) ->
  JS.gtb (getNum (capacityAh (properties b))) 0 = true ->
  (forall msgs0,
      In m (dischargeCheck b (totalInverterPower st)
              (getNum (maxDischargeCurrent (properties b)))
              (getNum (nominalVoltage (properties b))) msgs0)) ->
  exists msgs, messages cs st si = Normal msgs /\ In m msgs.
Proof.
  intros Hb Hcap Hin. apply messages_after_batteries. intros msgs0.
  apply fold_left_reaches with (a := b).
  - exact Hb.
  - intros s b' Hb' Hs.
    eapply appends_In; [apply batteryCheck_emits with (st := st) (si := si); exact Hb'|exact Hs].
  - intros s. unfold batteryCheck; cbv zeta.
    rewrite (gtb_not_nan _ _ Hcap), Hcap; cbn [negb andb]. apply Hin.
Qed.
End InverterReaches.

Lemma evaluate_with cs si st :
  stats cs si = Normal st ->
  forall m, (exists msgs, messages cs st si = Normal msgs /\ In m msgs) ->
  exists msgs, evaluate cs si = Normal (st, msgs) /\ In m msgs.
Proof.
  intros Es m (msgs & Em & Hin). exists msgs. split; [|exact Hin].
  unfold evaluate. rewrite Es. cbn [bind]. rewrite Em. reflexivity.
Qed.

Lemma evaluate_messages cs si :
  exists st msgs,
    evaluate cs si = Normal (st, msgs) /\ stats cs si = Normal st
    /\ messages cs st si = Normal msgs.
Proof.
  destruct (evaluate_emitted cs si) as (st & msgs & Ev & Es & Em & _). eauto 6.
Qed.

Lemma In_messages cs si st msgs m :
  messages cs st si = Normal msgs ->
  (exists msgs', messages cs st si = Normal msgs' /\ In m msgs') -> In m msgs.
Proof. intros E (msgs' & E' & H). congruence. Qed.

(** X8: the inverter window.  For every inverter, a system voltage below
    [inputVoltageMin] gets the [error] of the minimum, and one that is not
    below it but below 1.05 times it gets the [warn-sizing] note; a system
    voltage above [inputVoltageMax] gets the [error] of the maximum, and one
    that is not above it but above 0.95 times it gets the [warn-sizing]
    note. *)
Theorem inverter_window (cs : list AnyComponent) (si : SystemInputs) (inv : Inverter) :
  In inv (inverters cs) ->
  exists st msgs,
    evaluate cs si = Normal (st, msgs)
    /\ (PrimFloat.ltb (systemWideVoltage si) (getNum (inputVoltageMin (properties inv))) = true ->
        In (message Error
              (belowMinimumText inv (systemWideVoltage si)
                 (getNum (inputVoltageMin (properties inv))))) msgs)
    /\ (PrimFloat.ltb (systemWideVoltage si) (getNum (inputVoltageMin (properties inv))) = false ->
        PrimFloat.ltb (systemWideVoltage si)
          (getNum (inputVoltageMin (properties inv)) * 1.05) = true ->
        In (message WarnSizing
              (nearMinimumText inv (systemWideVoltage si)
                 (getNum (inputVoltageMin (properties inv))))) msgs)
    /\ (JS.gtb (systemWideVoltage si) (getNum (inputVoltageMax (properties inv))) = true ->
        In (message Error
              (aboveMaximumText inv (systemWideVoltage si)
                 (getNum (inputVoltageMax (properties inv))))) msgs)
    /\ (JS.gtb (systemWideVoltage si) (getNum (inputVoltageMax (properties inv))) = false ->
        JS.gtb (systemWideVoltage si)
          (getNum (inputVoltageMax (properties inv)) * 0.95) = true ->
        In (message WarnSizing
              (nearMaximumText inv (systemWideVoltage si)
                 (getNum (inputVoltageMax (properties inv))))) msgs).
Proof.
  intros Hi.
  destruct (evaluate_messages cs si) as (st & msgs & Ev & Es & Em).
  exists st, msgs. split; [exact Ev|].
  repeat split.
  - intros H. apply (In_messages cs si st msgs _ Em).
    apply inverter_message_reaches with (inv := inv); [exact Hi|].
    intros msgs0. unfold inverterCheck; cbv zeta.
    unfold JS.isNaN. rewrite (ltb_not_nan_r _ _ H), H; cbn [negb andb].
    match goal with |- In _ (if ?c then _ else _) => destruct c end;
      [apply in_or_app; left; apply In_add|].
    match goal with |- In _ (if ?c then _ else _) => destruct c end;
      [apply in_or_app; left; apply In_add | apply In_add].
  - intros H1 H2. apply (In_messages cs si st msgs _ Em).
    apply inverter_message_reaches with (inv := inv); [exact Hi|].
    intros msgs0. unfold inverterCheck; cbv zeta.
    unfold JS.isNaN.
    rewrite (mul_not_nan_l _ _ (ltb_not_nan_r _ _ H2)), H1, H2; cbn [negb andb].
    match goal with |- In _ (if ?c then _ else _) => destruct c end;
      [apply in_or_app; left; apply In_add|].
    match goal with |- In _ (if ?c then _ else _) => destruct c end;
      [apply in_or_app; left; apply In_add | apply In_add].
  - intros H. apply (In_messages cs si st msgs _ Em).
    apply inverter_message_reaches with (inv := inv); [exact Hi|].
    intros msgs0. unfold inverterCheck; cbv zeta.
    unfold JS.isNaN, JS.gtb in *.
    rewrite (ltb_not_nan_l _ _ H), H; cbn [negb andb]. apply In_add.
  - intros H1 H2. apply (In_messages cs si st msgs _ Em).
    apply inverter_message_reaches with (inv := inv); [exact Hi|].
    intros msgs0. unfold inverterCheck; cbv zeta.
    unfold JS.isNaN, JS.gtb in *.
    rewrite (mul_not_nan_l _ _ (ltb_not_nan_l _ _ H2)), H1, H2; cbn [negb andb].
    apply In_add.
Qed.

(** ** The discharge current *)

(** More fields of the record [stats] returns. *)
Lemma stats_more_fields cs si :
  exists st,
    stats cs si = Normal st
    /\ totalInverterPower st = fold_left inverterStep (inverters cs) 0%float
    /\ totalBatteryCapacity st = fst (fold_left batteryStep (batteries cs) (0%float, []))
    /\ totalBatteryEnergyWh st
       = (if JS.isFinite (totalBatteryCapacity st * systemWideVoltage si)
          then totalBatteryCapacity st * systemWideVoltage si else 0)%float
    /\ estimatedBatteryAutonomyDays st
       = (if JS.gtb (totalBatteryEnergyWh st * (batteryDoD si / 100)) 0
             && JS.gtb (energyNeededAdjustedWh si) 0
          then totalBatteryEnergyWh st * (batteryDoD si / 100) / energyNeededAdjustedWh si
          else 0)%float
    /\ productionToConsumptionRatioPercentage st
       = (if JS.gtb (energyNeededAdjustedWh si) 0
          then RatioNumber
                 (estimatedDailySolarProductionWh st / energyNeededAdjustedWh si * 100)
          else if JS.gtb (estimatedDailySolarProductionWh st) 0 then RatioNA
          else RatioNumber 0)%float
    /\ chargerToBatteryCables st = (JS.ofNat (List.length (mppts cs)) * 2)%float
    /\ batteryInterconnectCables st
       = (if (1 <? List.length (batteries cs))%nat
          then (JS.ofNat (List.length (batteries cs)) - 1) * 2 else 0)%float
    /\ batteryToInverterCables st = (JS.ofNat (List.length (inverters cs)) * 2)%float.
Proof.
  unfold stats; cbv zeta.
  destruct (solarPower_normal (panels cs) (arrays cs) 0%float) as (t & Et).
  rewrite Et; cbn [bind].
  destruct (fold_left batteryStep (batteries cs) (0%float, [])) as [cap bv].
  destruct (0 <? List.length bv)%nat;
    (eexists; split; [reflexivity|]); cbn; repeat split; reflexivity.
Qed.

Lemma stats_inverter_power cs si :
  exists st,
    stats cs si = Normal st
    /\ totalInverterPower st = fold_left inverterStep (inverters cs) 0%float
    /\ totalBatteryCapacity st = fst (fold_left batteryStep (batteries cs) (0%float, [])).
Proof.
  destruct (stats_more_fields cs si) as (st & E & H1 & H2 & _). eauto.
Qed.

(** X9: the discharge current.  For every battery whose [capacityAh],
    [maxDischargeCurrent] and [nominalVoltage] parse to positive numbers, the
    estimated discharge current is the total rated power of the inverters
    divided by the battery's own nominal voltage; when it exceeds
    [maxDischargeCurrent] the diagnostics contain the [error] of that battery,
    and when it does not but exceeds 0.9 times it they contain its
    [warn-c-rate] note. *)
Theorem discharge_current_diagnostics (cs : list AnyComponent) (si : SystemInputs)
    (b : Battery) :
  In b (batteries cs) ->
  JS.gtb (getNum (capacityAh (properties b))) 0 = true ->
  JS.gtb (getNum (maxDischargeCurrent (properties b))) 0 = true ->
  JS.gtb (getNum (nominalVoltage (properties b))) 0 = true ->
  exists st msgs estDischargeCurrent,
    evaluate cs si = Normal (st, msgs)
    /\ estDischargeCurrent
       = (fold_left inverterStep (inverters cs) 0 / getNum (nominalVoltage (properties b)))%float
    /\ (JS.gtb estDischargeCurrent (getNum (maxDischargeCurrent (properties b))) = true ->
        In (message Error
              (dischargeExceedsText b estDischargeCurrent
                 (getNum (maxDischargeCurrent (properties b))))) msgs)
    /\ (JS.gtb estDischargeCurrent (getNum (maxDischargeCurrent (properties b))) = false ->
        JS.gtb estDischargeCurrent
          (getNum (maxDischargeCurrent (properties b)) * 0.9) = true ->
        In (message WarnCRate
              (dischargeNearText b estDischargeCurrent
                 (getNum (maxDischargeCurrent (properties b))))) msgs).
Proof.
  intros Hb Hcap Hmax Hv.
  destruct (evaluate_messages cs si) as (st & msgs & Ev & Es & Em).
  destruct (stats_inverter_power cs si) as (st' & Es' & Ep & _).
  assert (st' = st) by congruence. subst st'.
  exists st, msgs, (totalInverterPower st / getNum (nominalVoltage (properties b)))%float.
  split; [exact Ev|]. split; [rewrite Ep; reflexivity|].
  split.
  - intros H. apply (In_messages cs si st msgs _ Em).
    apply discharge_message_reaches with (b := b); [exact Hb | exact Hcap|].
    intros msgs0. unfold dischargeCheck; cbv zeta.
    rewrite (gtb_not_nan _ _ Hmax), Hmax, (gtb_not_nan _ _ Hv), Hv, H; cbn [negb andb].
    apply In_add.
  - intros H1 H2. apply (In_messages cs si st msgs _ Em).
    apply discharge_message_reaches with (b := b); [exact Hb | exact Hcap|].
    intros msgs0. unfold dischargeCheck; cbv zeta.
    rewrite (gtb_not_nan _ _ Hmax), Hmax, (gtb_not_nan _ _ Hv), Hv, H1, H2; cbn [negb andb].
    apply In_add.
Qed.

(** ** The aggregate checks of an MPPT *)

Lemma assignedStep_aggregates ps mppt maxInputV msgs (agg : float * float)
    (a : SolarArrayConfiguration) :
  exists msgs',
    assignedStep ps mppt maxInputV (msgs, fst agg, snd agg) a
    = Normal (msgs', fst (aggregateStep ps agg a), snd (aggregateStep ps agg a)).
Proof.
  unfold assignedStep, aggregateStep; cbv zeta.
  destruct (findPanel ps a) as [p|]; cbn [isUndefined member bind fst snd].
  - eexists; reflexivity.
  - exists msgs; reflexivity.
Qed.

Lemma assignedLoop_aggregates ps mppt maxInputV (l : list SolarArrayConfiguration) :
  forall msgs agg,
    exists msgs',
      forEach (assignedStep ps mppt maxInputV) l (msgs, fst agg, snd agg)
      = Normal (msgs', fst (fold_left (aggregateStep ps) l agg),
                snd (fold_left (aggregateStep ps) l agg)).
Proof.
  induction l as [|a l IH]; intros msgs agg; [exists msgs; reflexivity|].
  change (forEach (assignedStep ps mppt maxInputV) (a :: l) (msgs, fst agg, snd agg))
    with (bind (assignedStep ps mppt maxInputV (msgs, fst agg, snd agg) a)
            (forEach (assignedStep ps mppt maxInputV) l)).
  destruct (assignedStep_aggregates ps mppt maxInputV msgs agg a) as (msgs1 & E1).
  rewrite E1. cbn [bind fold_left]. apply IH.
Qed.

Lemma mpptStep_aggregates arrs ps msgs (mppt : MpptChargeController) :
  exists msgs2,
    mpptStep arrs ps msgs mppt
    = Normal (aggregateChecks mppt (fst (aggregates ps (assignedTo arrs mppt)))
                (snd (aggregates ps (assignedTo arrs mppt))) msgs2).
Proof.
  unfold mpptStep; cbv zeta.
  match goal with
  | |- context [forEach (assignedStep ps mppt ?v) ?l (?m0, _, _)] =>
      destruct (assignedLoop_aggregates ps mppt v l m0 (0%float, 0%float)) as (msgs2 & E)
  end.
  exists msgs2. unfold aggregates.
  change (@fst float float (0%float, 0%float)) with 0%float in E.
  change (@snd float float (0%float, 0%float)) with 0%float in E.
  rewrite E. reflexivity.
Qed.

Section AggregateReaches.
Variables (cs : list AnyComponent) (st : ComputedStats) (si : SystemInputs).

(** What [aggregateChecks] pushes for an MPPT is in the result of
    [messages]. *)
Lemma aggregate_message_reaches (mppt : MpptChargeController) (m : CategorizedMessage) :
  In mppt (mppts cs) ->
  (forall msgs0,
      In m (aggregateChecks mppt
              (fst (aggregates (panels cs) (assignedTo (arrays cs) mppt)))
              (snd (aggregates (panels cs) (assignedTo (arrays cs) mppt))) msgs0)) ->
  exists msgs, messages cs st si = Normal msgs /\ In m msgs.
Proof.
  intros Hm Hin.
  apply messages_after_mppts. intros msgs0.
  apply forEach_reaches with (a := mppt) (Q := fun msgs => In m msgs); [exact Hm | |].
  - intros s m' Hm'.
    destruct (mpptStep_emits cs st si s m' Hm') as (s' & Es & As).
    exists s'; split; [exact Es | apply (appends_In _ _ _ _ As)].
  - intros s.
    destruct (mpptStep_aggregates (arrays cs) (panels cs) s mppt) as (msgs2 & E).
    rewrite E. eexists; split; [reflexivity | apply Hin].
Qed.
End AggregateReaches.

(** X20: the aggregate checks of an MPPT.  With [aggregateIsc] the sum of
    [isc * numberOfStrings] and [aggregatePmax] the sum of
    [pmax * panelsInSeries * numberOfStrings] over the arrays assigned to the
    MPPT whose panel is found (each term added only when its numbers
    parse): for a positive [maxInputCurrent], an [aggregateIsc] above it gets
    the [error], and one not above it but above 0.9 times it gets the
    [warn-sizing] note; for a positive [maxOutputCurrent] and
    [nominalBatteryVoltage] with product [mpptPowerCap], an [aggregatePmax]
    above 1.25 times [mpptPowerCap] gets the [warn-sizing] note on clipping,
    and one not above that but above [mpptPowerCap] gets the [info] note. *)
Theorem mppt_aggregate_checks (cs : list AnyComponent) (si : SystemInputs)
    (mppt : MpptChargeController) :
  In mppt (mppts cs) ->
  let aggregateIsc := fst (aggregates (panels cs) (assignedTo (arrays cs) mppt)) in
  let aggregatePmax := snd (aggregates (panels cs) (assignedTo (arrays cs) mppt)) in
  let maxInputI := getNum (maxInputCurrent (properties mppt)) in
  let maxOutI := getNum (maxOutputCurrent (properties mppt)) in
  let battV := getNum (nominalBatteryVoltage (properties mppt)) in
  let mpptPowerCap := (maxOutI * battV)%float in
  exists st msgs,
    evaluate cs si = Normal (st, msgs)
    /\ (JS.gtb maxInputI 0 = true ->
        JS.gtb aggregateIsc maxInputI = true ->
        In (message Error (iscExceedsText mppt aggregateIsc maxInputI)) msgs)
    /\ (JS.gtb maxInputI 0 = true ->
        JS.gtb aggregateIsc maxInputI = false ->
        JS.gtb aggregateIsc (maxInputI * 0.9) = true ->
        In (message WarnSizing (iscNearText mppt aggregateIsc maxInputI)) msgs)
    /\ (JS.gtb maxOutI 0 = true -> JS.gtb battV 0 = true ->
        JS.gtb aggregatePmax (mpptPowerCap * 1.25) = true ->
        In (message WarnSizing (clippingText mppt aggregatePmax mpptPowerCap)) msgs)
    /\ (JS.gtb maxOutI 0 = true -> JS.gtb battV 0 = true ->
        JS.gtb aggregatePmax (mpptPowerCap * 1.25) = false ->
        JS.gtb aggregatePmax mpptPowerCap = true ->
        In (message Info (overProvisionedText mppt aggregatePmax mpptPowerCap)) msgs).
Proof.
  intros Hm aggregateIsc aggregatePmax maxInputI maxOutI battV mpptPowerCap.
  destruct (evaluate_messages cs si) as (st & msgs & Ev & Es & Em).
  exists st, msgs. split; [exact Ev|].
  assert (Reach : forall m,
             (forall msgs0, In m (aggregateChecks mppt aggregateIsc aggregatePmax msgs0)) ->
             In m msgs).
  { intros m H. apply (In_messages cs si st msgs _ Em).
    apply aggregate_message_reaches with (mppt := mppt); [exact Hm | exact H]. }
  assert (Keep : forall m l level body, In m l -> In m (add level body l)).
  { intros m l level body Hl. unfold add. apply in_or_app; left; exact Hl. }
  assert (First : forall m,
             (forall msgs0,
                 In m (if negb (JS.isNaN maxInputI) && JS.gtb maxInputI 0
                       then if JS.gtb aggregateIsc maxInputI
                            then add Error (iscExceedsText mppt aggregateIsc maxInputI) msgs0
                            else if JS.gtb aggregateIsc (maxInputI * 0.9)
                                 then add WarnSizing
                                        (iscNearText mppt aggregateIsc maxInputI) msgs0
                                 else msgs0
                       else msgs0)) ->
             In m msgs).
  { intros m H. apply Reach. intros msgs0.
    unfold aggregateChecks; cbv zeta.
    fold maxInputI maxOutI battV. fold mpptPowerCap.
    destruct (negb (JS.isNaN maxOutI) && negb (JS.isNaN battV)
              && JS.gtb maxOutI 0 && JS.gtb battV 0); [|apply H].
    destruct (JS.gtb aggregatePmax (mpptPowerCap * 1.25)); [apply Keep, H|].
    destruct (JS.gtb aggregatePmax mpptPowerCap); [apply Keep, H | apply H]. }
  assert (Second : forall m,
             (forall msgs1,
                 In m (if negb (JS.isNaN maxOutI) && negb (JS.isNaN battV)
                          && JS.gtb maxOutI 0 && JS.gtb battV 0
                       then if JS.gtb aggregatePmax (mpptPowerCap * 1.25)
                            then add WarnSizing
                                   (clippingText mppt aggregatePmax mpptPowerCap) msgs1
                            else if JS.gtb aggregatePmax mpptPowerCap
                                 then add Info
                                        (overProvisionedText mppt aggregatePmax mpptPowerCap)
                                        msgs1
                                 else msgs1
                       else msgs1)) ->
             In m msgs).
  { intros m H. apply Reach. intros msgs0.
    unfold aggregateChecks; cbv zeta. apply H. }
  repeat split.
  - intros P G. apply First. intros msgs0.
    rewrite (gtb_not_nan _ _ P), P, G; cbn [negb andb]. apply In_add.
  - intros P G1 G2. apply First. intros msgs0.
    rewrite (gtb_not_nan _ _ P), P, G1, G2; cbn [negb andb]. apply In_add.
  - intros P1 P2 G. apply Second. intros msgs1.
    rewrite (gtb_not_nan _ _ P1), (gtb_not_nan _ _ P2), P1, P2, G; cbn [negb andb].
    apply In_add.
  - intros P1 P2 G1 G2. apply Second. intros msgs1.
    rewrite (gtb_not_nan _ _ P1), (gtb_not_nan _ _ P2), P1, P2, G1, G2; cbn [negb andb].
    apply In_add.
Qed.

(** * Properties of the calculation helpers *)

(** ** Temperature *)

Lemma not_leb_ltb (v : float) :
  PrimFloat.is_nan v = false -> PrimFloat.leb v 0 = false -> PrimFloat.ltb 0 v = true.
Proof.
  intros N L. apply ltb0_spec. split; [exact N|].
  destruct (Z_lt_le_dec 0 (Fval v)) as [H|H]; [exact H|].
  assert (PrimFloat.leb v 0 = true).
  { apply leb_value. rewrite Fval_zero. repeat split; auto. }
  congruence.
Qed.

Lemma adjust_not_finite (value coeff delta : float) :
  PrimFloat.is_finite value = false ->
  adjustForTemperature value coeff delta = value.
Proof. intros H. unfold adjustForTemperature, JS.isFinite. rewrite H. reflexivity. Qed.

Lemma mul_not_finite (v c : float) :
  PrimFloat.is_finite v = false -> PrimFloat.ltb 0 c = true ->
  PrimFloat.is_finite c = true -> (v * c)%float = v.
Proof.
  intros Fv Pc Fc. apply Prim2SF_inj. rewrite mul_spec.
  pose proof (positive_forms c Pc) as Hc. apply is_finite_spec in Fc.
  destruct (not_finite_cases v Fv) as [-> | [-> | ->]];
    destruct (Prim2SF c) as [s|s| |s m e]; try contradiction; subst; reflexivity.
Qed.

Lemma mul_shrinks (v c : float) :
  PrimFloat.leb 0 v = true -> PrimFloat.leb c 1 = true ->
  PrimFloat.is_finite c = true -> PrimFloat.is_zero c = false ->
  PrimFloat.leb (v * c) v = true.
Proof.
  intros Hv Hc Fc Zc.
  assert (L : le_or_nan (c * v) (1 * v)).
  { apply mul_le_or_nan; [right; right; exact Hc|].
    apply le_or_nan_not_ltb. right; right; exact Hv. }
  rewrite (mul_comm c v), (mul_comm 1 v), mul_one_r in L.
  assert (N : PrimFloat.is_nan (v * c) = false).
  { rewrite mul_comm. apply mul_nonzero_not_nan; auto. apply leb0_spec in Hv; tauto. }
  destruct L as [L|[L|L]]; [congruence | | exact L].
  apply leb0_spec in Hv. destruct Hv; congruence.
Qed.

(** X10: temperature.  With no inputs given, [effectiveVoc] multiplies by
    0.944 and [effectivePmax] by 0.93 (the defaults: -0.28 and -0.35 %/°C,
    20 °C above the standard cell temperature), for every number, finite
    or not; so a value that is not negative is never raised.  With a
    coefficient of 0 the value comes back as it is, whatever the
    temperatures are. *)
Theorem temperature_adjustment (v : float) :
  effectiveVoc v noInputs = (v * 0.944)%float
  /\ effectivePmax v noInputs = (v * 0.93)%float
  /\ (PrimFloat.leb 0 v = true ->
      PrimFloat.leb (effectiveVoc v noInputs) v = true
      /\ PrimFloat.leb (effectivePmax v noInputs) v = true)
  /\ (forall deltaC, adjustForTemperature v 0 deltaC = v).
Proof.
  assert (E1 : effectiveVoc v noInputs = (v * 0.944)%float).
  { unfold effectiveVoc, noInputs, orDefault; cbn.
    destruct (PrimFloat.is_finite v) eqn:F.
    - unfold adjustForTemperature, JS.isFinite. rewrite F. reflexivity.
    - rewrite adjust_not_finite by exact F. symmetry. apply mul_not_finite; auto. }
  assert (E2 : effectivePmax v noInputs = (v * 0.93)%float).
  { unfold effectivePmax, noInputs, orDefault; cbn.
    destruct (PrimFloat.is_finite v) eqn:F.
    - unfold adjustForTemperature, JS.isFinite. rewrite F. reflexivity.
    - rewrite adjust_not_finite by exact F. symmetry. apply mul_not_finite; auto. }
  split; [exact E1|]. split; [exact E2|]. split.
  - intros Hv. rewrite E1, E2. split; apply mul_shrinks; auto.
  - intros d. unfold adjustForTemperature, JS.isFinite.
    destruct (PrimFloat.is_finite v) eqn:Fv; [|reflexivity].
    change (PrimFloat.is_finite 0) with true. cbn [negb orb].
    destruct (PrimFloat.is_finite d) eqn:Fd; [|reflexivity]. cbn [negb].
    change (0 / 100)%float with 0%float.
    assert (Z : (1 + 0 * d = 1)%float).
    { apply is_finite_spec in Fd.
      assert (Zd : (0 * d = 0 \/ 0 * d = -0)%float).
      { destruct (Prim2SF d) as [s|s| |s m e] eqn:Ed; cbn in Fd; try contradiction.
        - destruct s; [right | left]; apply Prim2SF_inj; rewrite mul_spec, Ed; reflexivity.
        - destruct s; [right | left]; apply Prim2SF_inj; rewrite mul_spec, Ed; reflexivity. }
      destruct Zd as [-> | ->]; reflexivity. }
    rewrite Z. apply mul_one_r.
Qed.

(** ** Voltage drop and cost of energy *)

(** A parameter that [voltageDrop] refuses. *)
Lemma refused_or_positive (v : float) :
  negb (JS.isFinite v) || PrimFloat.leb v 0 = false ->
  PrimFloat.is_finite v = true /\ PrimFloat.ltb 0 v = true.
Proof.
  unfold JS.isFinite. intros H. apply orb_false_elim in H. destruct H as [F L].
  apply negb_false_iff in F. split; [exact F|].
  apply not_leb_ltb; [apply is_finite_not_nan; exact F | exact L].
Qed.

Lemma positive_mul_nonneg (x y : float) :
  PrimFloat.is_finite x = true -> PrimFloat.ltb 0 x = true -> PrimFloat.leb 0 y = true ->
  PrimFloat.leb 0 (x * y) = true.
Proof.
  intros Fx Px Hy. apply mul_nonneg; [apply ltb0_leb0; exact Px | exact Hy|].
  apply mul_nonzero_not_nan; [exact Fx | apply positive_not_zero; exact Px|].
  apply leb0_spec in Hy; tauto.
Qed.

Lemma leb0_not_nan (x : float) : PrimFloat.leb 0 x = true -> PrimFloat.is_nan x = false.
Proof. intros H; apply leb0_spec in H; tauto. Qed.

(** X11: [voltageDrop] returns NaN for the drop and for the percentage when
    a parameter is not finite or not positive, and only then: on five finite
    positive parameters both results are numbers, and neither is negative. *)
Theorem voltageDrop_sentinel (params : VoltageDropParams) :
  let refused v := negb (JS.isFinite v) || PrimFloat.leb v 0 in
  let ps := [currentA params; oneWayLengthM params; conductorResistivityOhmMm2PerM params;
             crossSectionMm2 params; systemVoltage params] in
  (existsb refused ps = true ->
   voltageDrop params = {| dropV := nan; pct := nan |})
  /\ (existsb refused ps = false ->
      PrimFloat.leb 0 (dropV (voltageDrop params)) = true
      /\ PrimFloat.leb 0 (pct (voltageDrop params)) = true)
  /\ (JS.isNaN (dropV (voltageDrop params)) = true <-> existsb refused ps = true)
  /\ (JS.isNaN (pct (voltageDrop params)) = true <-> existsb refused ps = true).
Proof.
  intros refused ps.
  assert (R : existsb refused ps = true ->
              voltageDrop params = {| dropV := nan; pct := nan |}).
  { intros H. unfold voltageDrop. subst refused ps. cbv beta in H. rewrite H. reflexivity. }
  assert (V : existsb refused ps = false ->
              PrimFloat.leb 0 (dropV (voltageDrop params)) = true
              /\ PrimFloat.leb 0 (pct (voltageDrop params)) = true).
  { intros H. unfold voltageDrop. subst refused ps. cbv beta in H. rewrite H.
    cbv zeta. cbn [dropV pct].
    cbn [existsb] in H.
    apply orb_false_elim in H. destruct H as [H1 H].
    apply orb_false_elim in H. destruct H as [H2 H].
    apply orb_false_elim in H. destruct H as [H3 H].
    apply orb_false_elim in H. destruct H as [H4 H].
    apply orb_false_elim in H. destruct H as [H5 _].
    apply refused_or_positive in H1, H2, H3, H4, H5.
    destruct H1 as [F1 P1], H2 as [F2 P2], H3 as [F3 P3], H4 as [F4 P4], H5 as [F5 P5].
    assert (L : PrimFloat.leb 0 (oneWayLengthM params * 2) = true).
    { apply positive_mul_nonneg; auto. }
    assert (Rs : PrimFloat.leb 0
                   (conductorResistivityOhmMm2PerM params * (oneWayLengthM params * 2)
                    / crossSectionMm2 params) = true).
    { apply div_nonneg; auto. apply positive_mul_nonneg; auto. }
    assert (D : PrimFloat.leb 0
                  (currentA params
                   * (conductorResistivityOhmMm2PerM params * (oneWayLengthM params * 2)
                      / crossSectionMm2 params)) = true).
    { apply positive_mul_nonneg; auto. }
    split; [exact D|].
    rewrite mul_comm. apply positive_mul_nonneg; auto.
    apply div_nonneg; auto. }
  split; [exact R|]. split; [exact V|].
  split; split; intros H.
  - destruct (existsb refused ps) eqn:E; [reflexivity|].
    destruct (V eq_refl) as [D _]. apply leb0_not_nan in D. unfold JS.isNaN in H. congruence.
  - rewrite (R H). reflexivity.
  - destruct (existsb refused ps) eqn:E; [reflexivity|].
    destruct (V eq_refl) as [_ P]. apply leb0_not_nan in P. unfold JS.isNaN in H. congruence.
  - rewrite (R H). reflexivity.
Qed.

(** X12: [lcoe] returns NaN when the cost or the energy is not finite or
    the energy is not positive, and only then. *)
Theorem lcoe_sentinel (systemCost totalLifetimeKWh : float) :
  JS.isNaN (lcoe systemCost totalLifetimeKWh) = true
  <-> JS.isFinite systemCost = false \/ JS.isFinite totalLifetimeKWh = false
      \/ PrimFloat.leb totalLifetimeKWh 0 = true.
Proof.
  unfold lcoe, JS.isNaN, JS.isFinite.
  destruct (PrimFloat.is_finite systemCost) eqn:Fc; cbn [negb orb];
    [|split; [auto | reflexivity]].
  destruct (PrimFloat.is_finite totalLifetimeKWh) eqn:Fl; cbn [negb orb];
    [|split; [auto | reflexivity]].
  destruct (PrimFloat.leb totalLifetimeKWh 0) eqn:L;
    [split; [auto | reflexivity]|].
  assert (N : PrimFloat.is_nan (systemCost / totalLifetimeKWh) = false).
  { apply div_not_nan; [apply is_finite_not_nan; exact Fc | exact Fl|].
    apply positive_not_zero. apply not_leb_ltb; [apply is_finite_not_nan; exact Fl | exact L]. }
  rewrite N. split; [discriminate|].
  intros [H|[H|H]]; discriminate.
Qed.

(** ** Payback *)

Lemma counter_small (k : nat) :
  (k <= 50)%nat ->
  counter k = JS.ofNat k
  /\ PrimFloat.ltb (counter k) 50 = (k <? 50)%nat
  /\ PrimFloat.is_zero (counter k) = (k =? 0)%nat.
Proof.
  intros H.
  do 51 (destruct k as [|k]; [vm_compute; repeat split; reflexivity|]).
  lia.
Qed.

(** The loop of [simplePayback] ends within 50 iterations. *)
Lemma paybackLoop_ends (energy esc : float) (n : nat) :
  forall k fuel remaining rate,
    (k + n = 50)%nat -> (n < fuel)%nat ->
    exists remaining' j,
      paybackLoop fuel energy esc remaining (counter k) rate = Some (remaining', counter j)
      /\ (k <= j <= 50)%nat
      /\ (j = k -> remaining' = remaining)
      /\ (k < j -> JS.gtb remaining 0 = true).
Proof.
  induction n as [|n IH]; intros k fuel remaining rate Hk Hf.
  - destruct fuel as [|fuel]; [lia|]. cbn [paybackLoop].
    destruct (counter_small k ltac:(lia)) as (_ & L & _). rewrite L.
    replace (k <? 50)%nat with false by (symmetry; apply Nat.ltb_ge; lia).
    rewrite andb_false_r. exists remaining, k. repeat split; auto; lia.
  - destruct fuel as [|fuel]; [lia|]. cbn [paybackLoop].
    destruct (JS.gtb remaining 0) eqn:G; cbn [andb];
      [|exists remaining, k; repeat split; auto; lia].
    destruct (counter_small k ltac:(lia)) as (_ & L & _). rewrite L.
    replace (k <? 50)%nat with true by (symmetry; apply Nat.ltb_lt; lia).
    change (counter k + 1)%float with (counter (S k)).
    destruct (IH (S k) fuel (remaining - energy * rate)%float
                (rate * (1 + esc / 100))%float ltac:(lia) ltac:(lia))
      as (r' & j & E & Hj & _ & _).
    exists r', j. split; [exact E|]. split; [lia|]. split; [lia | auto].
Qed.

(** X13: [simplePayback] ends: with fuel for 51 tests of the loop it returns,
    and more fuel changes nothing.  The result is NaN or a whole number of
    years from 0 to 50, and it is 0 exactly when the cost is not positive. *)
Theorem simplePayback_years (p : PaybackParams) :
  exists r,
    (forall fuel, (51 <= fuel)%nat -> simplePayback fuel p = Some r)
    /\ (PrimFloat.is_nan r = true \/ exists k, (k <= 50)%nat /\ r = JS.ofNat k)
    /\ (PrimFloat.is_zero r = true <-> PrimFloat.leb (systemCost p) 0 = true).
Proof.
  set (esc := orDefault (annualEscalationPct p) 0).
  destruct (paybackLoop_ends (annualEnergyKWh p) esc 50 0 51 (systemCost p)
              (gridRatePerKWh p) eq_refl ltac:(lia)) as (r' & j & E & Hj & Hsame & Hran).
  exists (if PrimFloat.leb r' 0 then counter j else nan).
  split; [|split].
  - intros fuel Hf. unfold simplePayback. cbv zeta. fold esc.
    assert (Hmono : forall f1 f2 rem y rate res,
               paybackLoop f1 (annualEnergyKWh p) esc rem y rate = Some res ->
               (f1 <= f2)%nat ->
               paybackLoop f2 (annualEnergyKWh p) esc rem y rate = Some res).
    { induction f1 as [|f1 IHf]; intros f2 rem y rate res H1 H2; [discriminate|].
      destruct f2 as [|f2]; [lia|]. cbn [paybackLoop] in *.
      destruct (JS.gtb rem 0 && PrimFloat.ltb y 50); [|exact H1].
      apply IHf; [exact H1 | lia]. }
    change (paybackLoop fuel (annualEnergyKWh p) esc (systemCost p) 0 (gridRatePerKWh p))
      with (paybackLoop fuel (annualEnergyKWh p) esc (systemCost p) (counter 0)
              (gridRatePerKWh p)).
    rewrite (Hmono 51%nat fuel _ _ _ _ E Hf). reflexivity.
  - destruct (PrimFloat.leb r' 0); [right | left; reflexivity].
    exists j. split; [lia|]. apply counter_small. lia.
  - destruct (counter_small j ltac:(lia)) as (_ & _ & Z).
    split.
    + intros H. destruct (PrimFloat.leb r' 0) eqn:L; [|vm_compute in H; discriminate].
      rewrite Z in H. apply Nat.eqb_eq in H. subst j.
      rewrite <- (Hsame eq_refl). exact L.
    + intros H.
      assert (G : JS.gtb (systemCost p) 0 = false).
      { unfold JS.gtb. apply le_or_nan_not_ltb. right; right; exact H. }
      destruct (Nat.eq_dec j 0) as [->|Hne].
      * rewrite (Hsame eq_refl), H. reflexivity.
      * rewrite (Hran ltac:(lia)) in G. discriminate.
Qed.

(** ** Degradation *)

#[local] Open Scope Z_scope.

Lemma Fval_one : Fval 1%float = 2 ^ 1074.
Proof. reflexivity. Qed.




#[local] Close Scope Z_scope.






(** * Further properties of the aggregator *)

(** ** Totals that are numbers *)

Lemma fold_left_invariant {A B : Type} (f : A -> B -> A) (P : A -> Prop) (l : list B) :
  (forall a b, P a -> P (f a b)) -> forall a, P a -> P (fold_left f l a).
Proof.
  intros H. induction l as [|b l IH]; intros a Ha; cbn; [exact Ha|].
  apply IH. apply H. exact Ha.
Qed.

Lemma not_ltb_leb (x y : float) :
  PrimFloat.is_nan x = false -> PrimFloat.is_nan y = false ->
  PrimFloat.ltb x y = false -> PrimFloat.leb y x = true.
Proof.
  intros Nx Ny L. apply ltb_false_value in L.
  destruct L as [L|[L|L]]; try congruence.
  apply leb_value. auto.
Qed.

Lemma leb_trans (x y z : float) :
  PrimFloat.leb x y = true -> PrimFloat.leb y z = true -> PrimFloat.leb x z = true.
Proof.
  rewrite !leb_value. intros (Nx & Ny & H1) (_ & Nz & H2).
  repeat split; auto. lia.
Qed.

(** [x - 1] is at least [b - 1] for an [x] that is at least [b]. *)
Lemma minus_one_above (b x : float) :
  PrimFloat.leb b x = true -> PrimFloat.leb (b - 1) (x - 1) = true.
Proof.
  intros L. rewrite !sub_as_add.
  assert (F : PrimFloat.is_finite (PrimFloat.opp 1) = true) by reflexivity.
  revert F. generalize (PrimFloat.opp 1) as m. intros m F.
  assert (H : le_or_nan (b + m) (x + m)).
  { apply add_le_or_nan; [right; right; exact L | apply le_or_nan_refl]. }
  assert (Nb : PrimFloat.is_nan (b + m) = false).
  { apply add_finite_not_nan; [|exact F]. apply leb_value in L; tauto. }
  assert (Nx : PrimFloat.is_nan (x + m) = false).
  { apply add_finite_not_nan; [|exact F]. apply leb_value in L; tauto. }
  destruct H as [H|[H|H]]; [congruence | congruence | exact H].
Qed.

Lemma batteryStep_capacity (c : float) (s : list float) (b : Battery) :
  PrimFloat.is_nan c = false -> PrimFloat.is_nan (fst (batteryStep (c, s) b)) = false.
Proof.
  intros N. unfold batteryStep. cbn [fst].
  destruct (JS.isNaN (getNum (capacityAh (properties b)))) eqn:E; cbn [negb]; [exact N|].
  apply add_finite_not_nan; [exact N | apply getNum_finite; exact E].
Qed.

Lemma inverterStep_power (t : float) (i : Inverter) :
  PrimFloat.is_nan t = false -> PrimFloat.is_nan (inverterStep t i) = false.
Proof.
  intros N. unfold inverterStep. cbv zeta.
  destruct (JS.isNaN (getNum (ratedPower (properties i)))) eqn:E; cbn [negb]; [exact N|].
  apply add_finite_not_nan; [exact N | apply getNum_finite; exact E].
Qed.

(** X16: totals that are numbers.  [totalBatteryCapacity] and
    [totalInverterPower] are never NaN, whatever the fields hold (an
    unparsable field is skipped, and a sum of finite numbers may overflow to
    an infinity but not to NaN); [totalBatteryEnergyWh] is always finite, and
    the battery autonomy is never negative. *)
Theorem totals_are_numbers (cs : list AnyComponent) (si : SystemInputs) :
  exists st,
    stats cs si = Normal st
    /\ JS.isNaN (totalBatteryCapacity st) = false
    /\ JS.isNaN (totalInverterPower st) = false
    /\ JS.isFinite (totalBatteryEnergyWh st) = true
    /\ PrimFloat.ltb (estimatedBatteryAutonomyDays st) 0 = false.
Proof.
  destruct (stats_more_fields cs si) as (st & E & Hp & Hc & He & Ha & _).
  exists st. split; [exact E|].
  split.
  { rewrite Hc. unfold JS.isNaN.
    apply (fold_left_invariant batteryStep
             (fun a => PrimFloat.is_nan (fst a) = false)); [|reflexivity].
    intros [c s] b H. apply batteryStep_capacity. exact H. }
  split.
  { rewrite Hp. unfold JS.isNaN.
    apply (fold_left_invariant inverterStep (fun a => PrimFloat.is_nan a = false));
      [|reflexivity].
    intros a b H. apply inverterStep_power. exact H. }
  split.
  { rewrite He. destruct (JS.isFinite _) eqn:F; [exact F | reflexivity]. }
  rewrite Ha.
  destruct (JS.gtb _ 0 && JS.gtb _ 0) eqn:G; [|reflexivity].
  apply andb_prop in G. destruct G as [G1 G2]. unfold JS.gtb in G1, G2.
  apply div_not_negative; [|exact G2].
  apply le_or_nan_not_ltb. right; right. apply ltb0_leb0. exact G1.
Qed.

(** ** Cable counts *)

Lemma panelInterconnectStep_nonneg (sum : float) (a : SolarArrayConfiguration) :
  PrimFloat.leb 0 sum = true -> PrimFloat.leb 0 (panelInterconnectStep sum a) = true.
Proof.
  intros H. unfold panelInterconnectStep. cbv zeta.
  set (inSeries := getNum (panelsInSeries (properties a))).
  set (strings := getNum (numberOfStrings (properties a))).
  destruct (JS.isNaN inSeries) eqn:N1; cbn [orb]; [exact H|].
  destruct (JS.isNaN strings) eqn:N2; cbn [orb]; [exact H|].
  destruct (PrimFloat.ltb inSeries 2) eqn:L1; cbn [orb]; [exact H|].
  destruct (PrimFloat.ltb strings 1) eqn:L2; [exact H|].
  pose proof (getNum_finite _ N1) as F1. pose proof (getNum_finite _ N2) as F2.
  fold inSeries in F1. fold strings in F2.
  assert (S1 : PrimFloat.leb 2 inSeries = true) by (apply not_ltb_leb; auto).
  assert (S2 : PrimFloat.leb 1 strings = true) by (apply not_ltb_leb; auto).
  assert (P2 : PrimFloat.ltb 0 strings = true).
  { apply ltb0_spec. apply leb_value in S2. destruct S2 as (_ & Ns & V).
    split; [exact Ns|]. change (Fval 1) with (2 ^ 1074)%Z in V.
    pose proof (pow2_pos 1074 ltac:(lia)). lia. }
  assert (M1 : PrimFloat.leb 0 (inSeries - 1) = true).
  { apply leb_trans with (y := (2 - 1)%float); [reflexivity|].
    apply minus_one_above; assumption. }
  apply add_nonneg; [exact H|].
  rewrite mul_comm. apply positive_mul_nonneg; assumption.
Qed.

Lemma arrayToChargerStep_nonneg (sum : float) (a : SolarArrayConfiguration) :
  PrimFloat.leb 0 sum = true -> PrimFloat.leb 0 (arrayToChargerStep sum a) = true.
Proof.
  intros H. unfold arrayToChargerStep. cbv zeta.
  set (strings := getNum (numberOfStrings (properties a))).
  destruct (JS.isNaN strings) eqn:N2; cbn [orb]; [exact H|].
  destruct (PrimFloat.ltb strings 1) eqn:L2; [exact H|].
  assert (S2 : PrimFloat.leb 1 strings = true) by (apply not_ltb_leb; auto).
  apply add_nonneg; [exact H|].
  apply positive_mul_nonneg; [reflexivity | reflexivity|].
  apply leb_trans with (y := 1%float); [reflexivity | exact S2].
Qed.

Lemma pairs_nonneg (n : nat) : PrimFloat.leb 0 (JS.ofNat n * 2) = true.
Proof.
  rewrite mul_comm. apply positive_mul_nonneg; [reflexivity | reflexivity|].
  apply ofNat_nonneg.
Qed.

(** X17: cable counts.  None of the five cable counts, nor their total, is
    ever negative or NaN, whatever [panelsInSeries] and [numberOfStrings]
    hold. *)
Theorem cable_counts_not_negative (cs : list AnyComponent) (si : SystemInputs) :
  exists st,
    stats cs si = Normal st
    /\ PrimFloat.leb 0 (panelInterconnectCables st) = true
    /\ PrimFloat.leb 0 (arrayToChargerCables st) = true
    /\ PrimFloat.leb 0 (chargerToBatteryCables st) = true
    /\ PrimFloat.leb 0 (batteryInterconnectCables st) = true
    /\ PrimFloat.leb 0 (batteryToInverterCables st) = true
    /\ PrimFloat.leb 0 (totalEstimatedCables (statsWithCableTotal st)) = true.
Proof.
  destruct (stats_more_fields cs si)
    as (st & E & _ & _ & _ & _ & _ & Hcb & Hbi & Hbv).
  destruct (stats_fields cs si) as (st' & E' & _ & _ & Hpi & Hac & _).
  assert (st' = st) by congruence. subst st'.
  exists st. split; [exact E|].
  assert (C1 : PrimFloat.leb 0 (panelInterconnectCables st) = true).
  { rewrite Hpi.
    apply (fold_left_invariant panelInterconnectStep (fun a => PrimFloat.leb 0 a = true));
      [|reflexivity].
    intros a b H. apply panelInterconnectStep_nonneg. exact H. }
  assert (C2 : PrimFloat.leb 0 (arrayToChargerCables st) = true).
  { rewrite Hac.
    apply (fold_left_invariant arrayToChargerStep (fun a => PrimFloat.leb 0 a = true));
      [|reflexivity].
    intros a b H. apply arrayToChargerStep_nonneg. exact H. }
  assert (C3 : PrimFloat.leb 0 (chargerToBatteryCables st) = true).
  { rewrite Hcb. apply pairs_nonneg. }
  assert (C4 : PrimFloat.leb 0 (batteryInterconnectCables st) = true).
  { rewrite Hbi. destruct (1 <? List.length (batteries cs))%nat eqn:L; [|reflexivity].
    apply Nat.ltb_lt in L.
    rewrite mul_comm. apply positive_mul_nonneg; [reflexivity | reflexivity|].
    apply leb_trans with (y := (1 - 1)%float); [reflexivity|].
    apply minus_one_above. apply ofNat_ge_one. lia. }
  assert (C5 : PrimFloat.leb 0 (batteryToInverterCables st) = true).
  { rewrite Hbv. apply pairs_nonneg. }
  repeat split; try assumption.
  cbn [statsWithCableTotal totalEstimatedCables].
  repeat apply add_nonneg; assumption.
Qed.

(** ** The set of battery voltages *)

Lemma batteryStep_voltages (l : list Battery) (c : float) (s : list float) :
  snd (fold_left batteryStep l (c, s)) = fold_left voltageStep l s.
Proof.
  revert c s. induction l as [|b l IH]; intros c s; [reflexivity|].
  cbn [fold_left]. unfold batteryStep at 2. cbv zeta. rewrite IH. reflexivity.
Qed.

Lemma voltageStep_unparsed (l : list Battery) (s : list float) :
  (forall b, In b l -> JS.isNaN (getNum (nominalVoltage (properties b))) = true) ->
  fold_left voltageStep l s = s.
Proof.
  revert s. induction l as [|b l IH]; intros s H; [reflexivity|].
  cbn [fold_left]. unfold voltageStep at 2.
  rewrite (H b (or_introl eq_refl)). cbn [negb].
  apply IH. intros b' Hb'. apply H. right; exact Hb'.
Qed.

Lemma eqb_stored (x v : float) : PrimFloat.eqb x (stored v) = PrimFloat.eqb x v.
Proof.
  unfold stored. destruct (PrimFloat.is_zero v) eqn:Z; [|reflexivity].
  apply is_zero_spec in Z. destruct Z as (s & E).
  rewrite !eqb_spec, E. change (Prim2SF zero) with (S754_zero false).
  destruct (Prim2SF x) as [sx|sx| |sx mx ex]; cbn; try reflexivity;
    destruct sx; reflexivity.
Qed.

Lemma toString_stored (v : float) : JS.toString (stored v) = JS.toString v.
Proof.
  unfold stored. destruct (PrimFloat.is_zero v) eqn:Z; [|reflexivity].
  apply strictEq_toString. unfold JS.strictEq.
  unfold PrimFloat.is_zero in Z.
  apply eqb_value in Z. destruct Z as (N1 & N2 & V).
  apply eqb_value. repeat split; auto.
Qed.

Lemma sameValueZero_number (x y : float) :
  PrimFloat.is_nan x = false -> JS.sameValueZero x y = PrimFloat.eqb x y.
Proof. intros N. unfold JS.sameValueZero. rewrite N. apply orb_false_r. Qed.

Lemma eqb_sym (x y : float) : PrimFloat.eqb x y = PrimFloat.eqb y x.
Proof.
  destruct (PrimFloat.eqb x y) eqn:E1, (PrimFloat.eqb y x) eqn:E2; try reflexivity.
  - apply eqb_value in E1. assert (PrimFloat.eqb y x = true) by (apply eqb_value; intuition).
    congruence.
  - apply eqb_value in E2. assert (PrimFloat.eqb x y = true) by (apply eqb_value; intuition).
    congruence.
Qed.

(** After the first parsed voltage [v0], the set has a second member exactly
    when a later battery parses to another voltage. *)
Lemma voltageStep_later (v0 : float) (l : list Battery) :
  forall rest,
    exists rest',
      fold_left voltageStep l (stored v0 :: rest) = stored v0 :: rest'
      /\ (rest' <> []
          <-> rest <> []
              \/ exists b, In b l
                   /\ JS.isNaN (getNum (nominalVoltage (properties b))) = false
                   /\ JS.strictEq (getNum (nominalVoltage (properties b))) v0 = false).
Proof.
  induction l as [|b l IH]; intros rest.
  - exists rest. split; [reflexivity|]. split; [auto|].
    intros [H|(b & [] & _)]; exact H.
  - cbn [fold_left]. unfold voltageStep at 2.
    set (v := getNum (nominalVoltage (properties b))).
    destruct (JS.isNaN v) eqn:N; cbn [negb].
    + destruct (IH rest) as (rest' & E & H). exists rest'. split; [exact E|].
      rewrite H. split.
      * intros [R|(b' & Hb' & N' & S')]; [left; exact R | right].
        exists b'. split; [right; exact Hb' | auto].
      * intros [R|(b' & [<-|Hb'] & N' & S')]; [left; exact R | | right; eauto].
        fold v in N'. congruence.
    + unfold JS.Set_add. cbn [existsb].
      rewrite (sameValueZero_number v _ N), eqb_stored.
      destruct (PrimFloat.eqb v v0) eqn:Ev; cbn [orb].
      * destruct (IH rest) as (rest' & E & H). exists rest'. split; [exact E|].
        rewrite H. split.
        -- intros [R|(b' & Hb' & N' & S')]; [left; exact R | right].
           exists b'. split; [right; exact Hb' | auto].
        -- intros [R|(b' & [<-|Hb'] & N' & S')]; [left; exact R | | right; eauto].
           fold v in S'. unfold JS.strictEq in S'. congruence.
      * destruct (existsb (JS.sameValueZero v) rest) eqn:X.
        -- destruct (IH rest) as (rest' & E & H). exists rest'. split; [exact E|].
           rewrite H.
           assert (R : rest <> []) by (destruct rest; [discriminate X | discriminate]).
           split; intros _; left; exact R.
        -- change ((stored v0 :: rest) ++ [if PrimFloat.is_zero v then zero else v])%list
             with (stored v0 :: (rest ++ [stored v]))%list.
           destruct (IH (rest ++ [stored v])%list) as (rest' & E & H).
           exists rest'. split; [exact E|]. rewrite H. split.
           ++ intros _. right. exists b. split; [left; reflexivity|].
              fold v. split; [exact N | exact Ev].
           ++ intros _. left. destruct rest; discriminate.
Qed.

(** X18: the set of battery voltages.  With no battery whose
    [nominalVoltage] parses, [systemNominalVoltage] is ['N/A'] and there is no
    consistency issue.  Otherwise [systemNominalVoltage] is the voltage of the
    first battery, in stored order, whose [nominalVoltage] parses, and
    [voltageConsistencyIssue] is set exactly when a later battery parses to a
    voltage that is not [===] that one. *)
Theorem battery_voltage_set (cs : list AnyComponent) (si : SystemInputs) :
  exists st,
    stats cs si = Normal st
    /\ ((forall b, In b (batteries cs) ->
           JS.isNaN (getNum (nominalVoltage (properties b))) = true) ->
        systemNominalVoltage st = "N/A" /\ voltageConsistencyIssue st = false)
    /\ (forall l1 b l2,
          batteries cs = (l1 ++ b :: l2)%list ->
          (forall b', In b' l1 ->
             JS.isNaN (getNum (nominalVoltage (properties b'))) = true) ->
          JS.isNaN (getNum (nominalVoltage (properties b))) = false ->
          systemNominalVoltage st = JS.toString (getNum (nominalVoltage (properties b)))
          /\ (voltageConsistencyIssue st = true
              <-> exists b', In b' l2
                    /\ JS.isNaN (getNum (nominalVoltage (properties b'))) = false
                    /\ JS.strictEq (getNum (nominalVoltage (properties b')))
                         (getNum (nominalVoltage (properties b))) = false)).
Proof.
  destruct (stats_fields cs si) as (st & E & _ & _ & _ & _ & Hv).
  cbv zeta in Hv. rewrite batteryStep_voltages in Hv. destruct Hv as [Hc Hn].
  exists st. split; [exact E|]. split.
  - intros H. rewrite (voltageStep_unparsed _ _ H) in Hc, Hn.
    split; [exact Hn | exact Hc].
  - intros l1 b l2 Hb H1 Nb.
    destruct (voltageStep_later (getNum (nominalVoltage (properties b))) l2 [])
      as (rest' & Er & Hr).
    assert (Ef : fold_left voltageStep (l1 ++ b :: l2) []
                 = stored (getNum (nominalVoltage (properties b))) :: rest').
    { rewrite fold_left_app, (voltageStep_unparsed _ _ H1). cbn [fold_left].
      rewrite <- Er. f_equal. unfold voltageStep. rewrite Nb. reflexivity. }
    rewrite Hb, Ef in Hc, Hn. cbn in Hc, Hn.
    split; [rewrite Hn; apply toString_stored|].
    split.
    + intros Hv. rewrite Hc in Hv. destruct rest' as [|f r]; [discriminate|].
      destruct (proj1 Hr ltac:(discriminate)) as [R|R]; [congruence | exact R].
    + intros H. rewrite Hc. destruct rest' as [|f r]; [|reflexivity].
      exfalso. apply (proj2 Hr (or_intror H)). reflexivity.
Qed.

(** * Properties of the form inputs *)

Lemma ltb_leb (x y : float) : PrimFloat.ltb x y = true -> PrimFloat.leb x y = true.
Proof.
  rewrite ltb_value, leb_value. intros (Nx & Ny & H). repeat split; auto. lia.
Qed.

Lemma numberOr_number (x d : float) :
  PrimFloat.is_nan d = false -> PrimFloat.is_nan (numberOr x d) = false.
Proof.
  intros Nd. unfold numberOr.
  destruct (PrimFloat.is_nan x) eqn:N; cbn [orb]; [exact Nd|].
  destruct (PrimFloat.is_zero x); [exact Nd | exact N].
Qed.

Lemma Math_max_one (w : float) :
  PrimFloat.is_nan w = false ->
  Math_max 1 w = if PrimFloat.ltb 1 w then w else 1%float.
Proof.
  intros N. unfold Math_max. rewrite N. cbn [orb].
  change (PrimFloat.is_nan 1) with false. cbn [orb].
  destruct (PrimFloat.ltb 1 w); [reflexivity|].
  change (PrimFloat.get_sign 1) with false.
  destruct (PrimFloat.ltb w 1); reflexivity.
Qed.

Lemma Math_min_hundred (m : float) :
  PrimFloat.is_nan m = false ->
  Math_min 100 m = if PrimFloat.ltb 100 m then 100%float else m.
Proof.
  intros N. unfold Math_min. rewrite N.
  change (PrimFloat.is_nan 100) with false. cbn [orb].
  destruct (PrimFloat.ltb 100 m); [reflexivity|].
  change (PrimFloat.get_sign 100) with false.
  destruct (PrimFloat.ltb m 100); reflexivity.
Qed.

(** Numbers that compare equal to a number other than zero are that
    number. *)
Lemma same_value_eq (x c : float) :
  PrimFloat.is_zero c = false ->
  PrimFloat.leb c x = true -> PrimFloat.ltb c x = false -> x = c.
Proof.
  intros Zc L1 L2.
  assert (E : JS.strictEq x c = true).
  { unfold JS.strictEq. apply leb_value in L1. destruct L1 as (Nc & Nx & V).
    apply ltb_false_value in L2. destruct L2 as [L2|[L2|L2]]; try congruence.
    apply eqb_value. repeat split; auto. lia. }
  destruct (strictEq_cases x c E) as [H|[_ H]]; [exact H | congruence].
Qed.

(** X19: the percentage inputs.  Whatever is typed, the value that the
    three percentage fields pass to [handleSystemInput] is a number from 1 to
    100; it is the number typed when that is within the range. *)
Theorem percentInput_range (value : string) (prev : SystemInputs) :
  PrimFloat.leb 1 (percentInput value) = true
  /\ PrimFloat.leb (percentInput value) 100 = true
  /\ (PrimFloat.leb 1 (JS.Number value) = true ->
      PrimFloat.leb (JS.Number value) 100 = true ->
      percentInput value = JS.Number value)
  /\ PrimFloat.leb 1 (batteryDoD (handleSystemInput KBatteryDoD (percentInput value) prev))
     = true
  /\ PrimFloat.leb (batteryDoD (handleSystemInput KBatteryDoD (percentInput value) prev)) 100
     = true.
Proof.
  set (w := numberOr (JS.Number value) 1).
  assert (Nw : PrimFloat.is_nan w = false) by (apply numberOr_number; reflexivity).
  assert (Em : Math_max 1 w = if PrimFloat.ltb 1 w then w else 1%float)
    by (apply Math_max_one; exact Nw).
  assert (Nm : PrimFloat.is_nan (Math_max 1 w) = false).
  { rewrite Em. destruct (PrimFloat.ltb 1 w); [exact Nw | reflexivity]. }
  assert (Lm : PrimFloat.leb 1 (Math_max 1 w) = true).
  { rewrite Em. destruct (PrimFloat.ltb 1 w) eqn:L; [apply ltb_leb; exact L | reflexivity]. }
  assert (Er : percentInput value
               = if PrimFloat.ltb 100 (Math_max 1 w) then 100%float else Math_max 1 w).
  { unfold percentInput. fold w. apply Math_min_hundred. exact Nm. }
  assert (R1 : PrimFloat.leb 1 (percentInput value) = true).
  { rewrite Er. destruct (PrimFloat.ltb 100 (Math_max 1 w)); [reflexivity | exact Lm]. }
  assert (R2 : PrimFloat.leb (percentInput value) 100 = true).
  { rewrite Er. destruct (PrimFloat.ltb 100 (Math_max 1 w)) eqn:L; [reflexivity|].
    apply not_ltb_leb; [reflexivity | exact Nm | exact L]. }
  split; [exact R1|]. split; [exact R2|]. split; [|split; [exact R1 | exact R2]].
  intros H1 H2.
  assert (Nn : PrimFloat.is_nan (JS.Number value) = false)
    by (apply leb_value in H1; tauto).
  assert (Zn : PrimFloat.is_zero (JS.Number value) = false).
  { apply positive_not_zero. apply ltb0_spec. split; [exact Nn|].
    apply leb_value in H1. destruct H1 as (_ & _ & V).
    change (Fval 1) with (2 ^ 1074)%Z in V. pose proof (pow2_pos 1074 ltac:(lia)). lia. }
  assert (Ew : w = JS.Number value).
  { subst w. unfold numberOr. rewrite Nn, Zn. reflexivity. }
  rewrite Er, Em, Ew.
  destruct (PrimFloat.ltb 1 (JS.Number value)) eqn:L1.
  - destruct (PrimFloat.ltb 100 (JS.Number value)) eqn:L2; [|reflexivity].
    assert (PrimFloat.ltb 100 (JS.Number value) = false)
      by (apply le_or_nan_not_ltb; right; right; exact H2).
    congruence.
  - change (PrimFloat.ltb 100 1) with false. cbv iota.
    symmetry. apply same_value_eq; [reflexivity | exact H1 | exact L1].
Qed.

(** * Concrete instances of the further properties *)

(** With ids of 17 digits, [String(id)] is the value that the select
    stored: the array of [x_stamped] is among those assigned to its MPPT, and
    removing the MPPT clears the assignment. *)
Example stamped_ids :
  JS.toString (id x_stamped_mppt) = "1762076400003.7903"
  /\ assignedTo (arrays x_stamped) x_stamped_mppt = [x_stamped_array]
  /\ findPanel (panels x_stamped) x_stamped_array = Some x_stamped_panel
  /\ map (fun a => assignedMpptId (properties a))
         (arrays (removeComponent (id x_stamped_mppt) x_stamped)) = [""]
  /\ JS.toString 33.333333333333336 = "33.333333333333336".
Proof.
  split; [vm_compute; reflexivity|].
  split; [vm_compute; reflexivity|].
  split; [vm_compute; reflexivity|].
  split; vm_compute; reflexivity.
Qed.

(** The array of [x_stamped] is assigned to its MPPT; it stays resolved
    when the MPPT is removed and when the array is cloned. *)
Lemma assignments_stay_resolved_witness :
  assignmentsResolve (removeComponent 1762076400003.7903 x_stamped)
  /\ assignmentsResolve (cloneComponent 1762076425678.0627 1762076500000 0.5 x_stamped)
  /\ assignmentsResolve (updateComponentName 1762076400003.7903 "Charger" x_stamped)
  /\ In x_stamped_array (assignedTo (arrays x_stamped) x_stamped_mppt).
Proof.
  destruct (assignments_stay_resolved x_stamped) as (H1 & H2 & H3 & H4).
  - intros a [<-|[]]. right. exists x_stamped_mppt. split; [left; reflexivity|].
    vm_compute. reflexivity.
  - split; [apply H1 | split; [apply H2 | split; [apply H3|]]].
    destruct (H4 x_stamped_array) as [U|(m & [<-|[]] & A)].
    + left; reflexivity.
    + vm_compute in U. destruct U.
    + exact A.
Defined.

(** Removing panel 3 leaves array 2 pointing at it. *)
Lemma removeComponent_keeps_panel_reference_witness :
  selectedPanelId (properties (unassignFrom 3 x_array)) = "3"
  /\ findPanel (panels (removeComponent 3 x_components)) (unassignFrom 3 x_array) = None.
Proof.
  destruct (removeComponent_keeps_panel_reference 3 x_components x_array)
    as (_ & H2 & H3 & _).
  - left; reflexivity.
  - vm_compute; reflexivity.
  - intros p [<-|[]] _. vm_compute; reflexivity.
  - split; [rewrite H2; reflexivity | exact H3].
Defined.

(** Cloning the array of [x_stamped]: the copy is unassigned, and the MPPT
    still has the one array. *)
Lemma cloneComponent_array_witness :
  exists cloned,
    cloneComponent 1762076425678.0627 1762076500000 0.5 x_stamped
    = (x_stamped ++ [ArrayConfig cloned])%list
    /\ assignedMpptId (properties cloned) = ""
    /\ List.length
         (unassignedArrays
            (arrays (cloneComponent 1762076425678.0627 1762076500000 0.5 x_stamped)))
       = 1%nat
    /\ assignedTo
         (arrays (cloneComponent 1762076425678.0627 1762076500000 0.5 x_stamped))
         x_stamped_mppt
       = [x_stamped_array].
Proof.
  destruct (cloneComponent_array 1762076425678.0627 1762076500000 0.5 x_stamped
              defaultSystemInputs x_stamped_array)
    as (cloned & E & _ & _ & A & U & T & _).
  - vm_compute; reflexivity.
  - exists cloned. split; [exact E|]. split; [exact A|].
    split; [rewrite U; reflexivity|].
    rewrite T. vm_compute; reflexivity.
Defined.

(** The summary of a system of one MPPT, one array and one panel. *)
Lemma rollup_summary_witness :
  exists front s,
    messages x_components x_stats defaultSystemInputs
    = Normal (front ++ fixedNotes ++ [s])%list.
Proof.
  destruct (rollup_summary x_components x_stats defaultSystemInputs)
    as (front & s & E & _).
  - discriminate.
  - exists front, s. exact E.
Defined.

(** A system voltage of 48 V under an inverter that needs 50 V. *)
Lemma inverter_window_witness :
  exists st msgs,
    evaluate x_storage defaultSystemInputs = Normal (st, msgs)
    /\ In (message Error "Inverter 1 system voltage (48V) below inverter minimum (50V).")
          msgs.
Proof.
  destruct (inverter_window x_storage defaultSystemInputs x_inverter)
    as (st & msgs & E & H & _).
  - left; reflexivity.
  - exists st, msgs. split; [exact E|].
    apply H. vm_compute; reflexivity.
Defined.

(** 1000 W of inverters on a battery of 12 V that may discharge at 10 A. *)
Lemma discharge_current_diagnostics_witness :
  exists st msgs,
    evaluate x_storage defaultSystemInputs = Normal (st, msgs)
    /\ In (message Error
             "Battery 1 estimated discharge current (83.3A) exceeds max discharge current (10A).")
          msgs.
Proof.
  destruct (discharge_current_diagnostics x_storage defaultSystemInputs x_battery)
    as (st & msgs & est & E & Ee & H & _).
  - left; reflexivity.
  - vm_compute; reflexivity.
  - vm_compute; reflexivity.
  - vm_compute; reflexivity.
  - exists st, msgs. split; [exact E|].
    subst est.
    exact (H eq_refl).
Defined.


(** 20 A of arrays on an MPPT that takes 15 A. *)
Lemma mppt_aggregate_checks_witness :
  exists st msgs,
    evaluate x_stamped defaultSystemInputs = Normal (st, msgs)
    /\ In (message Error "MPPT 1 total array Isc (20.00A) exceeds max input current (15A).")
          msgs.
Proof.
  destruct (mppt_aggregate_checks x_stamped defaultSystemInputs x_stamped_mppt)
    as (st & msgs & E & H & _).
  - left; reflexivity.
  - exists st, msgs. split; [exact E|].
    apply H; vm_compute; reflexivity.
Defined.

